(** * CareCompanion: the per-turn orchestration of the Groq medical agent

    A shallow embedding of
    - [server/src/agents/groq/rag.ts] (class [GroqMedicalAgent]: token
      estimate, knowledge retrieval, history assembly, tool adapters and
      the streaming completion loop of [handleMessage]), and
    - [client/src/components/chat-message.tsx]
      ([extractTextFromStreamingJSON], the incremental envelope decoder;
      [detectLanguageFallback], [messageContent] and
      [getVoiceForLanguage], the choice of language and voice), and
    - [server/src/agents/groq/GroqAiAgent.ts] ([getConversationHistory],
      the history of the agent without retrieval),
    followed by the properties of the specification stated over it and
    by further properties of the same code.

    Conventions.  A JavaScript string is a [string] (a sequence of
    characters); token counts and clock readings are [Z]; relevance scores
    are rationals; an [undefined] or missing value is [None].  External
    collaborators (provider, vector store, search, SMS gateway, geocoder,
    channel history) are fields of a [World] record that the code queries;
    every outbound call that the properties talk about is logged as an
    [Event]. *)

From Stdlib Require Import String Ascii List ZArith QArith Bool Lia DecimalString.
Import ListNotations.

Local Open Scope Z_scope.
Local Open Scope list_scope.
Local Open Scope string_scope.

Set Implicit Arguments.

(* ================================================================== *)
(** * JavaScript strings *)
(* ================================================================== *)

Module Js.

Definition dquote : ascii := ascii_of_nat 34.
Definition backslash : ascii := ascii_of_nat 92.
Definition newline : ascii := ascii_of_nat 10.
Definition tab : ascii := ascii_of_nat 9.

(** One-character strings for building literals that contain quotes or
    line feeds. *)
Definition q : string := String dquote EmptyString.
Definition nl : string := String newline EmptyString.

(** Truthiness of a string: every string but the empty one. *)
Definition truthy (s : string) : bool :=
  match s with EmptyString => false | _ => true end.

(** [a || b] on possibly undefined strings. *)
Definition or_else (a : option string) (b : string) : string :=
  match a with
  | Some s => if truthy s then s else b
  | None => b
  end.

(** Truthiness of a possibly undefined string. *)
Definition truthy_opt (a : option string) : bool :=
  match a with Some s => truthy s | None => false end.

(** [a || b] when both sides may be undefined. *)
Definition or_opt (a b : option string) : option string :=
  if truthy_opt a then a else b.

(** White space in the sense of [String.prototype.trim] and of the
    regular-expression class [\s], on the characters a [string] has. *)
Definition is_space (c : ascii) : bool :=
  let n := nat_of_ascii c in
  ((9 <=? n) && (n <=? 13))%nat || (n =? 32)%nat || (n =? 160)%nat.

Fixpoint trimStart (s : string) : string :=
  match s with
  | EmptyString => EmptyString
  | String c s' => if is_space c then trimStart s' else s
  end.

(** [trimEnd] drops the trailing white space: a character stays when
    something that is not white space follows it or it is itself not
    white space. *)
Fixpoint trimEnd (s : string) : string :=
  match s with
  | EmptyString => EmptyString
  | String c s' =>
      match trimEnd s' with
      | EmptyString => if is_space c then EmptyString else String c EmptyString
      | t => String c t
      end
  end.

Definition trim (s : string) : string := trimEnd (trimStart s).

(** [toLowerCase] on one character: the letters A to Z, and the upper-case
    letters of the Latin-1 range (all of 192..222 but the sign at 215). *)
Definition lower (c : ascii) : ascii :=
  let n := nat_of_ascii c in
  if ((65 <=? n) && (n <=? 90))%nat then ascii_of_nat (n + 32)
  else if ((192 <=? n) && (n <=? 222) && negb (n =? 215))%nat then ascii_of_nat (n + 32)
  else c.

Fixpoint toLowerCase (s : string) : string :=
  match s with
  | EmptyString => EmptyString
  | String c s' => String (lower c) (toLowerCase s')
  end.

Definition startsWith (s p : string) : bool := String.prefix p s.

(** [s.includes(needle)]. *)
Fixpoint includes (s needle : string) : bool :=
  if String.prefix needle s then true
  else match s with
       | EmptyString => false
       | String _ s' => includes s' needle
       end.

(** The concatenation of a list of strings. *)
Definition concat (parts : list string) : string :=
  fold_right String.append EmptyString parts.

(** [parts.join(sep)]. *)
Fixpoint join (sep : string) (parts : list string) : string :=
  match parts with
  | [] => EmptyString
  | [p] => p
  | p :: rest => p ++ sep ++ join sep rest
  end.

(** Decimal rendering of an integer, as a template literal renders an
    integer-valued number. *)
Definition of_Z (z : Z) : string := NilZero.string_of_int (Z.to_int z).
Definition of_nat (n : nat) : string := of_Z (Z.of_nat n).

Definition len (s : string) : Z := Z.of_nat (String.length s).

End Js.

(* ================================================================== *)
(** * Token accounting *)
(* ================================================================== *)

Definition MAX_HISTORY_MESSAGES : Z := 20.
Definition MAX_TOTAL_TOKENS : Z := 28000.
Definition SYSTEM_PROMPT_TOKENS : Z := 2000.
Definition CURRENT_MESSAGE_TOKENS : Z := 500.
Definition MAX_PINECONE_RESULTS : Z := 5.
Definition PINECONE_TOKEN_LIMIT : Z := 3000.
Definition MIN_HISTORY_MESSAGES : nat := 3.

(** [Math.ceil(text.length / 4)]: the ceiling of a quotient of naturals. *)
Definition estimateTokens (text : string) : Z := (Js.len text + 3) / 4.

(** Step 2 of [handleMessage]: what is left for the history once the
    system prompt, the retrieved context and the current message are
    accounted for.  The source subtracts and nothing else. *)
Definition availableForHistory (contextTokens : Z) : Z :=
  MAX_TOTAL_TOKENS - SYSTEM_PROMPT_TOKENS - contextTokens - CURRENT_MESSAGE_TOKENS.

(* ================================================================== *)
(** * Knowledge retrieval ([retrieveFromPinecone]) *)
(* ================================================================== *)

(** The reply of an HTTP [fetch]: the call may throw, answer with a status
    that is not ok, or deliver a body. *)
Inductive Fetched (A : Type) : Type :=
| FetchThrows
| FetchNotOk
| FetchOk (body : A).
Arguments FetchThrows {A}.
Arguments FetchNotOk {A}.

(** What the embedding service returns: one vector, or a batch of them. *)
Inductive EmbeddingJson : Type :=
| EmbVector (v : list Q)
| EmbBatch (vs : list (list Q)).

Record Metadata : Type := {
  md_text : option string;
  md_content : option string;
  md_source : option string
}.

(** A match of the vector store; [score] is optional in the SDK type. *)
Record Match : Type := {
  score : option Q;
  metadata : option Metadata
}.

Module Retrieval.

(** [new Array(384).fill(0)]. *)
Definition zero_vector : list Q := repeat (0%Q) 384.

(** [generateEmbedding]: every failure is answered by the zero vector. *)
Definition generateEmbedding (hf : string -> Fetched EmbeddingJson) (text : string)
  : list Q :=
  match hf text with
  | FetchThrows => zero_vector
  | FetchNotOk => zero_vector
  | FetchOk (EmbVector v) => v
  | FetchOk (EmbBatch (v :: _)) => v
  | FetchOk (EmbBatch []) => []
  end.

(** The guard [match.score && match.score < 0.7]: a score that is
    absent or zero is falsy, so the comparison is not reached. *)
Definition score_truthy (s : option Q) : bool :=
  match s with
  | Some x => negb (Qeq_bool x 0)
  | None => false
  end.

Definition below_floor (x : Q) : bool := negb (Qle_bool (7 # 10) x).

Definition low_relevance (m : Match) : bool :=
  match score m with
  | Some x => score_truthy (Some x) && below_floor x
  | None => false
  end.

(** [metadata?.text || metadata?.content], and the empty string when
    both are falsy. *)
Definition content_of (m : Match) : string :=
  match metadata m with
  | Some md => Js.or_else (Js.or_opt (md_text md) (md_content md)) EmptyString
  | None => EmptyString
  end.

(** [metadata?.source || "Medical Database"]. *)
Definition source_of (m : Match) : string :=
  match metadata m with
  | Some md => Js.or_else (md_source md) "Medical Database"
  | None => "Medical Database"
  end.

Definition snippet_of (m : Match) : string :=
  "[Source: " ++ source_of m ++ "]" ++ Js.nl ++ content_of m ++ Js.nl.

(** The [for (const match of queryResponse.matches)] loop, with its two
    [continue]s and its [break], over the loop variables [contextText]
    and [currentTokens]. *)
Fixpoint collect (matches : list Match) (contextText : string) (currentTokens : Z)
  : string * Z :=
  match matches with
  | [] => (contextText, currentTokens)
  | m :: rest =>
      if low_relevance m then collect rest contextText currentTokens
      else if negb (Js.truthy (content_of m)) then collect rest contextText currentTokens
      else
        let snippet := snippet_of m in
        let snippetTokens := estimateTokens snippet in
        if currentTokens + snippetTokens >? PINECONE_TOKEN_LIMIT
        then (contextText, currentTokens)
        else collect rest (contextText ++ snippet ++ Js.nl) (currentTokens + snippetTokens)
  end.

(** The store's answer: the query may throw, and [matches] may be
    missing from the response. *)
Inductive QueryReply : Type :=
| QueryThrows
| QueryOk (matches : option (list Match)).

Definition retrieveFromPinecone
    (hf : string -> Fetched EmbeddingJson)
    (pinecone_query : list Q -> QueryReply)
    (query : string) : string :=
  let queryEmbedding := generateEmbedding hf query in
  match pinecone_query queryEmbedding with
  | QueryThrows => EmptyString
  | QueryOk None => EmptyString
  | QueryOk (Some []) => EmptyString
  | QueryOk (Some matches) => Js.trim (fst (collect matches EmptyString 0))
  end.

(** The matches whose snippet the loop appends, in store order: the
    list the loop's text is the rendering of. *)
Fixpoint retained (matches : list Match) (currentTokens : Z) : list Match :=
  match matches with
  | [] => []
  | m :: rest =>
      if low_relevance m then retained rest currentTokens
      else if negb (Js.truthy (content_of m)) then retained rest currentTokens
      else
        let snippetTokens := estimateTokens (snippet_of m) in
        if currentTokens + snippetTokens >? PINECONE_TOKEN_LIMIT
        then []
        else m :: retained rest (currentTokens + snippetTokens)
  end.

Definition render (ms : list Match) : string :=
  Js.concat (map (fun m => snippet_of m ++ Js.nl) ms).

Definition tokens_of (ms : list Match) : Z :=
  fold_right (fun m acc => estimateTokens (snippet_of m) + acc) 0 ms.

End Retrieval.

Arguments Retrieval.snippet_of : simpl never.
Arguments estimateTokens : simpl never.

(* ================================================================== *)
(** * JavaScript values, exceptions, [JSON.parse] *)
(* ================================================================== *)

(** How a piece of code ends: with a value, with an exception, or (for
    the unbounded [while (true)] of the completion loop only) without
    having ended when the fuel of the model ran out. *)
Inductive Outcome (A : Type) : Type :=
| Returned (a : A)
| Thrown (err : string)
| OutOfFuel.
Arguments Thrown {A}.
Arguments OutOfFuel {A}.

(** The value a JSON text denotes, over a type of numbers. *)
#[warnings="-register-all"]
Inductive json (N : Type) : Type :=
| JNull
| JBool (b : bool)
| JNum (n : N)
| JStr (s : string)
| JArr (items : list (json N))
| JObj (fields : list (string * json N)).
Arguments JNull {N}.
Arguments JBool {N}.
Arguments JStr {N}.

(** What the code needs of the JavaScript runtime and is not written in
    this repository: numbers with their truthiness and their rendering in
    a template literal, and [JSON.parse] ([None] when it throws a
    [SyntaxError]). *)
Class JsRuntime : Type := {
  number : Type;
  number_truthy : number -> bool;
  number_toString : number -> string;
  JSON_parse : string -> option (json number)
}.

Section Values.
Context {RT : JsRuntime}.

Definition value : Type := json number.

(** Truthiness of a value. *)
Definition js_truthy (v : value) : bool :=
  match v with
  | JNull => false
  | JBool b => b
  | JNum n => number_truthy n
  | JStr s => Js.truthy s
  | JArr _ => true
  | JObj _ => true
  end.

Fixpoint assoc (key : string) (fields : list (string * value)) : option value :=
  match fields with
  | [] => None
  | (k, v) :: rest => if String.eqb k key then Some v else assoc key rest
  end.

(** [v.key] for the keys the code reads ([text], [lang], [location],
    [lat], [long], [query]): a [TypeError] on [null], the field of an
    object, [undefined] on anything else. *)
Definition get (v : value) (key : string) : Outcome (option value) :=
  match v with
  | JNull => Thrown "TypeError: cannot read properties of null"
  | JObj fields => Returned (assoc key fields)
  | _ => Returned None
  end.

(** [v?.key], where [v] may also be [undefined]. *)
Definition get_opt (v : option value) (key : string) : option value :=
  match v with
  | Some (JObj fields) => assoc key fields
  | _ => None
  end.

(** Truthiness of a possibly undefined value. *)
Definition js_truthy_opt (v : option value) : bool :=
  match v with Some x => js_truthy x | None => false end.

End Values.

(* ================================================================== *)
(** * History assembly ([getConversationHistory]) *)
(* ================================================================== *)

(** A message of the channel, as far as the agent reads it. *)
Record Message : Type := {
  msg_text : option string;
  msg_ai_generated : bool
}.

(** An entry of the assembled history: [{ role, content }]. *)
Record Turn : Type := {
  role : string;
  content : string
}.

(** The reply of [channel.query]. *)
Inductive ChannelReply : Type :=
| ChannelThrows
| ChannelOk (messages : option (list Message)).

Section History.
Context {RT : JsRuntime}.

(** The inner [try]: [messageText = parsed.text || msg.text], and
    [msg.text] as it is when the parse or the property access throws. *)
Definition decode_text (raw : string) : value :=
  match JSON_parse raw with
  | None => JStr raw
  | Some parsed =>
      match get parsed "text" with
      | Returned (Some v) => if js_truthy v then v else JStr raw
      | Returned None => JStr raw
      | _ => JStr raw
      end
  end.

(** The body of the loop for one message: the message is passed over
    ([continue]), a [TypeError] is thrown ([trim] on a value that is no
    string), or the message becomes a turn with its token estimate. *)
Inductive Scanned : Type :=
| Skipped
| Raised
| Entry (t : Turn) (msgTokens : Z).

Definition scan_message (msg : Message) : Scanned :=
  match msg_text msg with
  | None => Skipped
  | Some raw =>
      if negb (Js.truthy raw) then Skipped
      else match decode_text raw with
           | JStr messageText =>
               if negb (Js.truthy messageText) then Skipped
               else if String.eqb (Js.trim messageText) EmptyString then Skipped
               else Entry {| role := if msg_ai_generated msg then "assistant" else "user";
                             content := messageText |}
                          (estimateTokens messageText)
           | v => if negb (js_truthy v) then Skipped else Raised
           end
  end.

(** The loop [for (let i = messages.length - 1; i >= 0; i--)], run over
    the messages newest first; [history.unshift] is a cons. *)
Fixpoint scan (newest_first : list Message) (maxTokens : Z)
    (history : list Turn) (totalTokens : Z) : Outcome (list Turn) :=
  match newest_first with
  | [] => Returned history
  | msg :: older =>
      match scan_message msg with
      | Skipped => scan older maxTokens history totalTokens
      | Raised => Thrown "TypeError: messageText.trim is not a function"
      | Entry t msgTokens =>
          let isRecentMessage := (List.length history <? MIN_HISTORY_MESSAGES)%nat in
          if negb isRecentMessage && (totalTokens + msgTokens >? maxTokens)
          then Returned history
          else scan older maxTokens (t :: history) (totalTokens + msgTokens)
      end
  end.

Definition getConversationHistory (channel_query : ChannelReply) (maxTokens : Z)
  : list Turn :=
  match channel_query with
  | ChannelThrows => []
  | ChannelOk None => []
  | ChannelOk (Some []) => []
  | ChannelOk (Some messages) =>
      match scan (rev messages) maxTokens [] 0 with
      | Returned history => history
      | _ => []
      end
  end.

(** The turns a list of messages decodes to, in the order of the list. *)
Fixpoint decodable (messages : list Message) : list Turn :=
  match messages with
  | [] => []
  | msg :: rest =>
      match scan_message msg with
      | Entry t _ => t :: decodable rest
      | _ => decodable rest
      end
  end.

(** No message makes the loop throw. *)
Definition well_typed (messages : list Message) : Prop :=
  forall msg, In msg messages -> scan_message msg <> Raised.

Definition turn_tokens (t : Turn) : Z := estimateTokens (content t).

Definition history_tokens (h : list Turn) : Z :=
  fold_right (fun t acc => turn_tokens t + acc) 0 h.

End History.

(* ================================================================== *)
(** * Tool-call deltas and their accumulator *)
(* ================================================================== *)

(** One element of [delta.tool_calls]: every field is optional. *)
Record ToolCallDelta : Type := {
  tc_index : option nat;
  tc_id : option string;
  tc_name : option string;
  tc_arguments : option string
}.

(** An accumulated call: [{ id, type: "function", function: { name,
    arguments } }]. *)
Record ToolCall : Type := {
  call_id : string;
  fn_name : string;
  fn_arguments : string
}.

(** The array [toolCalls]: a JavaScript array may have holes, which read
    as [undefined]. *)
Definition ToolCalls : Type := list (option ToolCall).

(** [toolCalls[i]]. *)
Definition slot (toolCalls : ToolCalls) (i : nat) : option ToolCall :=
  nth i toolCalls None.

(** [toolCalls[i] = v]: an assignment past the end grows the array and
    leaves holes before [i]. *)
Fixpoint store (toolCalls : ToolCalls) (i : nat) (v : ToolCall) : ToolCalls :=
  match i, toolCalls with
  | O, [] => [Some v]
  | O, _ :: rest => Some v :: rest
  | S i', [] => None :: store [] i' v
  | S i', x :: rest => x :: store rest i' v
  end.

(** An update in place of the call at [i]. *)
Definition amend (toolCalls : ToolCalls) (i : nat) (f : ToolCall -> ToolCall)
  : ToolCalls :=
  match slot toolCalls i with
  | Some c => store toolCalls i (f c)
  | None => toolCalls
  end.

Definition append_name (frag : string) (c : ToolCall) : ToolCall :=
  {| call_id := call_id c; fn_name := fn_name c ++ frag; fn_arguments := fn_arguments c |}.

Definition append_arguments (frag : string) (c : ToolCall) : ToolCall :=
  {| call_id := call_id c; fn_name := fn_name c; fn_arguments := fn_arguments c ++ frag |}.

(** The body of [for (const tc of delta.tool_calls)]; [now] is the
    reading of [Date.now()] that names a call the provider gave no id. *)
Definition merge_delta (now : Z) (toolCalls : ToolCalls) (tc : ToolCallDelta)
  : ToolCalls :=
  match tc_index tc with
  | None => toolCalls
  | Some index =>
      let created :=
        match slot toolCalls index with
        | Some _ => toolCalls
        | None =>
            store toolCalls index
              {| call_id := Js.or_else (tc_id tc)
                              ("call_" ++ Js.of_Z now ++ "_" ++ Js.of_nat index);
                 fn_name := EmptyString;
                 fn_arguments := EmptyString |}
        end in
      let named :=
        match tc_name tc with
        | Some frag => if Js.truthy frag then amend created index (append_name frag)
                       else created
        | None => created
        end in
      match tc_arguments tc with
      | Some frag => if Js.truthy frag then amend named index (append_arguments frag)
                     else named
      | None => named
      end
  end.

Definition merge_deltas (now : Z) (toolCalls : ToolCalls) (tcs : list ToolCallDelta)
  : ToolCalls :=
  fold_left (merge_delta now) tcs toolCalls.

(** The fragments a list of deltas carries for one index, in order of
    arrival. *)
Definition at_index (i : nat) (tc : ToolCallDelta) : bool :=
  match tc_index tc with
  | Some j => Nat.eqb i j
  | None => false
  end.

Definition fragment (o : option string) : string :=
  match o with Some s => s | None => EmptyString end.

Definition name_fragments (i : nat) (tcs : list ToolCallDelta) : string :=
  Js.concat
    (map (fun tc => fragment (tc_name tc)) (filter (at_index i) tcs)).

Definition arguments_fragments (i : nat) (tcs : list ToolCallDelta) : string :=
  Js.concat
    (map (fun tc => fragment (tc_arguments tc)) (filter (at_index i) tcs)).

(** One delta that delivers a call whole. *)
Definition whole (i : nat) (name arguments : string) : ToolCallDelta :=
  {| tc_index := Some i; tc_id := None;
     tc_name := Some name; tc_arguments := Some arguments |}.

(** The name and the arguments accumulated at an index. *)
Definition assembled (toolCalls : ToolCalls) (i : nat) : option (string * string) :=
  match slot toolCalls i with
  | Some c => Some (fn_name c, fn_arguments c)
  | None => None
  end.

(* ================================================================== *)
(** * The world of one turn and the log of its effects *)
(* ================================================================== *)

(** A message of the provider request: a plain [{ role, content }], the
    assistant message that carries the tool calls of a round
    ([content: currentContent || null]), or a tool result. *)
Inductive ChatMessage : Type :=
| Plain (role : string) (content : string)
| AssistantToolCalls (content : option string) (tool_calls : ToolCalls)
| ToolResult (tool_call_id : string) (name : string) (content : string).

(** One chunk of the completion stream; [c_now] is the reading of
    [Date.now()] while the chunk is handled. *)
Record Chunk : Type := {
  c_now : Z;
  c_content : option string;
  c_tool_calls : option (list ToolCallDelta)
}.

(** What [chat.completions.create] does: it throws, or it yields a
    stream of chunks that ends normally or by throwing. *)
Inductive StreamReply : Type :=
| CreateThrows
| Streams (chunks : list Chunk) (completes : bool).

Record Hit : Type := {
  hit_title : option string;
  hit_url : option string;
  hit_content : option string
}.

Inductive TavilyReply : Type :=
| TavilyThrows
| TavilyOk (results : option (list Hit)).

Record Address : Type := {
  suburb : option string;
  neighbourhood : option string;
  city : option string;
  town : option string;
  village : option string;
  state : option string;
  country : option string
}.

(** Which call of [partialUpdateMessage] an update comes from: the
    throttled live preview inside the stream loop, or one of the two
    calls that end a turn. *)
Inductive Publish : Type :=
| Preview
| Final.

Section Agent.
Context {RT : JsRuntime}.

(** The external collaborators, as the turn finds them. *)
Record World : Type := {
  hf_embed : string -> Fetched EmbeddingJson;
  pinecone_query : list Q -> Retrieval.QueryReply;
  channel_query : ChannelReply;
  nominatim : number -> number -> Fetched (option Address);
  completions_create : list ChatMessage -> StreamReply;
  tavily_search : option value -> TavilyReply;
  twilio_create : string -> string -> bool;
  EMERGENCY_CONTACT_NUMBER : option string;
  TWILIO_PHONE_NUMBER : string;
  clock_start : Z;
  currentDate : string;
  currentTime : string;
  now_iso : string
}.

(** The outbound calls of a turn, in the order they are made.  The calls
    of the channel and of the chat client ([sendMessage], [sendEvent],
    [partialUpdateMessage]) are taken to succeed: the transport is an
    external collaborator, and no failure of it is among the errors of a
    turn. *)
Inductive Event : Type :=
| SendMessage (text : string)
| IndicatorUpdate (ai_state : string)
| IndicatorClear
| PartialUpdateMessage (site : Publish) (text : string)
| CompletionsCreate (messages : list ChatMessage)
| TavilySearch (query : option value)
| TwilioCreate (body : string) (from : string) (to : string).

(** Code with effects: the events it logged and how it ended. *)
Definition M (A : Type) : Type := (list Event * Outcome A)%type.

Definition ret {A : Type} (a : A) : M A := ([], Returned a).

Definition bind {A B : Type} (m : M A) (f : A -> M B) : M B :=
  match m with
  | (t, Returned a) => let (t', r) := f a in ((t ++ t')%list, r)
  | (t, Thrown e) => (t, Thrown e)
  | (t, OutOfFuel) => (t, OutOfFuel)
  end.

Definition emit (e : Event) : M unit := ([e], Returned tt).

Definition throw {A : Type} (err : string) : M A := ([], Thrown err).

(** [try { m } catch (err) { h err }]: running out of fuel is no
    exception and is not caught. *)
Definition try_catch {A : Type} (m : M A) (h : string -> M A) : M A :=
  match m with
  | (t, Thrown e) => let (t', r) := h e in ((t ++ t')%list, r)
  | _ => m
  end.

Definition trace {A : Type} (m : M A) : list Event := fst m.
Definition outcome {A : Type} (m : M A) : Outcome A := snd m.

End Agent.

Declare Scope agent_scope.
Delimit Scope agent_scope with agent.
Notation "x <- c ;; k" := (bind c (fun x => k))
  (at level 61, c at next level, right associativity) : agent_scope.
Notation "c ;;; k" := (bind c (fun _ => k))
  (at level 61, right associativity) : agent_scope.
Local Open Scope agent_scope.

(* ================================================================== *)
(** * Location, prompt and tool adapters *)
(* ================================================================== *)

Section Adapters.
Context {RT : JsRuntime}.
Variable w : World.

(** [reverseGeocode]: the place name from the most specific levels the
    geocoder returned, ["your location"] on every failure. *)
Definition reverseGeocode (lat long : number) : string :=
  match nominatim w lat long with
  | FetchThrows => "your location"
  | FetchNotOk => "your location"
  | FetchOk data =>
      let address :=
        match data with
        | Some a => a
        | None => {| suburb := None; neighbourhood := None; city := None; town := None;
                     village := None; state := None; country := None |}
        end in
      let level (o : option string) : list string :=
        match o with
        | Some s => if Js.truthy s then [s] else []
        | None => []
        end in
      let parts :=
        (level (Js.or_opt (suburb address) (neighbourhood address))
         ++ level (Js.or_opt (Js.or_opt (city address) (town address)) (village address))
         ++ level (state address)
         ++ level (country address))%list in
      match parts with
      | [] => "your location"
      | _ => Js.join ", " parts
      end
  end.

(** The opening line and the fixed instructions of the system prompt
    (tools, rules, response format, language codes, length guidance):
    constant text, shortened here, that no branch of the code reads. *)
Definition PROMPT_OPENING : string :=
  "You are an empathetic AI Medical Companion designed to provide medical guidance and mental health support.".

Definition PROMPT_INSTRUCTIONS : string :=
  "CONVERSATION CONTEXT: ... AVAILABLE TOOLS: tool_search, tool_alert ... RESPONSE FORMAT: ...".

Definition getMedicalCompanionPrompt (date time : string)
    (locationName : option string) (retrievedContext : string) : string :=
  let locationInfo :=
    match locationName with
    | Some l => if Js.truthy l then "User Location: " ++ l
                else "User Location: Not available"
    | None => "User Location: Not available"
    end in
  let contextSection :=
    if Js.truthy retrievedContext
    then Js.nl ++ Js.nl ++ "RELEVANT MEDICAL KNOWLEDGE (from database):" ++ Js.nl
         ++ retrievedContext ++ Js.nl ++ Js.nl
         ++ "Use this information to provide accurate, evidence-based responses."
    else EmptyString in
  PROMPT_OPENING ++ Js.nl ++ Js.nl
  ++ "CURRENT CONTEXT:" ++ Js.nl
  ++ "- Date: " ++ date ++ Js.nl
  ++ "- Time: " ++ time ++ Js.nl
  ++ "- " ++ locationInfo ++ contextSection ++ Js.nl ++ Js.nl
  ++ PROMPT_INSTRUCTIONS.

(** One entry of the search results: the rank, the title (or Untitled),
    a dash and the url on one line, the content on the next. *)
Definition format_hit (i : nat) (r : Hit) : string :=
  Js.of_nat (i + 1) ++ ". " ++ Js.or_else (hit_title r) "Untitled" ++ " - "
  ++ Js.or_else (hit_url r) EmptyString ++ Js.nl ++ Js.or_else (hit_content r) EmptyString.

Fixpoint format_hits (i : nat) (rs : list Hit) : list string :=
  match rs with
  | [] => []
  | r :: rest => format_hit i r :: format_hits (S i) rest
  end.

(** [searchWeb]: a failure of the search provider becomes a sentence. *)
Definition searchWeb (query : option value) : M string :=
  try_catch
    (emit (TavilySearch query) ;;;
     match tavily_search w query with
     | TavilyThrows => throw "tavily"
     | TavilyOk None => ret "No relevant information found."
     | TavilyOk (Some []) => ret "No relevant information found."
     | TavilyOk (Some results) => ret (Js.join (Js.nl ++ Js.nl) (format_hits 0 results))
     end)
    (fun _ => ret "Error fetching search results.").

(** [sendEmergencyAlert], called with its one argument: the destination
    is [process.env.EMERGENCY_CONTACT_NUMBER || "+1234567890"]. *)
Definition sendEmergencyAlert (userMessage : string) : M bool :=
  let phoneNumber := Js.or_else (EMERGENCY_CONTACT_NUMBER w) "+1234567890" in
  let body :=
    "EMERGENCY ALERT: A user has sent a potentially suicidal message. Message: "
    ++ Js.q ++ userMessage ++ Js.q
    ++ ". Please provide immediate assistance. Time: " ++ now_iso w in
  try_catch
    (emit (TwilioCreate body (TWILIO_PHONE_NUMBER w) phoneNumber) ;;;
     if twilio_create w body phoneNumber then ret true else throw "twilio")
    (fun _ => ret false).

End Adapters.

(* ================================================================== *)
(** * The completion loop ([handleMessage]) *)
(* ================================================================== *)

(** What reaches the handler: [e.message] may be missing. *)
Record InboundEvent : Type := {
  ev_message : option Message
}.

(** The fixed answer of the error path. *)
Definition FALLBACK : string :=
  "{" ++ Js.q ++ "lang" ++ Js.q ++ ": " ++ Js.q ++ "en-US" ++ Js.q ++ ", "
  ++ Js.q ++ "text" ++ Js.q ++ ": " ++ Js.q
  ++ "I apologize, but I encountered an error. Please try again." ++ Js.q ++ "}".

Section Loop.
Context {RT : JsRuntime}.
Variable w : World.

(** The locals of [handleMessage] that the loop reads. *)
Record Turning : Type := {
  message : string;
  lat : option number;
  long : option number;
  locationName : option string
}.

Variable env : Turning.

(** [lat && long && locationName]: the coordinates and the resolved
    name, when all three are truthy. *)
Definition located : option (number * number * string) :=
  match lat env, long env, locationName env with
  | Some la, Some lo, Some name =>
      if number_truthy la && number_truthy lo && Js.truthy name
      then Some (la, lo, name) else None
  | _, _, _ => None
  end.

Definition isLocationQuery (searchQuery : string) : bool :=
  let lowered := Js.toLowerCase searchQuery in
  Js.includes lowered "near"
  || Js.includes lowered "hospital"
  || Js.includes lowered "doctor"
  || Js.includes lowered "clinic"
  || Js.includes lowered "pharmacy"
  || Js.includes lowered "medical".

(** [`${searchQuery} ${locationName} (${lat},${long})`]. *)
Definition enhanced (searchQuery : string) (la lo : number) (name : string) : string :=
  searchQuery ++ " " ++ name ++ " (" ++ number_toString la ++ ","
  ++ number_toString lo ++ ")".

(** The query [searchWeb] is called with: the model's own, or the
    enhanced one for a location query of a located turn.  On a located
    turn [toLowerCase] is called on whatever [functionArgs.query] is. *)
Definition forwarded_query (searchQuery : option value) : M (option value) :=
  match located with
  | None => ret searchQuery
  | Some (la, lo, name) =>
      match searchQuery with
      | Some (JStr s) =>
          if isLocationQuery s then ret (Some (JStr (enhanced s la lo name)))
          else ret searchQuery
      | _ => throw "TypeError: searchQuery.toLowerCase is not a function"
      end
  end.

Definition ALERT_RESULT : string := "Emergency alert sent successfully.".

(** The body of [for (const toolCall of toolCalls)]: a hole of the array
    is [undefined] and reading its [function] throws; the arguments are
    parsed before the name is looked at; a name that is neither of the
    two tools matches no branch. *)
Definition dispatch_call (toolCall : option ToolCall) (toolResults : list ChatMessage)
  : M (list ChatMessage) :=
  match toolCall with
  | None => throw "TypeError: cannot read properties of undefined"
  | Some call =>
      let functionName := fn_name call in
      match JSON_parse (fn_arguments call) with
      | None => throw "SyntaxError: JSON.parse"
      | Some functionArgs =>
          if String.eqb functionName "tool_search" then
            match get functionArgs "query" with
            | Returned searchQuery =>
                query <- forwarded_query searchQuery ;;
                searchResults <- searchWeb w query ;;
                ret (toolResults
                     ++ [ToolResult (call_id call) functionName searchResults])%list
            | Thrown err => throw err
            | OutOfFuel => throw "unreachable"
            end
          else if String.eqb functionName "tool_alert" then
            _ <- sendEmergencyAlert w (message env) ;;
            ret (toolResults ++ [ToolResult (call_id call) functionName ALERT_RESULT])%list
          else ret toolResults
      end
  end.

Fixpoint dispatch (toolCalls : ToolCalls) (toolResults : list ChatMessage)
  : M (list ChatMessage) :=
  match toolCalls with
  | [] => ret toolResults
  | toolCall :: rest =>
      toolResults' <- dispatch_call toolCall toolResults ;;
      dispatch rest toolResults'
  end.

(** The text part of the loop body of [for await (const chunk of
    completionStream)]: the content is appended and, when more than a
    second passed since the last update, previewed. *)
Definition take_content (chunk : Chunk) (accumulatedText currentContent : string)
    (lastUpdate : Z) : M (string * Z) :=
  match c_content chunk with
  | Some piece =>
      if Js.truthy piece then
        let currentContent' := currentContent ++ piece in
        if c_now chunk - lastUpdate >? 1000 then
          emit (PartialUpdateMessage Preview (accumulatedText ++ currentContent')) ;;;
          ret (currentContent', c_now chunk)
        else ret (currentContent', lastUpdate)
      else ret (currentContent, lastUpdate)
  | None => ret (currentContent, lastUpdate)
  end.

Definition take_tool_calls (chunk : Chunk) (toolCalls : ToolCalls) : ToolCalls :=
  match c_tool_calls chunk with
  | Some tcs => merge_deltas (c_now chunk) toolCalls tcs
  | None => toolCalls
  end.

Fixpoint consume (chunks : list Chunk) (accumulatedText currentContent : string)
    (toolCalls : ToolCalls) (lastUpdate : Z) : M (string * ToolCalls * Z) :=
  match chunks with
  | [] => ret (currentContent, toolCalls, lastUpdate)
  | chunk :: rest =>
      cl <- take_content chunk accumulatedText currentContent lastUpdate ;;
      consume rest accumulatedText (fst cl) (take_tool_calls chunk toolCalls) (snd cl)
  end.

(** [while (true)]: one iteration per stream; the loop is left by
    [break] when a stream ends without tool calls, or by an exception. *)
Fixpoint rounds (fuel : nat) (conversationMessages : list ChatMessage)
    (accumulatedText : string) (lastUpdate : Z) : M string :=
  match fuel with
  | O => ([], OutOfFuel)
  | S fuel' =>
      emit (CompletionsCreate conversationMessages) ;;;
      match completions_create w conversationMessages with
      | CreateThrows => throw "provider: create"
      | Streams chunks completes =>
          st <- consume chunks accumulatedText EmptyString [] lastUpdate ;;
          let '(currentContent, toolCalls, lastUpdate') := st in
          if negb completes then throw "provider: stream"
          else
            match toolCalls with
            | [] => ret (accumulatedText ++ currentContent)
            | _ =>
                toolResults <- dispatch toolCalls [] ;;
                rounds fuel'
                  (conversationMessages
                   ++ [AssistantToolCalls
                         (if Js.truthy currentContent then Some currentContent else None)
                         toolCalls]
                   ++ toolResults)%list
                  accumulatedText lastUpdate'
            end
      end
  end.

(** The history that is put before the current message: its last entry
    is left out when it is the current message itself. *)
Definition historyToAdd (conversationHistory : list Turn) : list Turn :=
  match rev conversationHistory with
  | last :: before =>
      if String.eqb (role last) "user" && String.eqb (content last) (message env)
      then rev before else conversationHistory
  | [] => conversationHistory
  end.

Definition as_chat (t : Turn) : ChatMessage := Plain (role t) (content t).

(** [conversationMessages] before the loop: the system prompt, the
    history and the current message. *)
Definition first_request (prompt : string) (conversationHistory : list Turn)
  : list ChatMessage :=
  ([Plain "system" prompt]
   ++ map as_chat (historyToAdd conversationHistory)
   ++ [Plain "user" (message env)])%list.

(** The [try] block and its [catch]. *)
Definition answer (fuel : nat) (prompt : string) (conversationHistory : list Turn)
  : M unit :=
  try_catch
    (let conversationMessages := first_request prompt conversationHistory in
     accumulatedText <- rounds fuel conversationMessages EmptyString (clock_start w) ;;
     let finalOutput := Js.trim accumulatedText in
     emit (PartialUpdateMessage Final finalOutput) ;;;
     emit IndicatorClear)
    (fun _ =>
       emit (IndicatorUpdate "AI_STATE_ERROR") ;;;
       emit (PartialUpdateMessage Final FALLBACK)).

End Loop.

Section Handler.
Context {RT : JsRuntime}.
Variable w : World.

(** [parsedMessage], after the [try]/[catch] around [JSON.parse]. *)
Definition parse_envelope (raw : string) : option value :=
  match JSON_parse raw with
  | Some v => match v with JNull => None | _ => Some v end
  | None => Some (JObj [("text", JStr raw)])
  end.

(** A field that the declared type of the envelope says is a number. *)
Inductive Coordinate : Type :=
| NoCoordinate
| IsNumber (n : number)
| NotANumber.

Definition coordinate (v : option value) : Coordinate :=
  match v with
  | None => NoCoordinate
  | Some JNull => NoCoordinate
  | Some (JNum n) => IsNumber n
  | Some _ => NotANumber
  end.

(** The turn after the early returns, for a message text and
    coordinates of the declared types. *)
Definition turn (fuel : nat) (message : string) (lat long : option number) : M unit :=
  let retrievedContext :=
    Retrieval.retrieveFromPinecone (hf_embed w) (pinecone_query w) message in
  let contextTokens := estimateTokens retrievedContext in
  let conversationHistory :=
    getConversationHistory (channel_query w) (availableForHistory contextTokens) in
  let locationName :=
    match lat, long with
    | Some la, Some lo =>
        if number_truthy la && number_truthy lo then Some (reverseGeocode w la lo) else None
    | _, _ => None
    end in
  let prompt :=
    getMedicalCompanionPrompt (currentDate w) (currentTime w) locationName retrievedContext in
  emit (SendMessage EmptyString) ;;;
  emit (IndicatorUpdate "AI_STATE_THINKING") ;;;
  answer w {| message := message; lat := lat; long := long; locationName := locationName |}
         fuel prompt conversationHistory.

(** [handleMessage]; the update of [lastInteractionTs], which nothing in
    the turn reads, is left out.  [None] stands for a payload outside
    the declared type [{ text: string; location?: { lat: number; long:
    number } }] (a [text] that is truthy and no string, a coordinate
    that is no number), which the model does not follow. *)
Definition handleMessage (fuel : nat) (e : InboundEvent) : option (M unit) :=
  match ev_message e with
  | None => Some (ret tt)
  | Some m =>
      if msg_ai_generated m then Some (ret tt)
      else
        let parsedMessage :=
          parse_envelope (match msg_text m with Some t => t | None => EmptyString end) in
        let location := get_opt parsedMessage "location" in
        match get_opt parsedMessage "text" with
        | None => Some (ret tt)
        | Some (JStr message) =>
            if negb (Js.truthy message) then Some (ret tt)
            else
              match coordinate (get_opt location "lat"),
                    coordinate (get_opt location "long") with
              | NotANumber, _ => None
              | _, NotANumber => None
              | la, lo =>
                  let number_of c := match c with IsNumber n => Some n | _ => None end in
                  Some (turn fuel message (number_of la) (number_of lo))
              end
        | Some v => if js_truthy v then None else Some (ret tt)
        end
  end.

End Handler.

(* ================================================================== *)
(** * What a stream delivers and what a trace holds *)
(* ================================================================== *)

(** The tool-call deltas of a stream, in order of arrival. *)
Definition chunk_deltas (chunk : Chunk) : list ToolCallDelta :=
  match c_tool_calls chunk with
  | Some tcs => tcs
  | None => []
  end.

Definition stream_deltas (chunks : list Chunk) : list ToolCallDelta :=
  flat_map chunk_deltas chunks.

(** The array [toolCalls] at the end of a stream. *)
Definition stream_tool_calls (chunks : list Chunk) : ToolCalls :=
  fold_left (fun toolCalls chunk => take_tool_calls chunk toolCalls) chunks [].

(** The text [currentContent] at the end of a stream. *)
Definition stream_content (chunks : list Chunk) : string :=
  Js.concat (map (fun chunk => fragment (c_content chunk)) chunks).

(** What one more delta makes of the name and arguments at an index. *)
Definition extended (before : option (string * string)) (present : bool)
    (name arguments : string) : option (string * string) :=
  match before with
  | Some (n, a) => Some (n ++ name, a ++ arguments)
  | None => if present then Some (name, arguments) else None
  end.

(** The accumulated calls that ask for the alert tool. *)
Definition is_alert_call (c : option ToolCall) : bool :=
  match c with
  | Some call => String.eqb (fn_name call) "tool_alert"
  | None => false
  end.

Definition alert_calls (toolCalls : ToolCalls) : nat :=
  List.length (filter is_alert_call toolCalls).

Definition alert_budget (c : option ToolCall) : nat :=
  if is_alert_call c then 1%nat else 0%nat.

Section Traces.
Context {RT : JsRuntime}.

Definition is_final (e : Event) : bool :=
  match e with
  | PartialUpdateMessage Final _ => true
  | _ => false
  end.

Definition is_alert (e : Event) : bool :=
  match e with
  | TwilioCreate _ _ _ => true
  | _ => false
  end.

Definition is_error (e : Event) : bool :=
  match e with
  | IndicatorUpdate ai_state => String.eqb ai_state "AI_STATE_ERROR"
  | _ => false
  end.

Definition is_clear (e : Event) : bool :=
  match e with
  | IndicatorClear => true
  | _ => false
  end.

Definition is_request (e : Event) : bool :=
  match e with
  | CompletionsCreate _ => true
  | _ => false
  end.

(** The events of the stream loop and of the tool adapters. *)
Definition inner_event (e : Event) : bool :=
  match e with
  | PartialUpdateMessage Preview _ => true
  | TavilySearch _ => true
  | TwilioCreate _ _ _ => true
  | _ => false
  end.

(** The events of the [while] loop. *)
Definition loop_event (e : Event) : bool := inner_event e || is_request e.

Definition is_tool_result (msg : ChatMessage) : bool :=
  match msg with
  | ToolResult _ _ _ => true
  | _ => false
  end.

(** A request that carries a tool result. *)
Definition carries_tool_result (e : Event) : bool :=
  match e with
  | CompletionsCreate messages => existsb is_tool_result messages
  | _ => false
  end.

(** A search for a given query. *)
Definition is_search_for (searchQuery : string) (e : Event) : bool :=
  match e with
  | TavilySearch (Some (JStr s)) => String.eqb s searchQuery
  | _ => false
  end.

(** How many final publishes, how many calls of the SMS gateway. *)
Definition final_publishes (t : list Event) : nat := List.length (filter is_final t).
Definition alerts_sent (t : list Event) : nat := List.length (filter is_alert t).

(** The alert calls among the tool calls of the streams that the
    requests of a trace were answered with and that ended normally. *)
Definition alerts_requested (w : World) (t : list Event) : nat :=
  list_sum
    (map (fun e =>
            match e with
            | CompletionsCreate messages =>
                match completions_create w messages with
                | Streams chunks true => alert_calls (stream_tool_calls chunks)
                | _ => O
                end
            | _ => O
            end) t).




(** The error path: the trace ends with the error state and then the
    final publish of the fallback; no clear event is sent. *)
Definition error_path (t : list Event) : Prop :=
  exists before,
    t = (before ++ [IndicatorUpdate "AI_STATE_ERROR";
                    PartialUpdateMessage Final FALLBACK])%list
    /\ existsb is_clear t = false.

End Traces.

(* ================================================================== *)
(** * The incremental envelope decoder of the client
      ([extractTextFromStreamingJSON]) *)
(* ================================================================== *)

Module Client.

(** [s] without the prefix [p], when it starts with it. *)
Fixpoint strip (p s : string) : option string :=
  match p, s with
  | EmptyString, _ => Some s
  | String a p', String b s' => if Ascii.eqb a b then strip p' s' else None
  | String _ _, EmptyString => None
  end.

(** [\s*], which is greedy and is followed in both expressions by a
    character that is no white space. *)
Definition skip_spaces (s : string) : string := Js.trimStart s.

(** The dot of a regular expression matches every character but a line
    terminator. *)
Definition is_line_terminator (c : ascii) : bool :=
  let n := nat_of_ascii c in ((n =? 10) || (n =? 13))%nat.

(** The group of the text expression and its closing quote, from the
    start of [s]: a run of items, each a character that is neither a
    quote nor a backslash, or a backslash with the character after it
    (any that the dot matches), and then a quote.  The two alternatives
    and the closing quote exclude each other on the next character, so
    the match, when there is one, is found without backtracking: it ends
    at the first quote that no backslash escapes. *)
Fixpoint text_group (s : string) : option string :=
  match s with
  | EmptyString => None
  | String c rest =>
      if Ascii.eqb c Js.dquote then Some EmptyString
      else if Ascii.eqb c Js.backslash then
        match rest with
        | EmptyString => None
        | String d rest' =>
            if is_line_terminator d then None
            else option_map (fun g => String c (String d g)) (text_group rest')
        end
      else option_map (String c) (text_group rest)
  end.

(** The group of the lang expression and its closing quote: everything
    up to the next quote. *)
Fixpoint lang_group (s : string) : option string :=
  match s with
  | EmptyString => None
  | String c rest =>
      if Ascii.eqb c Js.dquote then Some EmptyString
      else option_map (String c) (lang_group rest)
  end.

(** A match that starts at the start of [s]: the quoted key, white
    space, a colon, white space, an opening quote, the group and its
    closing quote. *)
Definition field_at (key : string) (group : string -> option string) (s : string)
  : option string :=
  match strip (Js.q ++ key ++ Js.q) s with
  | None => None
  | Some after_key =>
      match strip ":" (skip_spaces after_key) with
      | None => None
      | Some after_colon =>
          match strip Js.q (skip_spaces after_colon) with
          | None => None
          | Some inside => group inside
          end
      end
  end.

(** [rawText.match(re)] for an expression without the global flag: the
    group of the leftmost match. *)
Fixpoint field_match (key : string) (group : string -> option string) (s : string)
  : option string :=
  match field_at key group s with
  | Some g => Some g
  | None =>
      match s with
      | EmptyString => None
      | String _ s' => field_match key group s'
      end
  end.

Definition textMatch : string -> option string := field_match "text" text_group.
Definition langMatch : string -> option string := field_match "lang" lang_group.

(** [s.replace(/ab/g, rep)] for a pattern of two characters. *)
Fixpoint replace2 (a b : ascii) (rep : string) (s : string) : string :=
  match s with
  | String c (String d rest as tail) =>
      if Ascii.eqb c a && Ascii.eqb d b then rep ++ replace2 a b rep rest
      else String c (replace2 a b rep tail)
  | other => other
  end.

(** The four replacements, in the order of the source. *)
Definition unescape (s : string) : string :=
  replace2 Js.backslash Js.backslash (String Js.backslash EmptyString)
    (replace2 Js.backslash Js.dquote Js.q
       (replace2 Js.backslash "t" (String Js.tab EmptyString)
          (replace2 Js.backslash "n" Js.nl s))).

Section Decoder.
Context {RT : JsRuntime}.

(** The result [{ text, lang, isComplete }]; [lang: null] is [JNull].
    On the parse path [text] and [lang] are whatever the payload holds. *)
Record Extracted : Type := {
  text : value;
  lang : value;
  isComplete : bool
}.

(** The [try] block: the result it returns, if it returns. *)
Definition parsed_result (rawText : string) : option Extracted :=
  match JSON_parse rawText with
  | None => None
  | Some parsed =>
      match get parsed "text" with
      | Returned (Some t) =>
          Some {| text := t;
                  lang := match get_opt (Some parsed) "lang" with
                          | Some l => if js_truthy l then l else JNull
                          | None => JNull
                          end;
                  isComplete := true |}
      | _ => None
      end
  end.

Definition extractTextFromStreamingJSON (rawText : string) : Extracted :=
  if negb (Js.truthy rawText)
  then {| text := JStr EmptyString; lang := JNull; isComplete := false |}
  else
    match parsed_result rawText with
    | Some r => r
    | None =>
        match textMatch rawText with
        | Some group =>
            {| text := JStr (unescape group);
               lang := match langMatch rawText with
                       | Some l => JStr l
                       | None => JNull
                       end;
               isComplete := false |}
        | None =>
            if Js.startsWith (Js.trim rawText) "{"
            then {| text := JStr EmptyString; lang := JNull; isComplete := false |}
            else {| text := JStr rawText; lang := JNull; isComplete := true |}
        end
    end.

End Decoder.

(** A hexadecimal digit, in lower case. *)
Definition hex_digit (n : nat) : ascii :=
  nth n (list_ascii_of_string "0123456789abcdef") "0"%char.

(** What [JSON.stringify] writes for one character of a string: a
    backslash before a quote and before a backslash; the short forms
    [\b], [\t], [\n], [\f] and [\r] for the five control characters
    that have one; [\u00XX] for every other character below the space;
    the character itself otherwise. *)
Definition escape_char (c : ascii) : string :=
  if Ascii.eqb c Js.dquote then String Js.backslash Js.q
  else if Ascii.eqb c Js.backslash then String Js.backslash (String Js.backslash EmptyString)
  else if Ascii.eqb c Js.newline then String Js.backslash "n"
  else if Ascii.eqb c Js.tab then String Js.backslash "t"
  else if Ascii.eqb c (ascii_of_nat 13) then String Js.backslash "r"
  else if Ascii.eqb c (ascii_of_nat 8) then String Js.backslash "b"
  else if Ascii.eqb c (ascii_of_nat 12) then String Js.backslash "f"
  else if (nat_of_ascii c <? 32)%nat then
    String Js.backslash
      (String "u" (String "0" (String "0"
         (String (hex_digit (nat_of_ascii c / 16))
            (String (hex_digit (nat_of_ascii c mod 16)) EmptyString)))))
  else String c EmptyString.

(** The characters of the JSON string literal that [JSON.stringify]
    writes for [s], between its quotes.  (JSON allows more escapes than
    these, a solidus or any character by its code; this is the literal
    with the fewest.) *)
Fixpoint escape (s : string) : string :=
  match s with
  | EmptyString => EmptyString
  | String c rest => escape_char c ++ escape rest
  end.

(** The texts whose literal the four replacements of the decoder turn
    back into the text: no backslash, and no control character other
    than the line feed and the tab. *)
Definition restorable_char (c : ascii) : bool :=
  negb (Ascii.eqb c Js.backslash)
  && ((32 <=? nat_of_ascii c)%nat || Ascii.eqb c Js.newline || Ascii.eqb c Js.tab).

Fixpoint restorable (s : string) : bool :=
  match s with
  | EmptyString => true
  | String c rest => restorable_char c && restorable rest
  end.

(** Neither a quote nor a backslash occurs in [s]. *)
Fixpoint literal (s : string) : bool :=
  match s with
  | EmptyString => true
  | String c rest =>
      negb (Ascii.eqb c Js.dquote) && negb (Ascii.eqb c Js.backslash) && literal rest
  end.

(** No quote occurs in [s]. *)
Fixpoint quote_free (s : string) : bool :=
  match s with
  | EmptyString => true
  | String c rest => negb (Ascii.eqb c Js.dquote) && quote_free rest
  end.

(** The inside of a string literal that is still open: read by the
    rules of JSON (a backslash takes the next character with it), [s]
    ends before any closing quote; it may end right after a backslash. *)
Fixpoint open_body (s : string) : bool :=
  match s with
  | EmptyString => true
  | String c rest =>
      if Ascii.eqb c Js.dquote then false
      else if Ascii.eqb c Js.backslash then
        match rest with
        | EmptyString => true
        | String d rest' => negb (is_line_terminator d) && open_body rest'
        end
      else open_body rest
  end.

(** A response envelope (an object with the fields lang and text, in
    the layout the prompt asks for) cut while its text is being streamed: everything up to and including the
    opening quote of the text, followed by [body]. *)
Definition fragment_of (lang body : string) : string :=
  "{" ++ Js.q ++ "lang" ++ Js.q ++ ": " ++ Js.q ++ lang ++ Js.q ++ ", "
  ++ Js.q ++ "text" ++ Js.q ++ ": " ++ Js.q ++ body.

End Client.

(* ================================================================== *)
(** * The history of the agent without retrieval
      ([GroqAiAgent.ts], [getConversationHistory]) *)
(* ================================================================== *)

Module GroqAgent.

Definition MAX_CONTEXT_LENGTH : Z := 6000.

Section History.
Context {RT : JsRuntime}.

(** The loop [for (const msg of messages)] over the reversed copy of
    [response.messages].  A message is decoded and passed over by the
    statements that [rag.ts] has too ([scan_message]); the budget counts
    the characters of the contents, nothing is exempt from it, and
    [history.push] appends. *)
Fixpoint scan (messages : list Message) (history : list Turn) (totalLength : Z)
  : Outcome (list Turn) :=
  match messages with
  | [] => Returned history
  | msg :: rest =>
      match scan_message msg with
      | Skipped => scan rest history totalLength
      | Raised => Thrown "TypeError: messageText.trim is not a function"
      | Entry t _ =>
          if totalLength + Js.len (content t) >? MAX_CONTEXT_LENGTH
          then Returned history
          else scan rest (history ++ [t])%list (totalLength + Js.len (content t))
      end
  end.

Definition getConversationHistory (channel_query : ChannelReply) : list Turn :=
  match channel_query with
  | ChannelThrows => []
  | ChannelOk None => []
  | ChannelOk (Some []) => []
  | ChannelOk (Some messages) =>
      match scan (rev messages) [] 0 with
      | Returned history => history
      | _ => []
      end
  end.

(** The characters of the contents of a history. *)
Definition content_length (h : list Turn) : Z :=
  fold_right (fun t acc => Js.len (content t) + acc) 0 h.

End History.

End GroqAgent.

(* ================================================================== *)
(** * The language and the voice of a message
      ([chat-message.tsx]: [LANGUAGE_MAP], [detectLanguageFallback],
      [messageContent], [getVoiceForLanguage]) *)
(* ================================================================== *)

Module Speech.

(** From the codes of the language detector to the tags of the speech
    synthesis. *)
Definition LANGUAGE_MAP : list (string * string) :=
  [("eng", "en-US"); ("tam", "ta-IN"); ("hin", "hi-IN"); ("spa", "es-ES");
   ("fra", "fr-FR"); ("deu", "de-DE"); ("ita", "it-IT"); ("por", "pt-PT");
   ("rus", "ru-RU"); ("jpn", "ja-JP"); ("kor", "ko-KR"); ("cmn", "zh-CN");
   ("ara", "ar-SA"); ("ben", "bn-IN"); ("tel", "te-IN"); ("mar", "mr-IN");
   ("mal", "ml-IN"); ("kan", "kn-IN"); ("guj", "gu-IN")].

(** [LANGUAGE_MAP] is an object literal: a read of it with a key that is
    none of its own finds what every object inherits, and that is a
    function or an object, not a string. *)
Definition OBJECT_PROTOTYPE : list string :=
  ["constructor"; "__defineGetter__"; "__defineSetter__"; "hasOwnProperty";
   "__lookupGetter__"; "__lookupSetter__"; "isPrototypeOf"; "propertyIsEnumerable";
   "toString"; "valueOf"; "__proto__"; "toLocaleString"].

Inductive Looked : Type :=
| Own (tag : string)
| Inherited
| Absent.

Fixpoint own (key : string) (entries : list (string * string)) : option string :=
  match entries with
  | [] => None
  | (k, tag) :: rest => if String.eqb k key then Some tag else own key rest
  end.

(** [LANGUAGE_MAP[key]]. *)
Definition lookup (key : string) : Looked :=
  match own key LANGUAGE_MAP with
  | Some tag => Own tag
  | None => if existsb (String.eqb key) OBJECT_PROTOTYPE then Inherited else Absent
  end.

(** What the code takes for a language tag: a string, or (through an
    inherited property) a value that is none. *)
Inductive Language : Type :=
| Tag (code : string)
| NotAString.

(** [LANGUAGE_MAP[key] || fallback]. *)
Definition mapped_or (key fallback : string) : Language :=
  match lookup key with
  | Own tag => if Js.truthy tag then Tag tag else Tag fallback
  | Inherited => NotAString
  | Absent => Tag fallback
  end.

(** The characters of the first replacement of [detectLanguageFallback]:
    the marks of the markup. *)
Definition is_mark (c : ascii) : bool :=
  existsb (Ascii.eqb c) (list_ascii_of_string "#*`~_[](){}").

Fixpoint remove_marks (s : string) : string :=
  match s with
  | EmptyString => EmptyString
  | String c rest => if is_mark c then remove_marks rest else String c (remove_marks rest)
  end.

(** The second replacement: every run of line feeds becomes one space;
    [in_run] says that the character before was a line feed. *)
Fixpoint collapse_newlines (in_run : bool) (s : string) : string :=
  match s with
  | EmptyString => EmptyString
  | String c rest =>
      if Ascii.eqb c Js.newline
      then if in_run then collapse_newlines true rest
           else String " " (collapse_newlines true rest)
      else String c (collapse_newlines false rest)
  end.

Definition clean (text : string) : string :=
  Js.trim (collapse_newlines false (remove_marks text)).

(** [language.split("-")[0]]. *)
Fixpoint before_dash (s : string) : string :=
  match s with
  | EmptyString => EmptyString
  | String c rest => if Ascii.eqb c "-"%char then EmptyString else String c (before_dash rest)
  end.

(** A voice of the speech synthesis, as far as the choice reads it. *)
Record Voice : Type := {
  voice_lang : string;
  voice_name : string
}.

Definition INDIAN : list string := ["hi"; "ta"; "te"; "bn"; "mr"; "ml"; "kn"; "gu"].

(** [a || b] on the results of [find]: a voice is an object and truthy. *)
Definition or_find (a b : option Voice) : option Voice :=
  match a with
  | Some v => Some v
  | None => b
  end.

(** [getVoiceForLanguage], over the list that [getVoices] returned. *)
Definition getVoiceForLanguage (voices : list Voice) (language : string) : option Voice :=
  match voices with
  | [] => None
  | _ =>
      let langPrefix := Js.toLowerCase (before_dash language) in
      let starts (v : Voice) := Js.startsWith (Js.toLowerCase (voice_lang v)) langPrefix in
      let named (word : string) (v : Voice) :=
        Js.includes (Js.toLowerCase (voice_name v)) word in
      let preferred :=
        if existsb (String.eqb langPrefix) INDIAN then
          or_find (find (fun v => starts v && named "google" v) voices)
            (or_find (find (fun v => starts v && named "microsoft" v) voices)
               (find (fun v => starts v && (named "female" v || named "male" v)) voices))
        else None in
      or_find preferred
        (or_find
           (find (fun v => String.eqb (Js.toLowerCase (voice_lang v))
                             (Js.toLowerCase language)) voices)
           (or_find (find starts voices)
              (find (fun v => Js.includes (Js.toLowerCase (voice_lang v)) langPrefix)
                 voices)))
  end.

Section Detection.
Context {RT : JsRuntime}.

(** The language detector of the [franc] package: the code it answers
    with, or [None] when the call throws. *)
Variable franc : string -> option string.

Definition detectLanguageFallback (text : string) : Language :=
  let cleanText := clean text in
  if (Js.len cleanText <? 10)%Z then Tag "en-US"
  else
    match franc cleanText with
    | None => Tag "en-US"
    | Some detectedCode =>
        if String.eqb detectedCode "und" then Tag "en-US"
        else mapped_or detectedCode "en-US"
    end.

(** The value of [messageContent]. *)
Record Content : Type := {
  displayText : value;
  language : Language;
  isComplete : bool
}.

(** The body of the [useMemo] that computes [messageContent]; the
    methods [toLowerCase] and [replace] exist on strings only. *)
Definition messageContent (streamedMessageText message_text : option string)
  : Outcome Content :=
  let rawText := Js.or_else (Js.or_opt streamedMessageText message_text) EmptyString in
  if negb (Js.truthy rawText)
  then Returned {| displayText := JStr EmptyString; language := Tag "en-US";
                   isComplete := false |}
  else
    let extracted := Client.extractTextFromStreamingJSON rawText in
    let result (l : Language) : Outcome Content :=
      Returned {| displayText := Client.text extracted; language := l;
                  isComplete := Client.isComplete extracted |} in
    if js_truthy (Client.lang extracted) then
      match Client.lang extracted with
      | JStr l =>
          let langCode := Js.toLowerCase l in
          if Js.includes langCode "-" then result (Tag l)
          else result (mapped_or langCode l)
      | _ => Thrown "TypeError: extracted.lang.toLowerCase is not a function"
      end
    else if js_truthy (Client.text extracted) then
      match Client.text extracted with
      | JStr t => result (detectLanguageFallback t)
      | _ => Thrown "TypeError: text.replace is not a function"
      end
    else result (Tag "en-US").

End Detection.

(** The tags the map leads to, and the default. *)
Definition SUPPORTED : list string := "en-US" :: map snd LANGUAGE_MAP.

End Speech.

(* ================================================================== *)
(** * Further notions for the statements *)
(* ================================================================== *)

(** The length of the array that a list of deltas leaves: one more than
    the highest index a delta names. *)
Definition extent (tcs : list ToolCallDelta) : nat :=
  fold_right (fun tc n => match tc_index tc with
                          | Some i => Nat.max (S i) n
                          | None => n
                          end) O tcs.

(** A call of one of the two tools the loop knows. *)
Definition is_known_call (c : option ToolCall) : bool :=
  match c with
  | Some call =>
      String.eqb (fn_name call) "tool_search" || String.eqb (fn_name call) "tool_alert"
  | None => false
  end.

(** What ties a tool result to its call: the id and the name. *)
Definition call_key (c : option ToolCall) : option (string * string) :=
  match c with
  | Some call => Some (call_id call, fn_name call)
  | None => None
  end.

Definition result_key (msg : ChatMessage) : option (string * string) :=
  match msg with
  | ToolResult tool_call_id name _ => Some (tool_call_id, name)
  | _ => None
  end.

Section Notions.
Context {RT : JsRuntime}.

(** The requests of a trace, in the order they were made. *)
Definition requests (t : list Event) : list (list ChatMessage) :=
  flat_map (fun e => match e with
                     | CompletionsCreate messages => [messages]
                     | _ => []
                     end) t.

(** An accumulated call that the dispatch loop cannot read: a hole of
    the array, or arguments that are no JSON text. *)
Definition unreadable (c : option ToolCall) : bool :=
  match c with
  | None => true
  | Some call =>
      match JSON_parse (fn_arguments call) with
      | None => true
      | Some _ => false
      end
  end.



End Notions.

(* ================================================================== *)
(** * A runtime and worlds to run the model on *)
(* ================================================================== *)

Module Scenario.

(** A reader for the JSON texts of the examples: objects, arrays,
    strings with the one-letter escapes, integers and the three
    literals.  It is one instance of [JSON_parse]; the properties below
    are proved for every instance. *)
Definition is_digit (c : ascii) : bool :=
  let n := nat_of_ascii c in ((48 <=? n) && (n <=? 57))%nat.

Fixpoint read_digits (s : string) (acc : Z) : Z * string :=
  match s with
  | String c rest =>
      if is_digit c then read_digits rest (10 * acc + Z.of_nat (nat_of_ascii c - 48))
      else (acc, s)
  | EmptyString => (acc, s)
  end.

Definition read_integer (s : string) : option (Z * string) :=
  match s with
  | String "-" (String c _ as digits) =>
      if is_digit c then let (z, rest) := read_digits digits 0 in Some (- z, rest) else None
  | String c _ =>
      if is_digit c then Some (read_digits s 0) else None
  | EmptyString => None
  end.

(** The characters of a string literal after its opening quote. *)
Fixpoint read_string (s : string) : option (string * string) :=
  match s with
  | EmptyString => None
  | String c rest =>
      if Ascii.eqb c Js.dquote then Some (EmptyString, rest)
      else if Ascii.eqb c Js.backslash then
        match rest with
        | String d rest' =>
            let unescaped :=
              if Ascii.eqb d "n" then Some Js.newline
              else if Ascii.eqb d "t" then Some Js.tab
              else if Ascii.eqb d Js.dquote then Some Js.dquote
              else if Ascii.eqb d Js.backslash then Some Js.backslash
              else if Ascii.eqb d "/" then Some "/"%char
              else None in
            match unescaped, read_string rest' with
            | Some u, Some (str, after) => Some (String u str, after)
            | _, _ => None
            end
        | EmptyString => None
        end
      else if (nat_of_ascii c <? 32)%nat then None
      else match read_string rest with
           | Some (str, after) => Some (String c str, after)
           | None => None
           end
  end.

Definition ws (s : string) : string := Js.trimStart s.

Fixpoint read_value (fuel : nat) (s : string) : option (json Z * string) :=
  match fuel with
  | O => None
  | S fuel' =>
      match ws s with
      | String "{" rest =>
          match ws rest with
          | String "}" after => Some (JObj [], after)
          | members => read_members fuel' members []
          end
      | String "[" rest =>
          match ws rest with
          | String "]" after => Some (JArr [], after)
          | items => read_items fuel' items []
          end
      | String c rest as lexeme =>
          if Ascii.eqb c Js.dquote then
            match read_string rest with
            | Some (str, after) => Some (JStr str, after)
            | None => None
            end
          else
            match Client.strip "null" lexeme, Client.strip "true" lexeme,
                  Client.strip "false" lexeme with
            | Some after, _, _ => Some (JNull, after)
            | _, Some after, _ => Some (JBool true, after)
            | _, _, Some after => Some (JBool false, after)
            | _, _, _ =>
                match read_integer lexeme with
                | Some (z, after) => Some (JNum z, after)
                | None => None
                end
            end
      | EmptyString => None
      end
  end
with read_members (fuel : nat) (s : string) (acc : list (string * json Z))
  : option (json Z * string) :=
  match fuel with
  | O => None
  | S fuel' =>
      match ws s with
      | String c rest =>
          if Ascii.eqb c Js.dquote then
            match read_string rest with
            | Some (key, after_key) =>
                match ws after_key with
                | String ":" after_colon =>
                    match read_value fuel' after_colon with
                    | Some (v, after_value) =>
                        match ws after_value with
                        | String "," more => read_members fuel' more ((key, v) :: acc)
                        | String "}" after => Some (JObj ((key, v) :: acc), after)
                        | _ => None
                        end
                    | None => None
                    end
                | _ => None
                end
            | None => None
            end
          else None
      | EmptyString => None
      end
  end
with read_items (fuel : nat) (s : string) (acc : list (json Z))
  : option (json Z * string) :=
  match fuel with
  | O => None
  | S fuel' =>
      match read_value fuel' s with
      | Some (v, after_value) =>
          match ws after_value with
          | String "," more => read_items fuel' more (acc ++ [v])%list
          | String "]" after => Some (JArr (acc ++ [v])%list, after)
          | _ => None
          end
      | None => None
      end
  end.

(** The whole text must be one value; fields are kept last first, so
    that a lookup finds the last of two fields with one key. *)
Definition parse (s : string) : option (json Z) :=
  match read_value (S (String.length s)) s with
  | Some (v, rest) =>
      match ws rest with
      | EmptyString => Some v
      | _ => None
      end
  | None => None
  end.

(** Numbers that are integers. *)
Instance Integers : JsRuntime := {|
  number := Z;
  number_truthy := fun z => negb (Z.eqb z 0);
  number_toString := Js.of_Z;
  JSON_parse := parse
|}.

Definition arguments_of (key val : string) : string :=
  "{" ++ Js.q ++ key ++ Js.q ++ ":" ++ Js.q ++ val ++ Js.q ++ "}".

(** A world in which nothing is retrieved, the history is empty, the
    geocoder knows one place and the gateways work; the provider is set
    per scenario. *)
Definition world (provider : list ChatMessage -> StreamReply) : World := {|
  hf_embed := fun _ => FetchNotOk;
  pinecone_query := fun _ => Retrieval.QueryOk None;
  channel_query := ChannelOk None;
  nominatim := fun _ _ =>
    FetchOk (Some {| suburb := Some "Koramangala"; neighbourhood := None;
                     city := Some "Bengaluru"; town := None; village := None;
                     state := None; country := None |});
  completions_create := provider;
  tavily_search := fun _ => TavilyOk None;
  twilio_create := fun _ _ => true;
  EMERGENCY_CONTACT_NUMBER := None;
  TWILIO_PHONE_NUMBER := "+15550100";
  clock_start := 0;
  currentDate := "November 2, 2026";
  currentTime := "09:56 AM";
  now_iso := "2026-11-02T09:56:00.000Z"
|}.

Definition says (now : Z) (piece : string) : Chunk :=
  {| c_now := now; c_content := Some piece; c_tool_calls := None |}.

Definition calls (now : Z) (tcs : list ToolCallDelta) : Chunk :=
  {| c_now := now; c_content := None; c_tool_calls := Some tcs |}.

Definition delta (i : nat) (name arguments : option string) : ToolCallDelta :=
  {| tc_index := Some i; tc_id := None; tc_name := name; tc_arguments := arguments |}.

Definition ANSWER : string :=
  "{" ++ Js.q ++ "lang" ++ Js.q ++ ": " ++ Js.q ++ "en-US" ++ Js.q ++ ", "
  ++ Js.q ++ "text" ++ Js.q ++ ": " ++ Js.q ++ "Rest and drink water." ++ Js.q ++ "}".

(** The stream of a plain answer, in two pieces more than a second
    apart. *)
Definition answer_stream : StreamReply :=
  Streams [says 400 "{"; says 1700 (substring 1 (String.length ANSWER) ANSWER)] true.

(** A provider that asks for tools on the first request of a turn (the
    system prompt and the user message) and answers on every later one. *)
Definition tools_then_answer (tool_round : StreamReply) (messages : list ChatMessage)
  : StreamReply :=
  if (List.length messages <? 3)%nat then tool_round else answer_stream.

Definition answering : World := world (fun _ => answer_stream).

Definition failing : World := world (fun _ => CreateThrows).


(** One call of the alert tool that arrives in four deltas. *)
Definition alerting_in_pieces : World :=
  world (tools_then_answer
           (Streams [calls 300 [delta 0 (Some "tool_") None];
                     calls 320 [delta 0 (Some "alert") (Some "{")];
                     calls 340 [delta 0 None (Some (Js.q ++ "reason" ++ Js.q ++ ":"))];
                     calls 360 [delta 0 None (Some (Js.q ++ "self-harm" ++ Js.q ++ "}"))]]
                    true)).

Definition searching : World :=
  world (tools_then_answer
           (Streams [calls 300 [delta 0 (Some "tool_search")
                                  (Some (arguments_of "query" "hospital near me"))]]
                    true)).

(** A call of a tool that is not declared. *)
Definition calling_unknown : World :=
  world (tools_then_answer
           (Streams [calls 300 [delta 0 (Some "tool_weather")
                                  (Some (arguments_of "city" "Bengaluru"))]]
                    true)).

Definition unknown_call : ToolCall :=
  {| call_id := "call_300_0"; fn_name := "tool_weather";
     fn_arguments := arguments_of "city" "Bengaluru" |}.

(** A match of the vector store with the score 0. *)
Definition zero_scored_score : Q := 0.

Definition zero_scored : Match :=
  {| score := Some zero_scored_score;
     metadata := Some {| md_text := Some "Take two tablets."; md_content := None;
                         md_source := Some "leaflet" |} |}.

Definition user_says (raw : string) : Message :=
  {| msg_text := Some raw; msg_ai_generated := false |}.

Definition agent_says (raw : string) : Message :=
  {| msg_text := Some raw; msg_ai_generated := true |}.

(** A channel, oldest message first. *)
Definition channel_messages : list Message :=
  [user_says "I have had a headache since this morning";
   agent_says ANSWER;
   user_says "   ";
   user_says "Can I take paracetamol?";
   agent_says "Yes, if you are not allergic to it."].

(** The gateway refuses every message. *)
Definition gateway_down : World := {|
  hf_embed := hf_embed answering;
  pinecone_query := pinecone_query answering;
  channel_query := channel_query answering;
  nominatim := nominatim answering;
  completions_create := completions_create alerting_in_pieces;
  tavily_search := tavily_search answering;
  twilio_create := fun _ _ => false;
  EMERGENCY_CONTACT_NUMBER := Some "+15550111";
  TWILIO_PHONE_NUMBER := TWILIO_PHONE_NUMBER answering;
  clock_start := clock_start answering;
  currentDate := currentDate answering;
  currentTime := currentTime answering;
  now_iso := now_iso answering
|}.

Definition alert_call : ToolCall :=
  {| call_id := "call_300_0"; fn_name := "tool_alert";
     fn_arguments := arguments_of "reason" "self-harm" |}.

Definition search_call : ToolCall :=
  {| call_id := "call_300_0"; fn_name := "tool_search";
     fn_arguments := arguments_of "query" "hospital near me" |}.

(** The payload of a user message: its text alone, or with a place. *)
Definition envelope (text : string) : string := arguments_of "text" text.

Definition located_envelope (text : string) (lat long : Z) : string :=
  "{" ++ Js.q ++ "text" ++ Js.q ++ ":" ++ Js.q ++ text ++ Js.q ++ ","
  ++ Js.q ++ "location" ++ Js.q ++ ":{" ++ Js.q ++ "lat" ++ Js.q ++ ":" ++ Js.of_Z lat
  ++ "," ++ Js.q ++ "long" ++ Js.q ++ ":" ++ Js.of_Z long ++ "}}".

Definition inbound (raw : string) : InboundEvent :=
  {| ev_message := Some (user_says raw) |}.

(** A text with quotes in it, and its escaped form cut after the
    second word. *)
Definition said : string := "He said " ++ Js.q ++ "hi" ++ Js.q ++ " to me.".

Definition said_cut : string := "He said " ++ String Js.backslash Js.q ++ "hi".

(** The turns of the examples. *)
Definition crisis : InboundEvent := inbound (envelope "I want to end it").

Definition hospital_near_me : InboundEvent :=
  inbound (located_envelope "hospital near me" 12 77).

Definition weather : InboundEvent := inbound (envelope "Will it rain?").

Definition nowhere : Turning :=
  {| message := "hello"; lat := None; long := None; locationName := None |}.

Definition in_bengaluru : Turning :=
  {| message := "hospital near me"; lat := Some 12; long := Some 77;
     locationName := Some "Koramangala, Bengaluru" |}.

(** A match whose content alone passes the budget of the retrieval, and
    a short one. *)
Definition long_match : Match :=
  {| score := None;
     metadata := Some {| md_text := Some (Js.concat (repeat "0123456789" 1300));
                         md_content := None; md_source := None |} |}.

Definition short_match : Match :=
  {| score := None;
     metadata := Some {| md_text := Some "Drink water."; md_content := None;
                         md_source := None |} |}.

(** A provider whose stream names a call at the index 1 and none at the
    index 0. *)
Definition skipping_an_index : list Chunk :=
  [calls 300 [delta 1 (Some "tool_alert") (Some (arguments_of "reason" "self-harm"))]].

Definition always_skipping : World := world (fun _ => Streams skipping_an_index true).

(** Two chunks of tool calls: the call at the index 0 is first named,
    with an id, in the second chunk, and named again with another id. *)
Definition with_id (i : nat) (id : string) : ToolCallDelta :=
  {| tc_index := Some i; tc_id := Some id; tc_name := Some "tool_search";
     tc_arguments := None |}.

Definition first_chunk : Chunk := calls 300 [delta 1 (Some "tool_alert") None].

Definition second_chunk : Chunk :=
  calls 320 [delta 1 None (Some "{}"); with_id 0 "call_a"; with_id 0 "call_b"].

Definition third_chunk : Chunk := calls 340 [with_id 0 "call_c"].

(** A message whose envelope holds a number for its text. *)
Definition numeric_text : Message :=
  user_says ("{" ++ Js.q ++ "text" ++ Js.q ++ ":5}").

(** A search call whose arguments are the empty object. *)
Definition bare_search_call : ToolCall :=
  {| call_id := "call_9"; fn_name := "tool_search"; fn_arguments := "{}" |}.

(** A provider that asks for a tool in every round, whatever it is
    sent: for a tool that is not declared, and for the alert tool. *)
Definition asking_again : list Chunk :=
  [calls 300 [delta 0 (Some "tool_weather") (Some (arguments_of "city" "Bengaluru"))]].




(** The first request of a turn without history. *)
Definition first_messages : list ChatMessage :=
  [Plain "system" "You are a companion."; Plain "user" "Will it rain?"].

(** A language detector that always answers French. *)
Definition always_french (text : string) : option string := Some "fra".

End Scenario.

(* ================================================================== *)
(** * Properties: strings and the token estimate *)
(* ================================================================== *)

Unset Implicit Arguments.

Lemma len_append (a b : string) : Js.len (a ++ b) = Js.len a + Js.len b.
Proof.
  unfold Js.len. induction a as [|c a IH]; simpl String.length.
  - simpl. lia.
  - rewrite !Nat2Z.inj_succ in *. lia.
Qed.

Lemma len_nonneg (s : string) : 0 <= Js.len s.
Proof. unfold Js.len. lia. Qed.

Lemma len_cons (c : ascii) (s : string) : Js.len (String c s) = 1 + Js.len s.
Proof. unfold Js.len. simpl String.length. lia. Qed.

Lemma len_trimStart (s : string) : Js.len (Js.trimStart s) <= Js.len s.
Proof.
  induction s as [|c s IH]; simpl.
  - lia.
  - destruct (Js.is_space c).
    + rewrite len_cons. lia.
    + lia.
Qed.

Lemma len_trimEnd (s : string) : Js.len (Js.trimEnd s) <= Js.len s.
Proof.
  induction s as [|c s IH]; simpl.
  - lia.
  - pose proof (len_nonneg s).
    destruct (Js.trimEnd s) as [|d t] eqn:E.
    + destruct (Js.is_space c); rewrite ?len_cons; change (Js.len EmptyString) with 0; lia.
    + rewrite !len_cons in *. lia.
Qed.

Lemma len_trim (s : string) : Js.len (Js.trim s) <= Js.len s.
Proof.
  unfold Js.trim.
  pose proof (len_trimEnd (Js.trimStart s)). pose proof (len_trimStart s). lia.
Qed.

Lemma prefix_append (n rest : string) : String.prefix n (n ++ rest) = true.
Proof.
  induction n as [|c n IH]; cbn [String.append String.prefix].
  - destruct rest; reflexivity.
  - destruct (ascii_dec c c) as [_|Hne]; [exact IH|contradiction].
Qed.

Lemma includes_at_start (s n : string) : String.prefix n s = true -> Js.includes s n = true.
Proof. intros H. destruct s; cbn [Js.includes]; rewrite H; reflexivity. Qed.

Lemma includes_after (a b n : string) :
  Js.includes b n = true -> Js.includes (a ++ b) n = true.
Proof.
  intros H. induction a as [|c a IH]; cbn [String.append Js.includes].
  - exact H.
  - rewrite IH. destruct (String.prefix n (String c (a ++ b))); reflexivity.
Qed.

(** The estimate is the ceiling of a quarter of the length. *)
Lemma estimateTokens_ceiling (s : string) :
  Js.len s <= 4 * estimateTokens s < Js.len s + 4.
Proof.
  unfold estimateTokens.
  pose proof (Z.div_mod (Js.len s + 3) 4 ltac:(lia)).
  pose proof (Z.mod_pos_bound (Js.len s + 3) 4 ltac:(lia)).
  lia.
Qed.

Lemma estimateTokens_nonneg (s : string) : 0 <= estimateTokens s.
Proof.
  pose proof (estimateTokens_ceiling s). pose proof (len_nonneg s). lia.
Qed.

Lemma estimateTokens_mono (a b : string) :
  Js.len a <= Js.len b -> estimateTokens a <= estimateTokens b.
Proof.
  intros H. unfold estimateTokens. apply Z.div_le_mono; lia.
Qed.

(* ================================================================== *)
(** * Properties: knowledge retrieval and the budget *)
(* ================================================================== *)

Lemma append_empty_r (s : string) : s ++ EmptyString = s.
Proof. induction s; simpl; congruence. Qed.

Lemma append_assoc (a b c : string) : (a ++ b) ++ c = a ++ b ++ c.
Proof. induction a; simpl; congruence. Qed.

(** The loop computes the rendering of the retained matches and the sum
    of their estimates. *)
Lemma collect_retained (matches : list Match) (contextText : string) (currentTokens : Z) :
  Retrieval.collect matches contextText currentTokens
  = (contextText ++ Retrieval.render (Retrieval.retained matches currentTokens),
     currentTokens + Retrieval.tokens_of (Retrieval.retained matches currentTokens)).
Proof.
  revert contextText currentTokens.
  induction matches as [|m rest IH]; intros contextText currentTokens;
    cbn [Retrieval.collect Retrieval.retained].
  - cbn. rewrite append_empty_r. f_equal. lia.
  - destruct (Retrieval.low_relevance m); [apply IH|].
    destruct (negb (Js.truthy (Retrieval.content_of m))); [apply IH|].
    destruct (currentTokens + estimateTokens (Retrieval.snippet_of m) >? PINECONE_TOKEN_LIMIT).
    + cbn. rewrite append_empty_r. f_equal. lia.
    + rewrite IH. unfold Retrieval.render.
      cbn [map Js.concat fold_right Retrieval.tokens_of].
      rewrite !append_assoc. f_equal. unfold Retrieval.tokens_of. lia.
Qed.

(** The sum of the estimates of the retained snippets stays within the
    cap. *)
Lemma retained_within_cap (matches : list Match) (currentTokens : Z) :
  currentTokens <= PINECONE_TOKEN_LIMIT ->
  currentTokens + Retrieval.tokens_of (Retrieval.retained matches currentTokens)
  <= PINECONE_TOKEN_LIMIT.
Proof.
  revert currentTokens.
  induction matches as [|m rest IH]; intros currentTokens Hcap; simpl.
  - lia.
  - destruct (Retrieval.low_relevance m); [now apply IH|].
    destruct (negb (Js.truthy (Retrieval.content_of m))); [now apply IH|].
    destruct (Z.gtb_spec (currentTokens + estimateTokens (Retrieval.snippet_of m))
                PINECONE_TOKEN_LIMIT) as [Hgt|Hle].
    + simpl. lia.
    + simpl. specialize (IH _ Hle). lia.
Qed.

(** A retained match passed the guard of the loop: its score is absent,
    or zero, or at least 0.7. *)
Lemma retained_passed_guard (matches : list Match) (currentTokens : Z) (m : Match) :
  In m (Retrieval.retained matches currentTokens) ->
  Retrieval.low_relevance m = false.
Proof.
  revert currentTokens.
  induction matches as [|m' rest IH]; intros currentTokens; simpl.
  - tauto.
  - destruct (Retrieval.low_relevance m') eqn:Hlow; [apply IH|].
    destruct (negb (Js.truthy (Retrieval.content_of m'))); [apply IH|].
    destruct (_ >? _); simpl.
    + tauto.
    + intros [<-|Hin]; [assumption|eapply IH; eassumption].
Qed.

Lemma snippet_nonempty (m : Match) : 1 <= estimateTokens (Retrieval.snippet_of m).
Proof.
  assert (9 <= Js.len (Retrieval.snippet_of m)) as Hlen.
  { unfold Retrieval.snippet_of. cbn [String.append]. rewrite !len_cons.
    match goal with |- context [Js.len ?rest] => pose proof (len_nonneg rest) end.
    lia. }
  pose proof (estimateTokens_ceiling (Retrieval.snippet_of m)). lia.
Qed.

(** Every snippet costs at least one token, so the text of the loop,
    with its separators, is at most five characters per token long. *)
Lemma render_length (ms : list Match) :
  Js.len (Retrieval.render ms) <= 5 * Retrieval.tokens_of ms.
Proof.
  induction ms as [|m rest IH];
    unfold Retrieval.render, Retrieval.tokens_of, Js.concat in *;
    cbn [map fold_right].
  - change (Js.len EmptyString) with 0. lia.
  - rewrite !len_append. change (Js.len Js.nl) with 1.
    pose proof (estimateTokens_ceiling (Retrieval.snippet_of m)).
    pose proof (snippet_nonempty m). lia.
Qed.

Lemma retrieved_length (hf : string -> Fetched EmbeddingJson)
    (pinecone_query : list Q -> Retrieval.QueryReply) (query : string) :
  Js.len (Retrieval.retrieveFromPinecone hf pinecone_query query) <= 15000.
Proof.
  unfold Retrieval.retrieveFromPinecone.
  destruct (pinecone_query _) as [|[[|m rest]|]]; try (vm_compute; discriminate).
  rewrite collect_retained. cbn [fst].
  etransitivity; [apply len_trim|].
  change (EmptyString ++ ?x) with x.
  etransitivity; [apply render_length|].
  pose proof (retained_within_cap (m :: rest) 0 ltac:(unfold PINECONE_TOKEN_LIMIT; lia)).
  unfold PINECONE_TOKEN_LIMIT in *. lia.
Qed.

(** C6.  The allowance handed to the history assembler in a turn is the
    difference 28000 - 2000 - retrievedTokens - 500, where the retrieved
    tokens are the estimate of the text the knowledge retriever returned,
    and it is never negative: whatever the embedding service and the
    vector store answer, that text estimates to at most 3750 tokens, so
    the difference is at least 21750 and equals its own clamp to zero.
    (The code subtracts and has no clamp of its own; on no turn would one
    act.) *)
Theorem history_allowance_of_a_turn
    (hf : string -> Fetched EmbeddingJson)
    (pinecone_query : list Q -> Retrieval.QueryReply) (query : string) :
  let retrievedTokens :=
    estimateTokens (Retrieval.retrieveFromPinecone hf pinecone_query query) in
  availableForHistory retrievedTokens
  = MAX_TOTAL_TOKENS - SYSTEM_PROMPT_TOKENS - retrievedTokens - CURRENT_MESSAGE_TOKENS
  /\ 21750 <= availableForHistory retrievedTokens
  /\ 0 <= availableForHistory retrievedTokens
  /\ availableForHistory retrievedTokens
     = Z.max 0 (MAX_TOTAL_TOKENS - SYSTEM_PROMPT_TOKENS - retrievedTokens
                - CURRENT_MESSAGE_TOKENS).
Proof.
  intros retrievedTokens.
  pose proof (retrieved_length hf pinecone_query query) as Hlen.
  pose proof (estimateTokens_ceiling
                (Retrieval.retrieveFromPinecone hf pinecone_query query)) as Hceil.
  fold retrievedTokens in Hceil.
  unfold availableForHistory, MAX_TOTAL_TOKENS, SYSTEM_PROMPT_TOKENS, CURRENT_MESSAGE_TOKENS.
  repeat split; lia.
Qed.

(** C4.  A match whose score is 0 is below the relevance floor, and the
    loop keeps it: the guard tests the truthiness of the score before it
    compares, and 0 is falsy.  With the store answering the query by this
    one match, the retriever returns its snippet. *)
Theorem zero_score_is_retained :
  (Scenario.zero_scored_score < 7 # 10)%Q
  /\ score Scenario.zero_scored = Some Scenario.zero_scored_score
  /\ Retrieval.retained [Scenario.zero_scored] 0 = [Scenario.zero_scored]
  /\ Retrieval.retrieveFromPinecone
       (fun _ => FetchThrows)
       (fun _ => Retrieval.QueryOk (Some [Scenario.zero_scored]))
       "how many tablets"
     = "[Source: leaflet]" ++ Js.nl ++ "Take two tablets.".
Proof. repeat split; reflexivity. Qed.

(* ================================================================== *)
(** * Properties: history assembly *)
(* ================================================================== *)

Section HistoryFacts.
Context {RT : JsRuntime}.

Lemma history_tokens_app (a b : list Turn) :
  history_tokens (a ++ b)%list = history_tokens a + history_tokens b.
Proof.
  unfold history_tokens. induction a as [|t a IH]; cbn [app fold_right]; lia.
Qed.

Lemma history_tokens_rev (a : list Turn) : history_tokens (rev a) = history_tokens a.
Proof.
  induction a as [|t a IH]; cbn [rev].
  - reflexivity.
  - rewrite history_tokens_app, IH. unfold history_tokens. cbn [fold_right]. lia.
Qed.

Lemma decodable_app (a b : list Message) :
  decodable (a ++ b)%list = (decodable a ++ decodable b)%list.
Proof.
  induction a as [|m a IH]; cbn [app decodable].
  - reflexivity.
  - destruct (scan_message m); rewrite IH; reflexivity.
Qed.

Lemma decodable_rev (l : list Message) : decodable (rev l) = rev (decodable l).
Proof.
  induction l as [|m l IH]; cbn [rev decodable].
  - reflexivity.
  - rewrite decodable_app, IH. cbn [decodable].
    destruct (scan_message m); cbn [rev app]; rewrite ?app_nil_r; reflexivity.
Qed.

(** The estimate the loop adds for a message is that of the content of
    its turn. *)
Lemma scan_message_tokens (msg : Message) (t : Turn) (msgTokens : Z) :
  scan_message msg = Entry t msgTokens -> msgTokens = turn_tokens t.
Proof.
  unfold scan_message, turn_tokens.
  destruct (msg_text msg) as [raw|]; [|discriminate].
  destruct (negb (Js.truthy raw)); [discriminate|].
  destruct (decode_text raw) as [ |b|n|messageText|items|fields];
    try (match goal with |- context [if ?c then _ else _] => destruct c end; discriminate).
  destruct (negb (Js.truthy messageText)); [discriminate|].
  destruct (String.eqb _ _); [discriminate|].
  intros H. injection H as <- <-. reflexivity.
Qed.

(** What the loop returns, from any state it is entered in: the turns
    it takes are the first of the decodable ones (newest first); it
    stops before a turn only when three are kept and that turn would
    exceed the allowance. *)
Lemma scan_characterised (newest_first : list Message) (maxTokens : Z) :
  (forall msg, In msg newest_first -> scan_message msg <> Raised) ->
  forall (history : list Turn) (totalTokens : Z),
    totalTokens = history_tokens history ->
    exists taken rest,
      decodable newest_first = (taken ++ rest)%list
      /\ scan newest_first maxTokens history totalTokens
         = Returned (rev taken ++ history)%list
      /\ (forall r rest', rest = r :: rest' ->
            (MIN_HISTORY_MESSAGES <= List.length (rev taken ++ history))%nat
            /\ maxTokens < history_tokens (rev taken ++ history)%list + turn_tokens r)
      /\ (Nat.min MIN_HISTORY_MESSAGES
            (List.length history + List.length (decodable newest_first))
          <= List.length (rev taken ++ history))%nat
      /\ (history_tokens history <= maxTokens
           \/ (List.length history <= MIN_HISTORY_MESSAGES)%nat ->
          history_tokens (rev taken ++ history)%list <= maxTokens
          \/ (List.length (rev taken ++ history) <= MIN_HISTORY_MESSAGES)%nat).
Proof.
  induction newest_first as [|msg older IH]; intros Htyped history totalTokens Htotal.
  - exists [], []. cbn [decodable scan rev app List.length].
    refine (conj eq_refl (conj eq_refl (conj _ (conj _ _)))).
    + discriminate.
    + lia.
    + tauto.
  - assert (Holder : forall m, In m older -> scan_message m <> Raised)
      by (intros m Hm; apply Htyped; right; exact Hm).
    specialize (IH Holder).
    assert (Haccept : forall t,
               (history_tokens (t :: history) <= maxTokens
                \/ (List.length (t :: history) <= MIN_HISTORY_MESSAGES)%nat) ->
               exists taken rest,
                 (t :: decodable older) = (taken ++ rest)%list
                 /\ scan older maxTokens (t :: history) (totalTokens + turn_tokens t)
                    = Returned (rev taken ++ history)%list
                 /\ (forall r rest', rest = r :: rest' ->
                       (MIN_HISTORY_MESSAGES <= List.length (rev taken ++ history))%nat
                       /\ maxTokens
                          < history_tokens (rev taken ++ history)%list + turn_tokens r)
                 /\ (Nat.min MIN_HISTORY_MESSAGES
                       (List.length history + List.length (t :: decodable older))
                     <= List.length (rev taken ++ history))%nat
                 /\ (history_tokens history <= maxTokens
                      \/ (List.length history <= MIN_HISTORY_MESSAGES)%nat ->
                     history_tokens (rev taken ++ history)%list <= maxTokens
                     \/ (List.length (rev taken ++ history) <= MIN_HISTORY_MESSAGES)%nat)).
    { intros t Hkept.
      destruct (IH (t :: history) (totalTokens + turn_tokens t)) as
          (taken & rest & Hdec & Hscan & Hstop & Hfloor & Hcap).
      { subst totalTokens. unfold history_tokens. cbn [fold_right]. lia. }
      exists (t :: taken), rest. cbn [rev].
      rewrite <- !app_assoc. cbn [app].
      refine (conj _ (conj Hscan (conj Hstop (conj _ _)))).
      - rewrite Hdec. reflexivity.
      - cbn [List.length] in *. lia.
      - intros _. apply Hcap. exact Hkept. }
    cbn [decodable scan].
    destruct (scan_message msg) as [| |t msgTokens] eqn:Hmsg.
    + apply IH. exact Htotal.
    + exfalso. apply (Htyped msg); [left; reflexivity|exact Hmsg].
    + apply scan_message_tokens in Hmsg. subst msgTokens.
      destruct (Nat.ltb_spec (List.length history) MIN_HISTORY_MESSAGES) as [Hrecent|Hfull];
        cbn [negb andb].
      * apply Haccept. right. cbn [List.length].
        unfold MIN_HISTORY_MESSAGES in *. lia.
      * destruct (Z.gtb_spec (totalTokens + turn_tokens t) maxTokens) as [Hover|Hfits].
        -- exists [], (t :: decodable older). cbn [rev app].
           refine (conj eq_refl (conj eq_refl (conj _ (conj _ _)))).
           ++ intros r rest' H. injection H as <- <-. split; [exact Hfull|].
              subst totalTokens. lia.
           ++ lia.
           ++ tauto.
        -- apply Haccept. left. subst totalTokens.
           unfold history_tokens in *. cbn [fold_right]. lia.
Qed.

(** C5 (as amended).  The kept turns are the most recent of the
    decodable turns, in the order of the channel (oldest first); the
    three most recent ones are kept whatever the allowance is; the sum of
    the estimates is within the allowance or at most three turns are
    kept; and the assembler leaves a turn out only when three are kept
    and that turn would take the sum over the allowance. *)
Theorem history_keeps_recent_within_budget (messages : list Message) (maxTokens : Z) :
  well_typed messages ->
  let kept := getConversationHistory (ChannelOk (Some messages)) maxTokens in
  exists dropped,
    decodable messages = (dropped ++ kept)%list
    /\ (Nat.min MIN_HISTORY_MESSAGES (List.length (decodable messages))
        <= List.length kept)%nat
    /\ (history_tokens kept <= maxTokens
        \/ (List.length kept <= MIN_HISTORY_MESSAGES)%nat)
    /\ (forall older t, dropped = (older ++ [t])%list ->
          (MIN_HISTORY_MESSAGES <= List.length kept)%nat
          /\ maxTokens < history_tokens kept + turn_tokens t).
Proof.
  intros Htyped kept.
  assert (Hrev : forall msg, In msg (rev messages) -> scan_message msg <> Raised)
    by (intros msg Hin; apply Htyped, in_rev, Hin).
  destruct (scan_characterised (rev messages) maxTokens Hrev [] 0 eq_refl)
    as (taken & rest & Hdec & Hscan & Hstop & Hfloor & Hcap).
  rewrite app_nil_r in *.
  assert (Hkept : kept = rev taken).
  { subst kept. unfold getConversationHistory.
    destruct messages as [|m ms] eqn:Hm.
    - cbn in Hdec. destruct taken; [reflexivity|discriminate].
    - rewrite <- Hm in *. rewrite Hscan. reflexivity. }
  rewrite Hkept. clear Hkept kept.
  rewrite decodable_rev in Hdec.
  assert (Hchron : decodable messages = (rev rest ++ rev taken)%list).
  { rewrite <- rev_app_distr, <- Hdec, rev_involutive. reflexivity. }
  exists (rev rest). refine (conj Hchron (conj _ (conj _ _))).
  - rewrite decodable_rev, length_rev in Hfloor. cbn [List.length] in Hfloor. exact Hfloor.
  - apply Hcap. right. cbn. lia.
  - intros older t Hlast.
    apply (Hstop t (rev older)).
    rewrite <- (rev_involutive rest), Hlast, rev_app_distr. reflexivity.
Qed.

End HistoryFacts.

Section HistoryExamples.
Local Existing Instance Scenario.Integers.

(** The amended C5 on a channel of five messages, one of them blank,
    and an allowance of three tokens: the three most recent turns are
    kept. *)
Lemma history_keeps_recent_within_budget_witness :
  well_typed Scenario.channel_messages
  /\ exists dropped,
       decodable Scenario.channel_messages
       = (dropped ++ getConversationHistory (ChannelOk (Some Scenario.channel_messages)) 3)%list
       /\ (Nat.min MIN_HISTORY_MESSAGES (List.length (decodable Scenario.channel_messages))
           <= List.length (getConversationHistory (ChannelOk (Some Scenario.channel_messages)) 3))%nat
       /\ (history_tokens (getConversationHistory (ChannelOk (Some Scenario.channel_messages)) 3) <= 3
           \/ (List.length (getConversationHistory (ChannelOk (Some Scenario.channel_messages)) 3)
               <= MIN_HISTORY_MESSAGES)%nat)
       /\ (forall older t, dropped = (older ++ [t])%list ->
             (MIN_HISTORY_MESSAGES
              <= List.length (getConversationHistory (ChannelOk (Some Scenario.channel_messages)) 3))%nat
             /\ 3 < history_tokens (getConversationHistory (ChannelOk (Some Scenario.channel_messages)) 3)
                    + turn_tokens t).
Proof.
  assert (Htyped : well_typed Scenario.channel_messages).
  { intros msg [<-|[<-|[<-|[<-|[<-|[]]]]]]; vm_compute; discriminate. }
  split; [exact Htyped|].
  exact (history_keeps_recent_within_budget Scenario.channel_messages 3 Htyped).
Defined.

(** C5 (as stated) fails: with one message in the channel and an
    allowance of one token, the message is kept (it is among the three
    most recent), so the sum exceeds the allowance while fewer than three
    turns are kept. *)
Lemma short_history_exceeds_allowance :
  let kept := getConversationHistory (ChannelOk (Some [Scenario.user_says "hello there"])) 1 in
  kept = [{| role := "user"; content := "hello there" |}]
  /\ ~ (history_tokens kept <= 1 \/ List.length kept = MIN_HISTORY_MESSAGES).
Proof.
  vm_compute. split; [reflexivity|]. intros [H|H]; [apply H; reflexivity|discriminate].
Qed.

End HistoryExamples.

(* ================================================================== *)
(** * Properties: the accumulator of tool-call deltas *)
(* ================================================================== *)

Lemma slot_nil (i : nat) : slot [] i = None.
Proof. destruct i; reflexivity. Qed.

Lemma slot_store_same (toolCalls : ToolCalls) (i : nat) (v : ToolCall) :
  slot (store toolCalls i v) i = Some v.
Proof.
  revert toolCalls. induction i as [|i IH]; intros [|x rest]; cbn [store slot nth];
    try reflexivity; apply IH.
Qed.

Lemma slot_store_other (toolCalls : ToolCalls) (i j : nat) (v : ToolCall) :
  i <> j -> slot (store toolCalls i v) j = slot toolCalls j.
Proof.
  unfold slot. revert toolCalls j.
  induction i as [|i IH]; intros [|x rest] [|j] Hne; cbn [store nth];
    try reflexivity; try congruence.
  - destruct j; reflexivity.
  - rewrite IH by congruence. destruct j; reflexivity.
  - apply IH. congruence.
Qed.

Lemma assembled_store_same (toolCalls : ToolCalls) (i : nat) (v : ToolCall) :
  assembled (store toolCalls i v) i = Some (fn_name v, fn_arguments v).
Proof. unfold assembled. rewrite slot_store_same. reflexivity. Qed.

Lemma assembled_store_other (toolCalls : ToolCalls) (i j : nat) (v : ToolCall) :
  i <> j -> assembled (store toolCalls i v) j = assembled toolCalls j.
Proof. intros H. unfold assembled. rewrite slot_store_other by exact H. reflexivity. Qed.

Lemma assembled_amend_same (toolCalls : ToolCalls) (i : nat) (f : ToolCall -> ToolCall) :
  assembled (amend toolCalls i f) i
  = match slot toolCalls i with
    | Some c => Some (fn_name (f c), fn_arguments (f c))
    | None => None
    end.
Proof.
  unfold amend. destruct (slot toolCalls i) as [c|] eqn:E.
  - apply assembled_store_same.
  - unfold assembled. rewrite E. reflexivity.
Qed.

Lemma assembled_amend_other (toolCalls : ToolCalls) (i j : nat) (f : ToolCall -> ToolCall) :
  i <> j -> assembled (amend toolCalls i f) j = assembled toolCalls j.
Proof.
  intros H. unfold amend. destruct (slot toolCalls i); [|reflexivity].
  apply assembled_store_other, H.
Qed.

Lemma slot_amend_same (toolCalls : ToolCalls) (i : nat) (f : ToolCall -> ToolCall) :
  slot (amend toolCalls i f) i = option_map f (slot toolCalls i).
Proof.
  unfold amend. destruct (slot toolCalls i) as [c|] eqn:E; cbn [option_map].
  - apply slot_store_same.
  - exact E.
Qed.

Lemma not_truthy_empty (s : string) : Js.truthy s = false -> s = EmptyString.
Proof. destruct s; [reflexivity|discriminate]. Qed.

(** One delta: at its own index it appends its fragments (to empty
    strings when the call is new); every other index is left alone. *)
Lemma assembled_merge_delta (now : Z) (toolCalls : ToolCalls) (tc : ToolCallDelta) (i : nat) :
  assembled (merge_delta now toolCalls tc) i
  = if at_index i tc
    then extended (assembled toolCalls i) true
           (fragment (tc_name tc)) (fragment (tc_arguments tc))
    else assembled toolCalls i.
Proof.
  unfold merge_delta, at_index.
  destruct (tc_index tc) as [index|]; [|reflexivity].
  destruct (Nat.eqb_spec i index) as [->|Hne].
  - set (created := match slot toolCalls index with
                    | Some _ => toolCalls
                    | None => store toolCalls index _
                    end).
    assert (Hcreated : exists c, slot created index = Some c
                                 /\ extended (assembled toolCalls index) true
                                      (fragment (tc_name tc)) (fragment (tc_arguments tc))
                                    = Some (fn_name c ++ fragment (tc_name tc),
                                            fn_arguments c ++ fragment (tc_arguments tc))).
    { subst created. unfold assembled.
      destruct (slot toolCalls index) as [c|] eqn:E.
      - exists c. rewrite E. split; reflexivity.
      - eexists. rewrite slot_store_same. split; reflexivity. }
    destruct Hcreated as (c & Hslot & ->).
    set (named := match tc_name tc with
                  | Some frag => if Js.truthy frag then amend created index (append_name frag)
                                 else created
                  | None => created
                  end).
    assert (Hnamed : exists c', slot named index = Some c'
                                /\ fn_name c' = fn_name c ++ fragment (tc_name tc)
                                /\ fn_arguments c' = fn_arguments c).
    { subst named. destruct (tc_name tc) as [frag|]; cbn [fragment].
      - destruct (Js.truthy frag) eqn:T.
        + exists (append_name frag c). rewrite slot_amend_same, Hslot. repeat split.
        + exists c. rewrite (not_truthy_empty _ T), append_empty_r. repeat split. exact Hslot.
      - exists c. rewrite append_empty_r. repeat split. exact Hslot. }
    destruct Hnamed as (c' & Hslot' & Hn & Ha).
    rewrite <- Hn, <- Ha.
    destruct (tc_arguments tc) as [frag|]; cbn [fragment].
    + destruct (Js.truthy frag) eqn:T.
      * rewrite assembled_amend_same, Hslot'. reflexivity.
      * unfold assembled. rewrite Hslot', (not_truthy_empty _ T), append_empty_r. reflexivity.
    + unfold assembled. rewrite Hslot', append_empty_r. reflexivity.
  - assert (Hne' : index <> i) by congruence.
    assert (Hcreated : forall v,
               assembled (match slot toolCalls index with
                          | Some _ => toolCalls
                          | None => store toolCalls index v
                          end) i = assembled toolCalls i).
    { intros v. destruct (slot toolCalls index); [reflexivity|].
      apply assembled_store_other, Hne'. }
    repeat match goal with
           | |- context [match ?o with Some _ => _ | None => _ end] =>
               match o with
               | tc_name tc => destruct o
               | tc_arguments tc => destruct o
               end
           | |- context [if Js.truthy ?f then _ else _] => destruct (Js.truthy f)
           end;
      rewrite ?assembled_amend_other by exact Hne'; apply Hcreated.
Qed.

Lemma extended_twice (before : option (string * string)) (p1 p2 : bool)
    (n1 a1 n2 a2 : string) :
  (p1 = false -> n1 = EmptyString /\ a1 = EmptyString) ->
  extended (extended before p1 n1 a1) p2 n2 a2
  = extended before (p1 || p2) (n1 ++ n2) (a1 ++ a2).
Proof.
  intros Hempty.
  destruct before as [[n a]|]; cbn [extended].
  - rewrite !append_assoc. reflexivity.
  - destruct p1; cbn [extended orb]; [reflexivity|].
    destruct (Hempty eq_refl) as [-> ->]. reflexivity.
Qed.

Lemma name_fragments_cons (i : nat) (tc : ToolCallDelta) (tcs : list ToolCallDelta) :
  name_fragments i (tc :: tcs)
  = (if at_index i tc then fragment (tc_name tc) else EmptyString) ++ name_fragments i tcs.
Proof.
  unfold name_fragments. cbn [filter]. destruct (at_index i tc); reflexivity.
Qed.

Lemma arguments_fragments_cons (i : nat) (tc : ToolCallDelta) (tcs : list ToolCallDelta) :
  arguments_fragments i (tc :: tcs)
  = (if at_index i tc then fragment (tc_arguments tc) else EmptyString)
    ++ arguments_fragments i tcs.
Proof.
  unfold arguments_fragments. cbn [filter]. destruct (at_index i tc); reflexivity.
Qed.

Lemma name_fragments_app (i : nat) (a b : list ToolCallDelta) :
  name_fragments i (a ++ b)%list = name_fragments i a ++ name_fragments i b.
Proof.
  induction a as [|tc a IH]; cbn [app].
  - reflexivity.
  - rewrite !name_fragments_cons, IH, append_assoc. reflexivity.
Qed.

Lemma arguments_fragments_app (i : nat) (a b : list ToolCallDelta) :
  arguments_fragments i (a ++ b)%list
  = arguments_fragments i a ++ arguments_fragments i b.
Proof.
  induction a as [|tc a IH]; cbn [app].
  - reflexivity.
  - rewrite !arguments_fragments_cons, IH, append_assoc. reflexivity.
Qed.

Lemma extended_nothing (before : option (string * string)) :
  extended before false EmptyString EmptyString = before.
Proof.
  destruct before as [[n a]|]; cbn [extended]; [|reflexivity].
  rewrite !append_empty_r. reflexivity.
Qed.

(** The deltas of one chunk: each index gets the concatenation of its
    own fragments, in order of arrival. *)
Lemma assembled_merge_deltas (now : Z) (tcs : list ToolCallDelta) (toolCalls : ToolCalls)
    (i : nat) :
  assembled (merge_deltas now toolCalls tcs) i
  = extended (assembled toolCalls i) (existsb (at_index i) tcs)
      (name_fragments i tcs) (arguments_fragments i tcs).
Proof.
  unfold merge_deltas. revert toolCalls.
  induction tcs as [|tc tcs IH]; intros toolCalls; cbn [fold_left existsb].
  - symmetry. apply extended_nothing.
  - rewrite IH, assembled_merge_delta, name_fragments_cons, arguments_fragments_cons.
    destruct (at_index i tc); cbn [orb].
    + rewrite extended_twice by discriminate. reflexivity.
    + reflexivity.
Qed.

Lemma no_fragments (i : nat) (tcs : list ToolCallDelta) :
  existsb (at_index i) tcs = false ->
  name_fragments i tcs = EmptyString /\ arguments_fragments i tcs = EmptyString.
Proof.
  induction tcs as [|tc tcs IH]; intros E; [split; reflexivity|].
  cbn [existsb] in E. apply orb_false_iff in E as [E1 E2].
  rewrite name_fragments_cons, arguments_fragments_cons, E1.
  apply IH, E2.
Qed.

Lemma assembled_stream (chunks : list Chunk) (toolCalls : ToolCalls) (i : nat) :
  assembled (fold_left (fun tcs chunk => take_tool_calls chunk tcs) chunks toolCalls) i
  = extended (assembled toolCalls i) (existsb (at_index i) (stream_deltas chunks))
      (name_fragments i (stream_deltas chunks))
      (arguments_fragments i (stream_deltas chunks)).
Proof.
  revert toolCalls.
  induction chunks as [|chunk chunks IH]; intros toolCalls;
    unfold stream_deltas in *; cbn [fold_left flat_map].
  - symmetry. apply extended_nothing.
  - rewrite IH, existsb_app, name_fragments_app, arguments_fragments_app.
    unfold take_tool_calls, chunk_deltas.
    destruct (c_tool_calls chunk) as [tcs|].
    + rewrite assembled_merge_deltas, extended_twice by apply no_fragments.
      reflexivity.
    + reflexivity.
Qed.

(** C8.  At the end of a stream the call at an index holds the
    concatenation of the name fragments and of the argument fragments
    that the deltas of that index carried, in their order of arrival, and
    nothing when no delta named the index.  This value does not depend
    on how the deltas of different indices interleave, nor on where the
    fragments are cut: it is what one delta delivering the call whole
    would have left. *)
Theorem tool_calls_reassembled (chunks : list Chunk) (i : nat) (now : Z) :
  let name := name_fragments i (stream_deltas chunks) in
  let arguments := arguments_fragments i (stream_deltas chunks) in
  assembled (stream_tool_calls chunks) i
  = (if existsb (at_index i) (stream_deltas chunks)
     then Some (name, arguments) else None)
  /\ assembled (stream_tool_calls chunks) i
     = (if existsb (at_index i) (stream_deltas chunks)
        then assembled (merge_deltas now [] [whole i name arguments]) i else None).
Proof.
  intros name arguments. unfold stream_tool_calls.
  rewrite assembled_stream. fold name arguments.
  assert (Hnone : assembled [] i = None) by (unfold assembled; rewrite slot_nil; reflexivity).
  rewrite Hnone. cbn [extended]. split; [reflexivity|].
  destruct (existsb _ _); [|reflexivity].
  rewrite assembled_merge_deltas, Hnone.
  cbn [existsb at_index whole tc_index]. rewrite Nat.eqb_refl. cbn [orb extended].
  rewrite name_fragments_cons, arguments_fragments_cons.
  cbn [at_index whole tc_index tc_name tc_arguments fragment]. rewrite Nat.eqb_refl.
  unfold name_fragments, arguments_fragments. cbn [filter map Js.concat fold_right].
  rewrite !append_empty_r. reflexivity.
Qed.

(** Two streams that carry, index by index, the same deltas in the same
    order assemble the same names and arguments, however the indices
    interleave. *)
Corollary interleaving_is_irrelevant (chunks1 chunks2 : list Chunk) :
  (forall i, filter (at_index i) (stream_deltas chunks1)
             = filter (at_index i) (stream_deltas chunks2)) ->
  forall i, assembled (stream_tool_calls chunks1) i = assembled (stream_tool_calls chunks2) i.
Proof.
  intros Hsame i.
  unfold stream_tool_calls. rewrite !assembled_stream.
  unfold name_fragments, arguments_fragments. rewrite Hsame.
  replace (existsb (at_index i) (stream_deltas chunks1))
    with (existsb (at_index i) (stream_deltas chunks2)); [reflexivity|].
  assert (Hex : forall l, existsb (at_index i) l
                          = negb (Nat.eqb (List.length (filter (at_index i) l)) 0)).
  { induction l as [|x l IH]; cbn [existsb filter]; [reflexivity|].
    destruct (at_index i x); cbn [orb List.length]; [reflexivity|exact IH]. }
  rewrite !Hex, Hsame. reflexivity.
Qed.

(* ================================================================== *)
(** * Properties: the effects of the adapters and of the loop *)
(* ================================================================== *)

Section EffectFacts.
Context {RT : JsRuntime}.

Lemma trace_bind {A B : Type} (m : M A) (f : A -> M B) :
  trace (bind m f)
  = (trace m ++ match outcome m with
                | Returned a => trace (f a)
                | _ => []
                end)%list.
Proof.
  destruct m as [t [a|err|]]; cbn [bind trace outcome fst snd].
  - destruct (f a). reflexivity.
  - rewrite app_nil_r. reflexivity.
  - rewrite app_nil_r. reflexivity.
Qed.

Lemma outcome_bind {A B : Type} (m : M A) (f : A -> M B) :
  outcome (bind m f)
  = match outcome m with
    | Returned a => outcome (f a)
    | Thrown err => Thrown err
    | OutOfFuel => OutOfFuel
    end.
Proof.
  destruct m as [t [a|err|]]; cbn [bind trace outcome fst snd]; try reflexivity.
  destruct (f a). reflexivity.
Qed.

Lemma trace_try_catch {A : Type} (m : M A) (h : string -> M A) :
  trace (try_catch m h)
  = (trace m ++ match outcome m with
                | Thrown err => trace (h err)
                | _ => []
                end)%list.
Proof.
  destruct m as [t [a|err|]]; cbn [try_catch trace outcome fst snd].
  - rewrite app_nil_r. reflexivity.
  - destruct (h err). reflexivity.
  - rewrite app_nil_r. reflexivity.
Qed.

Lemma outcome_try_catch {A : Type} (m : M A) (h : string -> M A) :
  outcome (try_catch m h)
  = match outcome m with
    | Thrown err => outcome (h err)
    | other => other
    end.
Proof.
  destruct m as [t [a|err|]]; cbn [try_catch trace outcome fst snd]; try reflexivity.
  destruct (h err). reflexivity.
Qed.


Lemma alerts_sent_app (a b : list Event) :
  alerts_sent (a ++ b)%list = (alerts_sent a + alerts_sent b)%nat.
Proof. unfold alerts_sent. rewrite filter_app, length_app. reflexivity. Qed.

Lemma alerts_requested_app (w : World) (a b : list Event) :
  alerts_requested w (a ++ b)%list = (alerts_requested w a + alerts_requested w b)%nat.
Proof. unfold alerts_requested. rewrite map_app, list_sum_app. reflexivity. Qed.

(** A trace of inner events holds no final publish, no error or clear
    event and no request. *)
Lemma inner_events_quiet (w : World) (t : list Event) :
  forallb inner_event t = true ->
  final_publishes t = O /\ alerts_requested w t = O
  /\ existsb is_error t = false /\ existsb is_clear t = false
  /\ forallb loop_event t = true.
Proof.
  induction t as [|e t IH]; cbn [forallb]; intros H.
  - repeat split.
  - apply andb_true_iff in H as [He Ht]. specialize (IH Ht).
    destruct IH as (IH1 & IH2 & IH3 & IH4 & IH5).
    unfold final_publishes, alerts_requested in *.
    destruct e as [text|ai_state| |[|] text|messages|query|body from to];
      try discriminate He; simpl; repeat split; assumption.
Qed.

Lemma loop_events_quiet (t : list Event) :
  forallb loop_event t = true ->
  final_publishes t = O /\ existsb is_error t = false /\ existsb is_clear t = false.
Proof.
  induction t as [|e t IH]; cbn [forallb]; intros H.
  - repeat split.
  - apply andb_true_iff in H as [He Ht]. specialize (IH Ht).
    destruct IH as (IH1 & IH2 & IH3).
    unfold final_publishes in *.
    destruct e as [text|ai_state| |[|] text|messages|query|body from to];
      try discriminate He; simpl; repeat split; assumption.
Qed.

End EffectFacts.

Section LoopFacts.
Context {RT : JsRuntime}.
Variable w : World.
Variable env : Turning.

(** [searchWeb] makes one search and never throws. *)
Lemma searchWeb_effect (query : option value) :
  exists searchResults,
    searchWeb w query = ([TavilySearch query], Returned searchResults).
Proof.
  unfold searchWeb.
  destruct (tavily_search w query) as [|[[|r results]|]]; cbn; eexists; reflexivity.
Qed.

(** [sendEmergencyAlert] makes one call of the gateway and never
    throws: it returns whether the call succeeded. *)
Lemma sendEmergencyAlert_effect (userMessage : string) :
  exists body to,
    sendEmergencyAlert w userMessage
    = ([TwilioCreate body (TWILIO_PHONE_NUMBER w) to], Returned (twilio_create w body to)).
Proof.
  unfold sendEmergencyAlert. do 2 eexists.
  destruct (twilio_create w _ _) eqn:E; cbn; rewrite E; cbn; reflexivity.
Qed.

Lemma forwarded_query_effect (searchQuery : option value) :
  trace (forwarded_query env searchQuery) = []
  /\ outcome (forwarded_query env searchQuery) <> OutOfFuel.
Proof.
  unfold forwarded_query.
  destruct (located env) as [[[la lo] name]|]; [|split; [reflexivity|discriminate]].
  destruct searchQuery as [[ | | |s| | ]|]; try (split; [reflexivity|discriminate]).
  destruct (isLocationQuery s); split; try reflexivity; discriminate.
Qed.

(** One tool call: only inner events, at most one alert and only for a
    call that names the alert tool, exactly one when the call is
    dispatched without an exception. *)
Lemma dispatch_call_effect (toolCall : option ToolCall) (toolResults : list ChatMessage) :
  let m := dispatch_call w env toolCall toolResults in
  forallb inner_event (trace m) = true
  /\ outcome m <> OutOfFuel
  /\ (alerts_sent (trace m) <= alert_budget toolCall)%nat
  /\ (forall r, outcome m = Returned r -> alerts_sent (trace m) = alert_budget toolCall).
Proof.
  unfold dispatch_call, alert_budget, is_alert_call.
  destruct toolCall as [call|]; [|cbn; repeat split; try discriminate; lia].
  destruct (JSON_parse (fn_arguments call)) as [functionArgs|];
    [|cbn; repeat split; try discriminate; lia].
  destruct (String.eqb_spec (fn_name call) "tool_search") as [Hsearch|Hnot_search].
  - rewrite Hsearch. cbn [String.eqb Ascii.eqb Bool.eqb andb].
    destruct (get functionArgs "query") as [searchQuery|err|];
      [|cbn; repeat split; try discriminate; lia ..].
    destruct (forwarded_query_effect searchQuery) as [Ht Ho].
    cbv zeta. rewrite trace_bind, outcome_bind, Ht.
    destruct (outcome (forwarded_query env searchQuery)) as [query|err|];
      [|cbn; repeat split; try discriminate; lia|contradiction].
    rewrite trace_bind, outcome_bind.
    destruct (searchWeb_effect query) as [searchResults ->].
    cbn. repeat split; try discriminate; lia.
  - destruct (String.eqb (fn_name call) "tool_alert").
    + cbv zeta. rewrite trace_bind, outcome_bind.
      destruct (sendEmergencyAlert_effect (message env)) as (body & to & ->).
      cbn. repeat split; try discriminate; lia.
    + cbn. repeat split; try discriminate; lia.
Qed.

Lemma alert_calls_cons (toolCall : option ToolCall) (rest : ToolCalls) :
  alert_calls (toolCall :: rest) = (alert_budget toolCall + alert_calls rest)%nat.
Proof.
  unfold alert_calls, alert_budget. cbn [filter].
  destruct (is_alert_call toolCall); reflexivity.
Qed.

(** The calls of one round. *)
Lemma dispatch_effect (toolCalls : ToolCalls) (toolResults : list ChatMessage) :
  let m := dispatch w env toolCalls toolResults in
  forallb inner_event (trace m) = true
  /\ outcome m <> OutOfFuel
  /\ (alerts_sent (trace m) <= alert_calls toolCalls)%nat
  /\ (forall r, outcome m = Returned r -> alerts_sent (trace m) = alert_calls toolCalls).
Proof.
  revert toolResults.
  induction toolCalls as [|toolCall rest IH]; intros toolResults; cbn [dispatch].
  - cbn. repeat split; try discriminate; lia.
  - cbv zeta. rewrite trace_bind, outcome_bind, alert_calls_cons.
    destruct (dispatch_call_effect toolCall toolResults) as (Hin & Hfuel & Hle & Heq).
    destruct (outcome (dispatch_call w env toolCall toolResults)) as [results'|err|].
    + specialize (IH results'). cbv zeta in IH.
      destruct IH as (Hin' & Hfuel' & Hle' & Heq').
      rewrite forallb_app, alerts_sent_app, Hin, Hin', (Heq results' eq_refl).
      repeat split; try assumption.
      * lia.
      * intros r Hr. rewrite (Heq' r Hr). reflexivity.
    + rewrite app_nil_r. repeat split; try assumption; try discriminate. lia.
    + contradiction.
Qed.

(** The stream loop: previews only; it ends with the content and the
    tool calls of the stream. *)
Lemma consume_effect (chunks : list Chunk) (accumulatedText currentContent : string)
    (toolCalls : ToolCalls) (lastUpdate : Z) :
  exists lastUpdate',
    outcome (consume chunks accumulatedText currentContent toolCalls lastUpdate)
    = Returned (currentContent ++ stream_content chunks,
                fold_left (fun tcs chunk => take_tool_calls chunk tcs) chunks toolCalls,
                lastUpdate')
    /\ forallb inner_event
         (trace (consume chunks accumulatedText currentContent toolCalls lastUpdate)) = true
    /\ alerts_sent
         (trace (consume chunks accumulatedText currentContent toolCalls lastUpdate)) = O.
Proof.
  revert currentContent toolCalls lastUpdate.
  induction chunks as [|chunk rest IH]; intros currentContent toolCalls lastUpdate;
    cbn [consume].
  - exists lastUpdate. unfold stream_content. cbn. rewrite append_empty_r. repeat split.
  - rewrite trace_bind, outcome_bind.
    assert (Htake : exists lu,
               outcome (take_content chunk accumulatedText currentContent lastUpdate)
               = Returned (currentContent ++ fragment (c_content chunk), lu)
               /\ forallb inner_event
                    (trace (take_content chunk accumulatedText currentContent lastUpdate))
                  = true
               /\ alerts_sent
                    (trace (take_content chunk accumulatedText currentContent lastUpdate))
                  = O).
    { unfold take_content.
      destruct (c_content chunk) as [piece|]; cbn [fragment].
      - destruct (Js.truthy piece) eqn:T.
        + destruct (c_now chunk - lastUpdate >? 1000); cbn; eexists; repeat split.
        + rewrite (not_truthy_empty _ T), append_empty_r. cbn. eexists. repeat split.
      - rewrite append_empty_r. cbn. eexists. repeat split. }
    destruct Htake as (lu & -> & Hin & Hal).
    cbn [fst snd].
    destruct (IH (currentContent ++ fragment (c_content chunk))
                 (take_tool_calls chunk toolCalls) lu) as (lu' & Hout & Hin' & Hal').
    exists lu'. rewrite Hout, forallb_app, alerts_sent_app, Hin, Hin', Hal, Hal'.
    unfold stream_content. cbn [map Js.concat fold_right].
    rewrite append_assoc. repeat split.
Qed.

Lemma alerts_requested_request (messages : list ChatMessage) :
  alerts_requested w [CompletionsCreate messages]
  = match completions_create w messages with
    | Streams chunks true => alert_calls (stream_tool_calls chunks)
    | _ => O
    end.
Proof.
  unfold alerts_requested. cbn [map list_sum fold_right].
  destruct (completions_create w messages) as [|chunks [|]]; lia.
Qed.

(** The [while] loop, for every fuel and from every state: its events
    are requests, previews, searches and alerts; no more alerts are sent
    than the streams asked for, and exactly as many unless an exception
    ended the loop; the text it returns is the accumulated text followed
    by the content of a stream that ended without tool calls. *)
Lemma rounds_effect (fuel : nat) :
  forall (conversationMessages : list ChatMessage) (accumulatedText : string)
         (lastUpdate : Z),
    let m := rounds w env fuel conversationMessages accumulatedText lastUpdate in
    forallb loop_event (trace m) = true
    /\ (alerts_sent (trace m) <= alerts_requested w (trace m))%nat
    /\ ((forall err, outcome m <> Thrown err) ->
        alerts_sent (trace m) = alerts_requested w (trace m))
    /\ (forall text, outcome m = Returned text ->
          exists messages chunks,
            In (CompletionsCreate messages) (trace m)
            /\ completions_create w messages = Streams chunks true
            /\ stream_tool_calls chunks = []
            /\ text = accumulatedText ++ stream_content chunks).
Proof.
  induction fuel as [|fuel IH]; intros conversationMessages accumulatedText lastUpdate;
    cbn [rounds].
  - cbn. refine (conj eq_refl (conj _ (conj _ _))); [lia|reflexivity|discriminate].
  - cbv zeta.
    rewrite trace_bind, outcome_bind. cbn [emit trace outcome fst snd].
    rewrite !alerts_requested_app, !alerts_sent_app, alerts_requested_request.
    change (alerts_sent [CompletionsCreate conversationMessages]) with O.
    cbn [app forallb loop_event inner_event is_request orb andb].
    destruct (completions_create w conversationMessages) as [|chunks completes] eqn:Hreply.
    + cbn. refine (conj eq_refl (conj _ (conj _ _))); [lia|reflexivity|discriminate].
    + rewrite trace_bind, outcome_bind.
      destruct (consume_effect chunks accumulatedText EmptyString [] lastUpdate)
        as (lastUpdate' & -> & Hinner & Hnone).
      destruct (inner_events_quiet w _ Hinner) as (_ & Hreq & _ & _ & Hloop).
      fold (stream_tool_calls chunks).
      cbn [append].
      destruct completes; cbn [negb].
      * destruct (stream_tool_calls chunks) as [|toolCall rest] eqn:Hcalls.
        -- cbn [ret trace outcome fst snd]. rewrite !app_nil_r, Hloop.
           rewrite ?alerts_sent_app, ?alerts_requested_app, ?Hreq, ?Hnone.
           refine (conj eq_refl (conj _ (conj _ _))); [cbn; lia|cbn; reflexivity|].
           intros text Htext. injection Htext as <-.
           exists conversationMessages, chunks.
           repeat split; try assumption. left. reflexivity.
        -- rewrite <- Hcalls. rewrite trace_bind, outcome_bind.
           destruct (dispatch_effect (stream_tool_calls chunks) [])
             as (Hin & Hfuel & Hle & Heq).
           rewrite ?forallb_app, ?alerts_sent_app, ?alerts_requested_app, ?Hloop, ?Hreq, ?Hnone.
           destruct (inner_events_quiet w _ Hin) as (_ & Hreq' & _ & _ & Hloop').
           rewrite Hloop', Hreq'.
           destruct (outcome (dispatch w env (stream_tool_calls chunks) []))
             as [toolResults|err|].
           ++ rewrite (Heq toolResults eq_refl) in *.
              match goal with
              | |- context [rounds w env fuel ?msgs ?acc ?lu] =>
                  destruct (IH msgs acc lu) as (IH1 & IH2 & IH3 & IH4)
              end.
              rewrite IH1. refine (conj eq_refl (conj _ (conj _ _))).
              ** lia.
              ** intros Hno. rewrite (IH3 Hno). lia.
              ** intros text Htext.
                 destruct (IH4 text Htext) as (messages & chunks' & Hmem & Hrep & Hnil & ->).
                 exists messages, chunks'. repeat split; try assumption.
                 right. apply in_or_app. right. apply in_or_app. right. exact Hmem.
           ++ cbn [alerts_sent alerts_requested filter map list_sum List.length].
              refine (conj eq_refl (conj _ (conj _ _))).
              ** change (alerts_requested w []) with O. lia.
              ** intros H. exfalso. eapply H. reflexivity.
              ** discriminate.
           ++ contradiction.
      * cbn [throw trace outcome fst snd]. rewrite !app_nil_r, Hloop.
        rewrite ?alerts_sent_app, ?alerts_requested_app, ?Hreq, ?Hnone.
        refine (conj eq_refl (conj _ (conj _ _))); [cbn; lia|cbn; reflexivity|discriminate].
Qed.

(** C3 (as amended).  On a located turn (coordinates and resolved name
    all truthy), a search call whose query holds one of the six location
    terms is forwarded as the query, a space, the resolved name, and the
    raw coordinates in parentheses: the forwarded query contains the
    place string, and it contains the latitude and the longitude as
    well. *)
Theorem located_search_forwards_place_and_coordinates
    (call : ToolCall) (toolResults : list ChatMessage) (functionArgs : value)
    (searchQuery : string) (la lo : number) (name : string) :
  fn_name call = "tool_search" ->
  JSON_parse (fn_arguments call) = Some functionArgs ->
  get functionArgs "query" = Returned (Some (JStr searchQuery)) ->
  located env = Some (la, lo, name) ->
  isLocationQuery searchQuery = true ->
  let forwarded :=
    searchQuery ++ " " ++ name ++ " (" ++ number_toString la ++ ","
    ++ number_toString lo ++ ")" in
  trace (dispatch_call w env (Some call) toolResults)
  = [TavilySearch (Some (JStr forwarded))]
  /\ Js.includes forwarded name = true
  /\ Js.includes forwarded (number_toString la) = true
  /\ Js.includes forwarded (number_toString lo) = true.
Proof.
  intros Hname Hparse Hquery Hlocated Hscoped forwarded.
  split; [|split; [|split]].
  - unfold dispatch_call. rewrite Hparse, Hname. cbn [String.eqb Ascii.eqb Bool.eqb andb].
    rewrite Hquery. unfold forwarded_query. rewrite Hlocated, Hscoped.
    cbv zeta. rewrite trace_bind. cbn [ret trace outcome fst snd app].
    rewrite trace_bind.
    destruct (searchWeb_effect (Some (JStr (enhanced searchQuery la lo name))))
      as [searchResults ->].
    reflexivity.
  - subst forwarded. do 2 apply includes_after.
    apply includes_at_start, prefix_append.
  - subst forwarded. do 4 apply includes_after.
    apply includes_at_start, prefix_append.
  - subst forwarded. do 6 apply includes_after.
    apply includes_at_start, prefix_append.
Qed.

(** C10.  [sendEmergencyAlert] makes one call of the gateway and
    returns whether it succeeded, without ever throwing; and the result
    recorded for a call of the alert tool is the fixed sentence, whatever
    the gateway did. *)
Theorem alert_result_is_fixed
    (call : ToolCall) (toolResults : list ChatMessage) (functionArgs : value) :
  fn_name call = "tool_alert" ->
  JSON_parse (fn_arguments call) = Some functionArgs ->
  (exists body to,
      sendEmergencyAlert w (message env)
      = ([TwilioCreate body (TWILIO_PHONE_NUMBER w) to],
         Returned (twilio_create w body to)))
  /\ outcome (dispatch_call w env (Some call) toolResults)
     = Returned (toolResults
                 ++ [ToolResult (call_id call) "tool_alert"
                       "Emergency alert sent successfully."])%list.
Proof.
  intros Hname Hparse. split; [apply sendEmergencyAlert_effect|].
  unfold dispatch_call. rewrite Hparse, Hname.
  cbn [String.eqb Ascii.eqb Bool.eqb andb]. cbv zeta.
  rewrite outcome_bind.
  destruct (sendEmergencyAlert_effect (message env)) as (body & to & ->).
  reflexivity.
Qed.


(** The [try] block and its [catch], in terms of the loop. *)
Lemma answer_effect (fuel : nat) (prompt : string) (conversationHistory : list Turn) :
  let r := rounds w env fuel (first_request env prompt conversationHistory)
             EmptyString (clock_start w) in
  trace (answer w env fuel prompt conversationHistory)
  = (trace r ++ match outcome r with
                | Returned text =>
                    [PartialUpdateMessage Final (Js.trim text); IndicatorClear]
                | Thrown _ =>
                    [IndicatorUpdate "AI_STATE_ERROR"; PartialUpdateMessage Final FALLBACK]
                | OutOfFuel => []
                end)%list
  /\ outcome (answer w env fuel prompt conversationHistory)
     = match outcome r with
       | OutOfFuel => OutOfFuel
       | _ => Returned tt
       end.
Proof.
  intros r. unfold answer. cbv zeta. fold r.
  rewrite trace_try_catch, outcome_try_catch, trace_bind, outcome_bind.
  destruct (outcome r) as [text|err|]; cbn; rewrite ?app_nil_r, <- ?app_assoc;
    split; reflexivity.
Qed.

End LoopFacts.

(* ================================================================== *)
(** * Properties: one turn *)
(* ================================================================== *)

Section TurnFacts.
Context {RT : JsRuntime}.
Variable w : World.

(** A turn is the placeholder message, the thinking state, and the
    [try] block with its [catch]. *)
Lemma turn_unfolded (fuel : nat) (message : string) (la lo : option number) :
  exists env prompt conversationHistory,
    trace (turn w fuel message la lo)
    = ([SendMessage EmptyString; IndicatorUpdate "AI_STATE_THINKING"]
       ++ trace (answer w env fuel prompt conversationHistory))%list
    /\ outcome (turn w fuel message la lo)
       = outcome (answer w env fuel prompt conversationHistory).
Proof.
  unfold turn. cbv zeta. do 3 eexists.
  rewrite !trace_bind, !outcome_bind. cbn [emit trace outcome fst snd app].
  split; reflexivity.
Qed.



(** The handler returns at once, without any effect, or runs a turn. *)
Lemma handleMessage_cases (fuel : nat) (e : InboundEvent) (m : M unit) :
  handleMessage w fuel e = Some m ->
  m = ret tt \/ exists message la lo, m = turn w fuel message la lo.
Proof.
  unfold handleMessage.
  destruct (ev_message e) as [msg|]; [|intros [= <-]; left; reflexivity].
  destruct (msg_ai_generated msg); [intros [= <-]; left; reflexivity|].
  cbv zeta.
  destruct (get_opt _ "text") as [[ |b|n|message|items|fields]|];
    try (destruct (js_truthy _); [discriminate|]);
    try (intros [= <-]; left; reflexivity).
  destruct (negb (Js.truthy message)); [intros [= <-]; left; reflexivity|].
  repeat match goal with
         | |- context [match coordinate ?v with _ => _ end] => destruct (coordinate v)
         end;
    try discriminate; intros [= <-]; right; do 3 eexists; reflexivity.
Qed.

(** A user message whose payload is an object with a non-empty string
    as its text starts a turn: without coordinates when the payload has
    no location, with them when it has one with two numbers. *)
Lemma handleMessage_plain (fuel : nat) (raw message : string)
    (fields : list (string * value)) :
  JSON_parse raw = Some (JObj fields) ->
  assoc "text" fields = Some (JStr message) ->
  Js.truthy message = true ->
  assoc "location" fields = None ->
  handleMessage w fuel
    {| ev_message := Some {| msg_text := Some raw; msg_ai_generated := false |} |}
  = Some (turn w fuel message None None).
Proof.
  intros Hparse Htext Htruthy Hloc.
  unfold handleMessage, parse_envelope. cbn [ev_message msg_ai_generated msg_text].
  rewrite Hparse. cbn [get_opt]. rewrite Htext, Htruthy, Hloc. reflexivity.
Qed.

Lemma handleMessage_located (fuel : nat) (raw message : string)
    (fields location : list (string * value)) (la lo : number) :
  JSON_parse raw = Some (JObj fields) ->
  assoc "text" fields = Some (JStr message) ->
  Js.truthy message = true ->
  assoc "location" fields = Some (JObj location) ->
  assoc "lat" location = Some (JNum la) ->
  assoc "long" location = Some (JNum lo) ->
  handleMessage w fuel
    {| ev_message := Some {| msg_text := Some raw; msg_ai_generated := false |} |}
  = Some (turn w fuel message (Some la) (Some lo)).
Proof.
  intros Hparse Htext Htruthy Hloc Hlat Hlong.
  unfold handleMessage, parse_envelope. cbn [ev_message msg_ai_generated msg_text].
  rewrite Hparse. cbn [get_opt]. rewrite Htext, Htruthy, Hloc. cbn [get_opt negb].
  rewrite Hlat, Hlong. reflexivity.
Qed.

End TurnFacts.

(* ================================================================== *)
(** * The properties on the example worlds *)
(* ================================================================== *)

(** Two calls whose deltas arrive interleaved, and the same two calls
    delivered one after the other, each whole. *)
Example interleaved_and_whole_agree :
  let interleaved :=
    [Scenario.calls 300 [Scenario.delta 0 (Some "tool_") None;
                         Scenario.delta 1 (Some "tool_al") (Some "{")];
     Scenario.calls 310 [Scenario.delta 1 (Some "ert") None;
                         Scenario.delta 0 (Some "search") (Some "{}")];
     Scenario.calls 320 [Scenario.delta 1 None (Some "}")]] in
  let whole_calls :=
    [Scenario.calls 300 [whole 0 "tool_search" "{}"; whole 1 "tool_alert" "{}"]] in
  assembled (stream_tool_calls interleaved) 0 = Some ("tool_search", "{}")
  /\ assembled (stream_tool_calls interleaved) 1 = Some ("tool_alert", "{}")
  /\ assembled (stream_tool_calls interleaved) 0 = assembled (stream_tool_calls whole_calls) 0
  /\ assembled (stream_tool_calls interleaved) 1 = assembled (stream_tool_calls whole_calls) 1.
Proof. vm_compute. repeat split. Qed.

Section LoopExamples.
Local Existing Instance Scenario.Integers.


Lemma crisis_starts_a_turn (w : World) (fuel : nat) :
  handleMessage w fuel Scenario.crisis = Some (turn w fuel "I want to end it" None None).
Proof.
  apply handleMessage_plain with (fields := [("text", JStr "I want to end it")]);
    first [vm_compute; reflexivity|reflexivity].
Qed.

Lemma weather_starts_a_turn (w : World) (fuel : nat) :
  handleMessage w fuel Scenario.weather = Some (turn w fuel "Will it rain?" None None).
Proof.
  apply handleMessage_plain with (fields := [("text", JStr "Will it rain?")]);
    first [vm_compute; reflexivity|reflexivity].
Qed.

Lemma hospital_near_me_starts_a_turn (w : World) (fuel : nat) :
  handleMessage w fuel Scenario.hospital_near_me
  = Some (turn w fuel "hospital near me" (Some 12) (Some 77)).
Proof.
  apply handleMessage_located
    with (fields := [("location", JObj [("long", JNum 77); ("lat", JNum 12)]);
                     ("text", JStr "hospital near me")])
         (location := [("long", JNum 77); ("lat", JNum 12)]);
    first [vm_compute; reflexivity|reflexivity].
Qed.

(** A provider whose first call throws: the turn takes the error path,
    with one final publish and no clear event. *)
Example provider_failure_takes_error_path :
  outcome (turn Scenario.failing 4 "What helps a mild headache?" None None) = Returned tt
  /\ final_publishes
       (trace (turn Scenario.failing 4 "What helps a mild headache?" None None)) = 1%nat
  /\ existsb is_error
       (trace (turn Scenario.failing 4 "What helps a mild headache?" None None)) = true
  /\ existsb is_clear
       (trace (turn Scenario.failing 4 "What helps a mild headache?" None None)) = false.
Proof. vm_compute. repeat split. Qed.

(** The amended C3 on a search for a hospital from Koramangala. *)
Lemma located_search_forwards_place_and_coordinates_witness :
  fn_name Scenario.search_call = "tool_search"
  /\ JSON_parse (fn_arguments Scenario.search_call)
     = Some (JObj [("query", JStr "hospital near me")])
  /\ located Scenario.in_bengaluru = Some (12, 77, "Koramangala, Bengaluru")
  /\ isLocationQuery "hospital near me" = true
  /\ trace (dispatch_call Scenario.searching Scenario.in_bengaluru
              (Some Scenario.search_call) [])
     = [TavilySearch (Some (JStr ("hospital near me" ++ " " ++ "Koramangala, Bengaluru"
                                  ++ " (" ++ number_toString 12 ++ ","
                                  ++ number_toString 77 ++ ")")))]
  /\ Js.includes ("hospital near me" ++ " " ++ "Koramangala, Bengaluru"
                  ++ " (" ++ number_toString 12 ++ "," ++ number_toString 77 ++ ")")
       "Koramangala, Bengaluru" = true.
Proof.
  assert (Hparse : JSON_parse (fn_arguments Scenario.search_call)
                   = Some (JObj [("query", JStr "hospital near me")]))
    by (vm_compute; reflexivity).
  assert (Hscoped : isLocationQuery "hospital near me" = true) by (vm_compute; reflexivity).
  refine (conj eq_refl (conj Hparse (conj eq_refl (conj Hscoped _)))).
  pose proof (located_search_forwards_place_and_coordinates
                Scenario.searching Scenario.in_bengaluru Scenario.search_call []
                (JObj [("query", JStr "hospital near me")]) "hospital near me"
                12 77 "Koramangala, Bengaluru"
                eq_refl Hparse eq_refl eq_refl Hscoped) as H.
  cbv zeta in H. destruct H as (Htrace & Hname & _ & _).
  split; assumption.
Defined.

(** C3 (as stated) fails: the query forwarded for the turn of a user at
    latitude 12 and longitude 77 ends with the two coordinates. *)
Lemma forwarded_query_holds_coordinates :
  handleMessage Scenario.searching 4 Scenario.hospital_near_me
  = Some (turn Scenario.searching 4 "hospital near me" (Some 12) (Some 77))
  /\ existsb (is_search_for "hospital near me Koramangala, Bengaluru (12,77)")
       (trace (turn Scenario.searching 4 "hospital near me" (Some 12) (Some 77))) = true
  /\ Js.includes "hospital near me Koramangala, Bengaluru (12,77)" (number_toString 12)
     = true
  /\ Js.includes "hospital near me Koramangala, Bengaluru (12,77)" (number_toString 77)
     = true.
Proof.
  split; [apply hospital_near_me_starts_a_turn|].
  vm_compute. repeat split.
Qed.

(** C9 (as stated) fails: the stream of the first round accumulates a
    call of [tool_weather]; the round records no result for it and makes
    no call, the turn goes on and ends on the success path, and no
    request of the turn carries a tool result. *)
Lemma unknown_tool_gets_no_result :
  handleMessage Scenario.calling_unknown 4 Scenario.weather
  = Some (turn Scenario.calling_unknown 4 "Will it rain?" None None)
  /\ outcome (dispatch Scenario.calling_unknown Scenario.nowhere
                [Some Scenario.unknown_call] [])
     = Returned []
  /\ List.length (trace (dispatch Scenario.calling_unknown Scenario.nowhere
                           [Some Scenario.unknown_call] [])) = O
  /\ existsb carries_tool_result
       (trace (turn Scenario.calling_unknown 4 "Will it rain?" None None)) = false
  /\ existsb is_error
       (trace (turn Scenario.calling_unknown 4 "Will it rain?" None None)) = false
  /\ final_publishes
       (trace (turn Scenario.calling_unknown 4 "Will it rain?" None None)) = 1%nat.
Proof.
  split; [apply weather_starts_a_turn|].
  vm_compute. repeat split.
Qed.

(** C10 with a gateway that refuses the message. *)
Lemma alert_result_is_fixed_witness :
  fn_name Scenario.alert_call = "tool_alert"
  /\ JSON_parse (fn_arguments Scenario.alert_call)
     = Some (JObj [("reason", JStr "self-harm")])
  /\ outcome (sendEmergencyAlert Scenario.gateway_down "I want to end it") = Returned false
  /\ outcome (dispatch_call Scenario.gateway_down
                {| message := "I want to end it"; lat := None; long := None;
                   locationName := None |}
                (Some Scenario.alert_call) [])
     = Returned [ToolResult "call_300_0" "tool_alert" "Emergency alert sent successfully."].
Proof.
  assert (Hparse : JSON_parse (fn_arguments Scenario.alert_call)
                   = Some (JObj [("reason", JStr "self-harm")]))
    by (vm_compute; reflexivity).
  refine (conj eq_refl (conj Hparse (conj _ _))); [vm_compute; reflexivity|].
  exact (proj2 (alert_result_is_fixed Scenario.gateway_down
                  {| message := "I want to end it"; lat := None; long := None;
                     locationName := None |}
                  Scenario.alert_call [] _ eq_refl Hparse)).
Defined.

End LoopExamples.

(* ================================================================== *)
(** * Properties: the incremental decoder *)
(* ================================================================== *)

Lemma strip_sound (p s r : string) : Client.strip p s = Some r -> s = p ++ r.
Proof.
  revert s. induction p as [|a p IH]; intros s; cbn [Client.strip String.append].
  - intros [= ->]. reflexivity.
  - destruct s as [|b s]; [discriminate|].
    destruct (Ascii.eqb_spec a b) as [->|]; [|discriminate].
    intros H. rewrite (IH _ H). reflexivity.
Qed.

Lemma strip_cons (a b : ascii) (p s : string) :
  Client.strip (String a p) (String b s)
  = if Ascii.eqb a b then Client.strip p s else None.
Proof. reflexivity. Qed.

Lemma field_match_step (key : string) (group : string -> option string)
    (c : ascii) (s : string) :
  Client.field_at key group (String c s) = None ->
  Client.field_match key group (String c s) = Client.field_match key group s.
Proof. intros H. cbn [Client.field_match]. rewrite H. reflexivity. Qed.

Lemma field_at_not_quote (key : string) (group : string -> option string)
    (c : ascii) (s : string) :
  Ascii.eqb Js.dquote c = false -> Client.field_at key group (String c s) = None.
Proof.
  intros H. unfold Client.field_at, Js.q. cbn [String.append Client.strip].
  rewrite H. reflexivity.
Qed.

Lemma field_match_empty (key : string) (group : string -> option string) :
  Client.field_match key group EmptyString = None.
Proof. reflexivity. Qed.

(** An open body does not start with the key and its closing quote. *)
Lemma open_body_not_key (s : string) :
  Client.open_body s = true ->
  Client.strip (String "t" (String "e" (String "x" (String "t" Js.q)))) s = None.
Proof.
  intros Hopen.
  destruct (Client.strip _ s) as [r|] eqn:E; [|reflexivity].
  apply strip_sound in E. subst s. cbn in Hopen. discriminate.
Qed.

Lemma text_group_cons (c : ascii) (rest : string) :
  Client.text_group (String c rest)
  = if Ascii.eqb c Js.dquote then Some EmptyString
    else if Ascii.eqb c Js.backslash then
      match rest with
      | EmptyString => None
      | String d rest' =>
          if Client.is_line_terminator d then None
          else option_map (fun g => String c (String d g)) (Client.text_group rest')
      end
    else option_map (String c) (Client.text_group rest).
Proof. reflexivity. Qed.

Lemma open_body_cons (c : ascii) (rest : string) :
  Client.open_body (String c rest)
  = if Ascii.eqb c Js.dquote then false
    else if Ascii.eqb c Js.backslash then
      match rest with
      | EmptyString => true
      | String d rest' => negb (Client.is_line_terminator d) && Client.open_body rest'
      end
    else Client.open_body rest.
Proof. reflexivity. Qed.

(** The text expression does not close an open body. *)
Lemma text_group_open (s : string) :
  (Client.open_body s = true -> Client.text_group s = None)
  /\ (forall c, Client.open_body (String c s) = true ->
                Client.text_group (String c s) = None).
Proof.
  induction s as [|d s [IH1 IH2]].
  - split; [reflexivity|].
    intros c. rewrite open_body_cons, text_group_cons.
    destruct (Ascii.eqb c Js.dquote); [discriminate|].
    destruct (Ascii.eqb c Js.backslash); reflexivity.
  - split; [apply IH2|].
    intros c. rewrite (open_body_cons c), (text_group_cons c).
    destruct (Ascii.eqb c Js.dquote); [discriminate|].
    destruct (Ascii.eqb c Js.backslash).
    + destruct (Client.is_line_terminator d); [discriminate|].
      cbn [negb andb]. intros H. rewrite (IH1 H). reflexivity.
    + intros H. rewrite (IH2 d H). reflexivity.
Qed.

(** Nor does it find the key anywhere inside an open body. *)
Lemma textMatch_open (s : string) :
  (Client.open_body s = true -> Client.textMatch s = None)
  /\ (forall c, Client.open_body (String c s) = true ->
                Client.textMatch (String c s) = None).
Proof.
  unfold Client.textMatch.
  induction s as [|d s [IH1 IH2]].
  - split; [reflexivity|].
    intros c. rewrite open_body_cons.
    destruct (Ascii.eqb_spec c Js.dquote) as [->|Hc]; [discriminate|].
    intros _. rewrite field_match_step; [reflexivity|].
    apply field_at_not_quote. apply Ascii.eqb_neq. congruence.
  - split; [apply IH2|].
    intros c. rewrite (open_body_cons c).
    destruct (Ascii.eqb_spec c Js.dquote) as [->|Hc]; [discriminate|].
    assert (Hskip : Client.field_at "text" Client.text_group (String c (String d s)) = None)
      by (apply field_at_not_quote, Ascii.eqb_neq; congruence).
    rewrite (field_match_step _ _ _ _ Hskip).
    destruct (Ascii.eqb c Js.backslash).
    + destruct (Client.is_line_terminator d); [discriminate|].
      cbn [negb andb]. intros H.
      rewrite field_match_step; [exact (IH1 H)|].
      destruct (Ascii.eqb_spec Js.dquote d) as [<-|Hd].
      * pose proof (open_body_not_key s H) as Hkey.
        unfold Client.field_at, Js.q in *. cbn [String.append Client.strip] in *.
        rewrite Ascii.eqb_refl, Hkey. reflexivity.
      * apply field_at_not_quote, Ascii.eqb_neq, Hd.
    + intros H. exact (IH2 d H).
Qed.

Lemma same_before_quote (a b x y : string) :
  Client.quote_free a = true -> Client.quote_free b = true ->
  a ++ String Js.dquote x = b ++ String Js.dquote y -> x = y.
Proof.
  revert b. induction a as [|c a IH]; intros [|d b]; cbn [String.append Client.quote_free].
  - intros _ _ [= ->]. reflexivity.
  - intros _ Hb [= <- _]. rewrite Ascii.eqb_refl in Hb. discriminate.
  - intros Ha _ [= -> _]. rewrite Ascii.eqb_refl in Ha. discriminate.
  - intros Ha Hb [= _ H].
    apply andb_true_iff in Ha as [_ Ha]. apply andb_true_iff in Hb as [_ Hb].
    exact (IH b Ha Hb H).
Qed.

(** The value of the lang field is not taken for the text field. *)
Lemma lang_value_not_text (lang rest : string) :
  Client.quote_free lang = true ->
  Client.field_at "text" Client.text_group
    (String Js.dquote (lang ++ String Js.dquote (String "," rest))) = None.
Proof.
  intros Hlang. unfold Client.field_at.
  change (Js.q ++ "text" ++ Js.q) with (String Js.dquote ("text" ++ Js.q)).
  rewrite strip_cons, Ascii.eqb_refl.
  destruct (Client.strip ("text" ++ Js.q) (lang ++ String Js.dquote (String "," rest)))
    as [r|] eqn:E; [|reflexivity].
  apply strip_sound in E.
  change (lang ++ String Js.dquote (String "," rest) = "text" ++ String Js.dquote r) in E.
  apply same_before_quote in E; [|exact Hlang|reflexivity].
  subst r. reflexivity.
Qed.

Lemma field_match_quote_free (key : string) (group : string -> option string)
    (lang rest : string) :
  Client.quote_free lang = true ->
  Client.field_match key group (lang ++ rest) = Client.field_match key group rest.
Proof.
  induction lang as [|c lang IH]; cbn [String.append Client.quote_free]; [reflexivity|].
  intros H. apply andb_true_iff in H as [Hc Hlang].
  rewrite field_match_step; [exact (IH Hlang)|].
  apply field_at_not_quote. rewrite Ascii.eqb_sym. apply negb_true_iff, Hc.
Qed.

(** In an envelope cut inside its text, the text expression finds no
    match: not before the text field, not at it, not inside its value. *)
Lemma textMatch_fragment (lang body : string) :
  Client.quote_free lang = true ->
  Client.open_body body = true ->
  Client.textMatch (Client.fragment_of lang body) = None.
Proof.
  intros Hlang Hbody.
  unfold Client.textMatch, Client.fragment_of, Js.q. cbn [String.append].
  repeat (rewrite field_match_step by reflexivity).
  rewrite field_match_step by (apply lang_value_not_text; exact Hlang).
  rewrite field_match_quote_free by exact Hlang.
  repeat (rewrite field_match_step by reflexivity).
  rewrite field_match_step.
  2:{ unfold Client.field_at, Js.q. cbn.
      apply (proj1 (text_group_open body)), Hbody. }
  repeat (rewrite field_match_step by reflexivity).
  rewrite field_match_step.
  2:{ pose proof (open_body_not_key body Hbody) as Hkey.
      unfold Client.field_at, Js.q in *. cbn [String.append Client.strip] in *.
      rewrite Ascii.eqb_refl, Hkey. reflexivity. }
  apply (proj1 (textMatch_open body)), Hbody.
Qed.

Lemma trim_keeps_brace (s : string) :
  Js.startsWith (Js.trim (String "{" s)) "{" = true.
Proof.
  unfold Js.trim, Js.startsWith.
  change (Js.trimStart (String "{" s)) with (String "{" s).
  cbn [Js.trimEnd]. destruct (Js.trimEnd s); reflexivity.
Qed.

Section DecoderFacts.
Context {RT : JsRuntime}.

(** The last branches of the decoder: when the parse yields no text and
    the expression finds none, what starts with a brace (after trimming)
    is shown as the empty text, not complete. *)
Lemma no_text_in_object (rawText : string) :
  Client.parsed_result rawText = None ->
  Client.textMatch rawText = None ->
  Js.startsWith (Js.trim rawText) "{" = true ->
  Client.extractTextFromStreamingJSON rawText
  = {| Client.text := JStr EmptyString; Client.lang := JNull;
       Client.isComplete := false |}.
Proof.
  intros Hparsed Hmatch Hbrace. unfold Client.extractTextFromStreamingJSON.
  destruct rawText as [|c rest]; [reflexivity|]. cbn [Js.truthy negb].
  rewrite Hparsed, Hmatch, Hbrace. reflexivity.
Qed.


End DecoderFacts.

Section DecoderExamples.
Local Existing Instance Scenario.Integers.


End DecoderExamples.

(* ================================================================== *)
(** * Further properties: the token estimate, retrieval and the adapters *)
(* ================================================================== *)

(** X1.  The estimate of a concatenation is at most the sum of the
    estimates of its parts, and at most one token less: counting message
    by message never undercounts the whole. *)
Theorem estimateTokens_of_concatenation (a b : string) :
  estimateTokens (a ++ b) <= estimateTokens a + estimateTokens b
  /\ estimateTokens a + estimateTokens b <= estimateTokens (a ++ b) + 1.
Proof.
  pose proof (estimateTokens_ceiling a) as Ha.
  pose proof (estimateTokens_ceiling b) as Hb.
  pose proof (estimateTokens_ceiling (a ++ b)) as Hab.
  rewrite len_append in Hab. lia.
Qed.

(** Once a snippet does not fit, the loop is left: whatever follows in
    the list of matches plays no part. *)
Lemma retained_stops (pre : list Match) (m : Match) (post : list Match) :
  Retrieval.low_relevance m = false ->
  Js.truthy (Retrieval.content_of m) = true ->
  forall currentTokens,
    currentTokens + Retrieval.tokens_of (Retrieval.retained pre currentTokens)
    + estimateTokens (Retrieval.snippet_of m) > PINECONE_TOKEN_LIMIT ->
    Retrieval.retained (pre ++ m :: post) currentTokens
    = Retrieval.retained pre currentTokens.
Proof.
  intros Hrel Hcontent.
  induction pre as [|a pre IH]; intros currentTokens Hover.
  - cbn [app Retrieval.retained Retrieval.tokens_of fold_right] in *.
    rewrite Hrel, Hcontent. cbn [negb].
    destruct (currentTokens + estimateTokens (Retrieval.snippet_of m) >? PINECONE_TOKEN_LIMIT)
      eqn:E; [reflexivity|]. rewrite Z.gtb_ltb in E. apply Z.ltb_ge in E. lia.
  - cbn [app Retrieval.retained] in *.
    destruct (Retrieval.low_relevance a); [apply IH; exact Hover|].
    destruct (negb (Js.truthy (Retrieval.content_of a))); [apply IH; exact Hover|].
    cbv zeta in *.
    destruct (currentTokens + estimateTokens (Retrieval.snippet_of a) >? PINECONE_TOKEN_LIMIT);
      [reflexivity|].
    f_equal. apply IH.
    unfold Retrieval.tokens_of in *. cbn [fold_right] in Hover. lia.
Qed.

(** X2.  Retrieval stops at the first snippet that does not fit the
    budget of 3000 tokens: a store answer in which a relevant match with
    content overflows the budget yields the context of the matches before
    it alone, whatever comes after it (shorter snippets included). *)
Theorem retrieval_stops_at_first_overflow
    (hf : string -> Fetched EmbeddingJson) (query : string)
    (pre : list Match) (m : Match) (post : list Match) :
  Retrieval.low_relevance m = false ->
  Js.truthy (Retrieval.content_of m) = true ->
  Retrieval.tokens_of (Retrieval.retained pre 0) + estimateTokens (Retrieval.snippet_of m)
  > PINECONE_TOKEN_LIMIT ->
  Retrieval.retrieveFromPinecone hf
    (fun _ => Retrieval.QueryOk (Some (pre ++ m :: post)%list)) query
  = Retrieval.retrieveFromPinecone hf (fun _ => Retrieval.QueryOk (Some pre)) query.
Proof.
  intros Hrel Hcontent Hover.
  unfold Retrieval.retrieveFromPinecone.
  assert (Hleft : forall l, l = (pre ++ m :: post)%list ->
            match l with
            | [] => EmptyString
            | _ => Js.trim (fst (Retrieval.collect l EmptyString 0))
            end = Js.trim (Retrieval.render (Retrieval.retained pre 0))).
  { intros l ->. destruct (pre ++ m :: post)%list eqn:E.
    - destruct pre; discriminate.
    - rewrite <- E, collect_retained. cbn [fst append].
      rewrite retained_stops by (try assumption; lia). reflexivity. }
  rewrite (Hleft _ eq_refl).
  destruct pre as [|a pre']; [reflexivity|].
  rewrite collect_retained. reflexivity.
Qed.

(** A list of non-empty strings, itself not empty, joins to a non-empty
    string. *)
Lemma truthy_append (a b : string) : Js.truthy a = true -> Js.truthy (a ++ b) = true.
Proof. destruct a; [discriminate|reflexivity]. Qed.

Lemma truthy_append_r (a b : string) : Js.truthy b = true -> Js.truthy (a ++ b) = true.
Proof. destruct a; [intros H; exact H|reflexivity]. Qed.

Lemma join_truthy (sep p : string) (rest : list string) :
  Js.truthy p = true -> Js.truthy (Js.join sep (p :: rest)) = true.
Proof.
  intros Hp. cbn [Js.join]. destruct rest; [exact Hp|]. apply truthy_append. exact Hp.
Qed.

Lemma truthy_level (o : option string) (parts : list string) :
  Forall (fun s => Js.truthy s = true) parts ->
  Forall (fun s => Js.truthy s = true)
    (match o with
     | Some s => if Js.truthy s then [s] else []
     | None => []
     end ++ parts)%list.
Proof.
  intros H. destruct o as [s|]; [|exact H].
  destruct (Js.truthy s) eqn:E; [|exact H].
  constructor; assumption.
Qed.

Section AdapterFacts.
Context {RT : JsRuntime}.
Variable w : World.

(** X3.  [reverseGeocode] always names a place: whatever the geocoder
    does (it throws, answers with an error status, or with an address
    that has none of the levels), the result is a non-empty string, so
    the location name of a turn with coordinates is truthy. *)
Theorem reverseGeocode_names_a_place (lat long : number) :
  Js.truthy (reverseGeocode w lat long) = true
  /\ match nominatim w lat long with
     | FetchOk (Some _) => True
     | _ => reverseGeocode w lat long = "your location"
     end.
Proof.
  unfold reverseGeocode. split.
  - destruct (nominatim w lat long) as [| |data]; try reflexivity.
    match goal with
    | |- Js.truthy (match ?parts with [] => _ | _ => _ end) = true =>
        assert (Hall : Forall (fun s => Js.truthy s = true) parts)
          by (repeat apply truthy_level; rewrite <- (app_nil_r _);
              apply truthy_level; constructor);
        destruct parts as [|p rest]; [reflexivity|]
    end.
    apply join_truthy. inversion Hall; assumption.
  - destruct (nominatim w lat long) as [| |[a|]]; first [reflexivity | exact I].
Qed.

End AdapterFacts.

Section SearchFacts.
Context {RT : JsRuntime}.
Variable w : World.

(** X4.  [searchWeb] never throws and always has something to hand to
    the model: it queries the search provider once and returns a
    non-empty string, whether the provider throws, finds nothing, or
    finds results. *)
Theorem searchWeb_always_answers (query : option value) :
  exists searchResults,
    searchWeb w query = ([TavilySearch query], Returned searchResults)
    /\ Js.truthy searchResults = true.
Proof.
  unfold searchWeb.
  destruct (tavily_search w query) as [|[[|r results]|]];
    eexists; (split; [reflexivity|]); try reflexivity.
  cbn [format_hits]. apply join_truthy.
  unfold format_hit. apply truthy_append_r. reflexivity.
Qed.

End SearchFacts.

(* ================================================================== *)
(** * Further properties: the history *)
(* ================================================================== *)

Section MoreHistoryFacts.
Context {RT : JsRuntime}.

(** What a message that becomes a turn looks like. *)
Lemma scan_message_entry (msg : Message) (t : Turn) (msgTokens : Z) :
  scan_message msg = Entry t msgTokens ->
  exists raw,
    msg_text msg = Some raw
    /\ decode_text raw = JStr (content t)
    /\ role t = (if msg_ai_generated msg then "assistant" else "user")
    /\ Js.trim (content t) <> EmptyString.
Proof.
  unfold scan_message. destruct (msg_text msg) as [raw|]; [|discriminate].
  destruct (Js.truthy raw); cbn [negb]; [|discriminate].
  destruct (decode_text raw) as [ |b|n|s|items|fields] eqn:D; cbn [js_truthy negb];
    try solve [discriminate
              | match goal with
                | |- (if ?c then _ else _) = _ -> _ => destruct c; discriminate
                end].
  - destruct (Js.truthy s); cbn [negb]; [|discriminate].
    destruct (String.eqb_spec (Js.trim s) EmptyString) as [|Hne]; [discriminate|].
    intros H. injection H as <- _. exists raw. cbn [content role].
    refine (conj eq_refl (conj D (conj eq_refl Hne))).
Qed.

(** Whatever holds of the turns of the messages and of the history built
    so far holds of the history the loop returns. *)
Lemma scan_keeps (P : Turn -> Prop) (newest_first : list Message) (maxTokens : Z) :
  (forall msg t msgTokens,
      In msg newest_first -> scan_message msg = Entry t msgTokens -> P t) ->
  forall (history : list Turn) (totalTokens : Z) (result : list Turn),
    Forall P history ->
    scan newest_first maxTokens history totalTokens = Returned result ->
    Forall P result.
Proof.
  induction newest_first as [|msg older IH]; intros HP history totalTokens result Hh;
    cbn [scan].
  - intros H. injection H as <-. exact Hh.
  - destruct (scan_message msg) as [| |t msgTokens] eqn:E.
    + apply IH; [|exact Hh]. intros m t tok Hin. apply HP. right. exact Hin.
    + discriminate.
    + cbv zeta.
      destruct (negb (List.length history <? MIN_HISTORY_MESSAGES)%nat
                && (totalTokens + msgTokens >? maxTokens)).
      * intros H. injection H as <-. exact Hh.
      * apply IH.
        -- intros m t' tok Hin. apply HP. right. exact Hin.
        -- constructor; [|exact Hh]. apply (HP msg t msgTokens); [left; reflexivity|exact E].
Qed.

(** X5.  Every turn of the assembled history comes from a message of the
    channel that has a text: its content is the decoded text of that
    message and is not blank, and its role is [assistant] exactly when
    the message is flagged as generated by the agent, [user] otherwise.
    This holds whatever the allowance and whatever the channel holds. *)
Theorem history_turns_come_from_messages (messages : list Message) (maxTokens : Z) :
  Forall (fun t =>
            exists msg raw,
              In msg messages
              /\ msg_text msg = Some raw
              /\ decode_text raw = JStr (content t)
              /\ role t = (if msg_ai_generated msg then "assistant" else "user")
              /\ Js.trim (content t) <> EmptyString)
    (getConversationHistory (ChannelOk (Some messages)) maxTokens).
Proof.
  unfold getConversationHistory.
  destruct messages as [|m0 rest] eqn:Hm; [constructor|]. rewrite <- Hm.
  destruct (scan (rev messages) maxTokens [] 0) as [history|err|] eqn:E;
    [|constructor ..].
  refine (scan_keeps _ (rev messages) maxTokens _ [] 0 history (Forall_nil _) E).
  intros msg t tok Hin Hentry.
  destruct (scan_message_entry msg t tok Hentry) as (raw & H1 & H2 & H3 & H4).
  exists msg, raw. repeat split; try assumption.
  apply in_rev. exact Hin.
Qed.

(** The loop only adds to the front of the history it was given. *)
Lemma scan_extends (newest_first : list Message) (maxTokens : Z) :
  forall (history : list Turn) (totalTokens : Z) (result : list Turn),
    scan newest_first maxTokens history totalTokens = Returned result ->
    exists more, result = (more ++ history)%list.
Proof.
  induction newest_first as [|msg older IH]; intros history totalTokens result; cbn [scan].
  - intros H. injection H as <-. exists []. reflexivity.
  - destruct (scan_message msg) as [| |t msgTokens].
    + apply IH.
    + discriminate.
    + cbv zeta.
      destruct (negb (List.length history <? MIN_HISTORY_MESSAGES)%nat
                && (totalTokens + msgTokens >? maxTokens)).
      * intros H. injection H as <-. exists []. reflexivity.
      * intros H. destruct (IH _ _ _ H) as (more & ->).
        exists (more ++ [t])%list. rewrite <- app_assoc. reflexivity.
Qed.

Lemma scan_monotone (newest_first : list Message) (max1 max2 : Z) :
  (forall msg, In msg newest_first -> scan_message msg <> Raised) ->
  max1 <= max2 ->
  forall (history : list Turn) (totalTokens : Z),
  exists kept1 older,
    scan newest_first max1 history totalTokens = Returned kept1
    /\ scan newest_first max2 history totalTokens = Returned (older ++ kept1)%list.
Proof.
  intros Htyped Hle.
  induction newest_first as [|msg rest IH]; intros history totalTokens; cbn [scan].
  - exists history, []. split; reflexivity.
  - assert (Hrest : forall m, In m rest -> scan_message m <> Raised)
      by (intros m Hin; apply Htyped; right; exact Hin).
    specialize (IH Hrest).
    pose proof (Htyped msg (or_introl eq_refl)) as Hmsg.
    destruct (scan_message msg) as [| |t msgTokens].
    + apply IH.
    + contradiction.
    + cbv zeta.
      destruct (negb (List.length history <? MIN_HISTORY_MESSAGES)%nat) eqn:Hrecent;
        cbn [andb]; [|apply IH].
      destruct (Z.gtb_spec (totalTokens + msgTokens) max1) as [Hover1|Hfit1];
        destruct (Z.gtb_spec (totalTokens + msgTokens) max2) as [Hover2|Hfit2];
        try lia.
      * exists history, []. split; reflexivity.
      * exists history.
        destruct (IH (t :: history) (totalTokens + msgTokens)) as (k & o & _ & H2).
        destruct (scan_extends _ _ _ _ _ H2) as (more & Hmore).
        exists (more ++ [t])%list. split; [reflexivity|].
        rewrite H2, Hmore, <- app_assoc. reflexivity.
      * apply IH.
Qed.

(** X6.  A larger allowance never loses a turn: for a channel whose
    messages all decode, the history assembled under the smaller of two
    allowances is the most recent part of the one assembled under the
    larger. *)
Theorem larger_allowance_keeps_more (messages : list Message) (max1 max2 : Z) :
  well_typed messages ->
  max1 <= max2 ->
  exists older,
    getConversationHistory (ChannelOk (Some messages)) max2
    = (older ++ getConversationHistory (ChannelOk (Some messages)) max1)%list.
Proof.
  intros Htyped Hle. unfold getConversationHistory.
  destruct messages as [|m0 rest] eqn:Hm; [exists []; reflexivity|].
  rewrite <- Hm in Htyped. rewrite <- Hm.
  assert (Hrev : forall msg, In msg (rev messages) -> scan_message msg <> Raised).
  { intros msg Hin. apply Htyped. apply (proj2 (in_rev messages msg)). exact Hin. }
  destruct (scan_monotone (rev messages) max1 max2 Hrev Hle [] 0) as (k & o & -> & ->).
  exists o. reflexivity.
Qed.

End MoreHistoryFacts.

(* ================================================================== *)
(** * Further properties: the history of the agent without retrieval *)
(* ================================================================== *)

Section FlatHistoryFacts.
Context {RT : JsRuntime}.

Lemma content_length_app (a b : list Turn) :
  GroqAgent.content_length (a ++ b)%list
  = GroqAgent.content_length a + GroqAgent.content_length b.
Proof.
  unfold GroqAgent.content_length.
  induction a as [|t a IH]; cbn [app fold_right]; [reflexivity|]. rewrite IH. lia.
Qed.

(** The loop, from any state in which the running total is the length
    of the history built so far: it takes a first part of the turns the
    messages decode to, appends it, and stops at the first turn that
    does not fit. *)
Lemma flat_scan_characterised (messages : list Message) :
  (forall msg, In msg messages -> scan_message msg <> Raised) ->
  forall (history : list Turn) (totalLength : Z),
    totalLength = GroqAgent.content_length history ->
    exists taken rest,
      decodable messages = (taken ++ rest)%list
      /\ GroqAgent.scan messages history totalLength = Returned (history ++ taken)%list
      /\ (forall t rest', rest = t :: rest' ->
            GroqAgent.MAX_CONTEXT_LENGTH
            < GroqAgent.content_length (history ++ taken)%list + Js.len (content t)).
Proof.
  induction messages as [|msg older IH]; intros Htyped history totalLength Htotal;
    cbn [GroqAgent.scan decodable].
  - exists [], []. rewrite !app_nil_r.
    refine (conj eq_refl (conj eq_refl _)). intros t rest' H. discriminate.
  - assert (Holder : forall m, In m older -> scan_message m <> Raised)
      by (intros m Hin; apply Htyped; right; exact Hin).
    pose proof (Htyped msg (or_introl eq_refl)) as Hmsg.
    destruct (scan_message msg) as [| |t msgTokens].
    + apply IH; assumption.
    + contradiction.
    + destruct (Z.gtb_spec (totalLength + Js.len (content t)) GroqAgent.MAX_CONTEXT_LENGTH)
        as [Hover|Hfit].
      * exists [], (t :: decodable older). rewrite !app_nil_r.
        refine (conj eq_refl (conj eq_refl _)).
        intros t' rest' H. injection H as <- _. lia.
      * destruct (IH Holder (history ++ [t])%list (totalLength + Js.len (content t)))
          as (taken & rest & Hdec & Hscan & Hstop).
        { rewrite content_length_app, Htotal. unfold GroqAgent.content_length.
          cbn [fold_right]. lia. }
        exists (t :: taken), rest. rewrite Hdec, Hscan, <- app_assoc.
        refine (conj eq_refl (conj eq_refl _)).
        intros t' rest' H. rewrite <- app_assoc in Hstop.
        exact (Hstop t' rest' H).
Qed.

(** The running total never passes the cap. *)
Lemma flat_scan_within_cap (messages : list Message) :
  forall (history result : list Turn) (totalLength : Z),
    totalLength = GroqAgent.content_length history ->
    totalLength <= GroqAgent.MAX_CONTEXT_LENGTH ->
    GroqAgent.scan messages history totalLength = Returned result ->
    GroqAgent.content_length result <= GroqAgent.MAX_CONTEXT_LENGTH.
Proof.
  induction messages as [|msg older IH]; intros history result totalLength Htotal Hcap;
    cbn [GroqAgent.scan].
  - intros H. injection H as <-. lia.
  - destruct (scan_message msg) as [| |t msgTokens].
    + apply IH; assumption.
    + discriminate.
    + destruct (Z.gtb_spec (totalLength + Js.len (content t)) GroqAgent.MAX_CONTEXT_LENGTH)
        as [Hover|Hfit].
      * intros H. injection H as <-. lia.
      * apply IH; [|exact Hfit].
        rewrite content_length_app, Htotal. unfold GroqAgent.content_length.
        cbn [fold_right]. lia.
Qed.

Lemma content_length_nonneg (h : list Turn) : 0 <= GroqAgent.content_length h.
Proof.
  unfold GroqAgent.content_length.
  induction h as [|t h IH]; cbn [fold_right]; [lia|].
  pose proof (len_nonneg (content t)). lia.
Qed.

(** The loop throws when it comes to a message that does not decode to
    a string: the messages before it all decode and fit the cap. *)
Lemma flat_scan_throws (pre : list Message) (bad : Message) (post : list Message) :
  scan_message bad = Raised ->
  (forall msg, In msg pre -> scan_message msg <> Raised) ->
  forall (history : list Turn) (totalLength : Z),
    totalLength + GroqAgent.content_length (decodable pre)
    <= GroqAgent.MAX_CONTEXT_LENGTH ->
    exists err,
      GroqAgent.scan (pre ++ bad :: post) history totalLength = Thrown err.
Proof.
  intros Hbad.
  induction pre as [|msg pre IH]; intros Hpre history totalLength Hfit;
    cbn [app GroqAgent.scan decodable] in *.
  - rewrite Hbad. eexists. reflexivity.
  - assert (Hrest : forall m, In m pre -> scan_message m <> Raised)
      by (intros m Hin; apply Hpre; right; exact Hin).
    pose proof (Hpre msg (or_introl eq_refl)) as Hmsg.
    destruct (scan_message msg) as [| |t msgTokens].
    + apply IH; assumption.
    + contradiction.
    + pose proof (content_length_nonneg (decodable pre)) as Hnonneg.
      unfold GroqAgent.content_length in Hfit. cbn [fold_right] in Hfit.
      fold (GroqAgent.content_length (decodable pre)) in Hfit.
      destruct (Z.gtb_spec (totalLength + Js.len (content t)) GroqAgent.MAX_CONTEXT_LENGTH)
        as [Hover|_]; [lia|].
      apply IH; [exact Hrest|lia].
Qed.

(** X7.  The history of the agent without retrieval never holds more
    than 6000 characters of content, whatever the channel returns.  It
    is empty when the channel query fails or returns no messages, and
    when the loop comes to a message whose text does not decode to a
    string (the messages read before it, the more recent ones, all
    decode and fit the cap): the exception is caught and nothing of the
    history is kept. *)
Theorem flat_history_within_cap (reply : ChannelReply) :
  GroqAgent.content_length (GroqAgent.getConversationHistory reply)
  <= GroqAgent.MAX_CONTEXT_LENGTH
  /\ GroqAgent.getConversationHistory ChannelThrows = []
  /\ GroqAgent.getConversationHistory (ChannelOk None) = []
  /\ (forall messages pre bad post,
        rev messages = (pre ++ bad :: post)%list ->
        scan_message bad = Raised ->
        (forall msg, In msg pre -> scan_message msg <> Raised) ->
        GroqAgent.content_length (decodable pre) <= GroqAgent.MAX_CONTEXT_LENGTH ->
        GroqAgent.getConversationHistory (ChannelOk (Some messages)) = []).
Proof.
  refine (conj _ (conj eq_refl (conj eq_refl _))).
  - unfold GroqAgent.getConversationHistory.
    destruct reply as [|[[|m0 rest]|]]; try (vm_compute; discriminate).
    destruct (GroqAgent.scan (rev (m0 :: rest)) [] 0) as [history|err|] eqn:E;
      try (vm_compute; discriminate).
    apply (flat_scan_within_cap (rev (m0 :: rest)) [] history 0);
      [reflexivity|vm_compute; discriminate|exact E].
  - intros messages pre bad post Hrev Hbad Hpre Hfit.
    unfold GroqAgent.getConversationHistory.
    destruct messages as [|m0 rest] eqn:Hm; [reflexivity|]. rewrite <- Hm in *.
    rewrite Hrev.
    destruct (flat_scan_throws pre bad post Hbad Hpre [] 0) as (err & ->);
      [lia|reflexivity].
Qed.

(** X8.  The history of the agent without retrieval is read from the
    end of the channel's list: for a channel whose messages all decode
    it is a first part of the decoded turns in reverse channel order,
    in that order, and it ends where the next turn would pass the cap of
    6000 characters. *)
Theorem flat_history_is_newest_first (messages : list Message) :
  well_typed messages ->
  let kept := GroqAgent.getConversationHistory (ChannelOk (Some messages)) in
  exists dropped,
    rev (decodable messages) = (kept ++ dropped)%list
    /\ (forall t rest, dropped = t :: rest ->
          GroqAgent.MAX_CONTEXT_LENGTH
          < GroqAgent.content_length kept + Js.len (content t)).
Proof.
  intros Htyped. cbv zeta. unfold GroqAgent.getConversationHistory.
  destruct messages as [|m0 rest] eqn:Hm.
  - exists []. split; [reflexivity|]. intros t rest' H. discriminate.
  - rewrite <- Hm in Htyped. rewrite <- Hm.
    assert (Hrev : forall msg, In msg (rev messages) -> scan_message msg <> Raised).
    { intros msg Hin. apply Htyped. apply (proj2 (in_rev messages msg)). exact Hin. }
    destruct (flat_scan_characterised (rev messages) Hrev [] 0 eq_refl)
      as (taken & dropped & Hdec & Hscan & Hstop).
    rewrite Hscan. cbn [app] in *. rewrite decodable_rev in Hdec.
    exists dropped. split; [exact Hdec|exact Hstop].
Qed.

End FlatHistoryFacts.

(* ================================================================== *)
(** * Further properties: the accumulator of tool calls *)
(* ================================================================== *)

Lemma slot_some_in_range (toolCalls : ToolCalls) (i : nat) (c : ToolCall) :
  slot toolCalls i = Some c -> (i < List.length toolCalls)%nat.
Proof.
  unfold slot. revert i.
  induction toolCalls as [|x rest IH]; intros [|i]; cbn [nth List.length];
    try discriminate; try lia.
  intros H. specialize (IH i H). lia.
Qed.

Lemma length_store (toolCalls : ToolCalls) (i : nat) (v : ToolCall) :
  List.length (store toolCalls i v) = Nat.max (List.length toolCalls) (S i).
Proof.
  revert toolCalls.
  induction i as [|i IH]; intros [|x rest]; cbn [store List.length]; try lia.
  - rewrite IH. cbn [List.length]. lia.
  - rewrite IH. lia.
Qed.

Lemma length_amend (toolCalls : ToolCalls) (i : nat) (f : ToolCall -> ToolCall) :
  List.length (amend toolCalls i f) = List.length toolCalls.
Proof.
  unfold amend. destruct (slot toolCalls i) as [c|] eqn:E; [|reflexivity].
  rewrite length_store. apply slot_some_in_range in E. lia.
Qed.

Lemma slot_amend_other (toolCalls : ToolCalls) (i j : nat) (f : ToolCall -> ToolCall) :
  i <> j -> slot (amend toolCalls i f) j = slot toolCalls j.
Proof.
  intros Hne. unfold amend. destruct (slot toolCalls i); [|reflexivity].
  apply slot_store_other. exact Hne.
Qed.

Lemma length_merge_delta (now : Z) (toolCalls : ToolCalls) (tc : ToolCallDelta) :
  List.length (merge_delta now toolCalls tc)
  = match tc_index tc with
    | Some i => Nat.max (List.length toolCalls) (S i)
    | None => List.length toolCalls
    end.
Proof.
  unfold merge_delta. destruct (tc_index tc) as [index|]; [|reflexivity].
  assert (Hcreated :
            List.length
              match slot toolCalls index with
              | Some _ => toolCalls
              | None =>
                  store toolCalls index
                    {| call_id := Js.or_else (tc_id tc)
                                    ("call_" ++ Js.of_Z now ++ "_" ++ Js.of_nat index);
                       fn_name := EmptyString; fn_arguments := EmptyString |}
              end
            = Nat.max (List.length toolCalls) (S index)).
  { destruct (slot toolCalls index) as [c|] eqn:E.
    - apply slot_some_in_range in E. lia.
    - apply length_store. }
  destruct (tc_name tc) as [n|]; destruct (tc_arguments tc) as [a|];
    repeat match goal with
           | |- context [if ?b then _ else _] => destruct b
           end;
    rewrite ?length_amend; exact Hcreated.
Qed.

Lemma length_merge_deltas (now : Z) (tcs : list ToolCallDelta) (toolCalls : ToolCalls) :
  List.length (merge_deltas now toolCalls tcs)
  = Nat.max (List.length toolCalls) (extent tcs).
Proof.
  unfold merge_deltas. revert toolCalls.
  induction tcs as [|tc tcs IH]; intros toolCalls; cbn [fold_left extent fold_right].
  - lia.
  - rewrite IH, length_merge_delta. fold (extent tcs).
    destruct (tc_index tc); lia.
Qed.

Lemma extent_app (a b : list ToolCallDelta) :
  extent (a ++ b)%list = Nat.max (extent a) (extent b).
Proof.
  unfold extent. induction a as [|tc a IH]; cbn [app fold_right]; [lia|].
  rewrite IH. destruct (tc_index tc); lia.
Qed.

Lemma take_tool_calls_merge (chunk : Chunk) (toolCalls : ToolCalls) :
  take_tool_calls chunk toolCalls
  = merge_deltas (c_now chunk) toolCalls (chunk_deltas chunk).
Proof.
  unfold take_tool_calls, chunk_deltas. destruct (c_tool_calls chunk); reflexivity.
Qed.

Lemma length_stream (chunks : list Chunk) (toolCalls : ToolCalls) :
  List.length (fold_left (fun tcs chunk => take_tool_calls chunk tcs) chunks toolCalls)
  = Nat.max (List.length toolCalls) (extent (stream_deltas chunks)).
Proof.
  revert toolCalls.
  induction chunks as [|chunk rest IH]; intros toolCalls;
    cbn [fold_left stream_deltas flat_map].
  - cbn. lia.
  - rewrite IH, take_tool_calls_merge, length_merge_deltas, extent_app.
    fold (stream_deltas rest). lia.
Qed.

(** X9.  The array of tool calls at the end of a stream is as long as
    the highest index that a delta of the stream named, plus one, and
    empty when no delta named an index: names, arguments and ids play no
    part in whether a round counts as a tool round. *)
Theorem tool_calls_extent (chunks : list Chunk) :
  List.length (stream_tool_calls chunks) = extent (stream_deltas chunks).
Proof.
  unfold stream_tool_calls. rewrite length_stream. cbn [List.length]. lia.
Qed.

(** The id of an accumulated call survives every update in place. *)
Lemma slot_amend_id (toolCalls : ToolCalls) (index i : nat) (f : ToolCall -> ToolCall)
    (c : ToolCall) :
  (forall x, call_id (f x) = call_id x) ->
  slot toolCalls i = Some c ->
  exists c', slot (amend toolCalls index f) i = Some c' /\ call_id c' = call_id c.
Proof.
  intros Hf Hc. destruct (Nat.eq_dec index i) as [->|Hne].
  - rewrite slot_amend_same, Hc. cbn. eexists. split; [reflexivity|apply Hf].
  - rewrite slot_amend_other by exact Hne. exists c. split; [exact Hc|reflexivity].
Qed.

Lemma merge_delta_updates (now : Z) (created : ToolCalls) (tc : ToolCallDelta)
    (index i : nat) (c : ToolCall) :
  slot created i = Some c ->
  exists c',
    slot
      (match tc_arguments tc with
       | Some frag =>
           if Js.truthy frag
           then amend
                  (match tc_name tc with
                   | Some frag0 =>
                       if Js.truthy frag0 then amend created index (append_name frag0)
                       else created
                   | None => created
                   end) index (append_arguments frag)
           else match tc_name tc with
                | Some frag0 =>
                    if Js.truthy frag0 then amend created index (append_name frag0)
                    else created
                | None => created
                end
       | None =>
           match tc_name tc with
           | Some frag0 =>
               if Js.truthy frag0 then amend created index (append_name frag0)
               else created
           | None => created
           end
       end) i = Some c'
    /\ call_id c' = call_id c.
Proof.
  intros Hc.
  assert (Hnamed : exists c1,
             slot (match tc_name tc with
                   | Some frag0 =>
                       if Js.truthy frag0 then amend created index (append_name frag0)
                       else created
                   | None => created
                   end) i = Some c1 /\ call_id c1 = call_id c).
  { destruct (tc_name tc) as [n|]; [destruct (Js.truthy n)|];
      try (exists c; split; [exact Hc|reflexivity]).
    apply slot_amend_id; [reflexivity|exact Hc]. }
  destruct Hnamed as (c1 & H1 & Hid1).
  destruct (tc_arguments tc) as [a|]; [destruct (Js.truthy a)|];
    try (exists c1; split; [exact H1|exact Hid1]).
  destruct (slot_amend_id _ index i (append_arguments a) c1 (fun _ => eq_refl) H1)
    as (c2 & H2 & Hid2).
  exists c2. split; [exact H2|]. rewrite Hid2. exact Hid1.
Qed.

Lemma merge_delta_keeps_id (now : Z) (toolCalls : ToolCalls) (tc : ToolCallDelta)
    (i : nat) (c : ToolCall) :
  slot toolCalls i = Some c ->
  exists c', slot (merge_delta now toolCalls tc) i = Some c' /\ call_id c' = call_id c.
Proof.
  intros Hc. unfold merge_delta.
  destruct (tc_index tc) as [index|]; [|exists c; split; [exact Hc|reflexivity]].
  apply merge_delta_updates; [exact now|].
  destruct (slot toolCalls index) as [c0|] eqn:E; [exact Hc|].
  rewrite slot_store_other; [exact Hc|]. intros ->. rewrite E in Hc. discriminate.
Qed.

Lemma merge_delta_names_call (now : Z) (toolCalls : ToolCalls) (tc : ToolCallDelta)
    (i : nat) :
  slot toolCalls i = None ->
  tc_index tc = Some i ->
  exists c,
    slot (merge_delta now toolCalls tc) i = Some c
    /\ call_id c = Js.or_else (tc_id tc) ("call_" ++ Js.of_Z now ++ "_" ++ Js.of_nat i).
Proof.
  intros Hnone Hindex. unfold merge_delta. rewrite Hindex, Hnone.
  match goal with
  | |- context [store toolCalls i ?fresh] =>
      destruct (merge_delta_updates now (store toolCalls i fresh) tc i i fresh
                  (slot_store_same toolCalls i fresh)) as (c' & H & Hid)
  end.
  exists c'. split; [exact H|exact Hid].
Qed.

Lemma merge_delta_elsewhere (now : Z) (toolCalls : ToolCalls) (tc : ToolCallDelta)
    (i : nat) :
  at_index i tc = false -> slot (merge_delta now toolCalls tc) i = slot toolCalls i.
Proof.
  unfold at_index, merge_delta. destruct (tc_index tc) as [index|]; [|reflexivity].
  intros Hne. apply Nat.eqb_neq in Hne.
  assert (Hne' : index <> i) by (intros ->; apply Hne; reflexivity).
  assert (Hcreated :
            slot match slot toolCalls index with
                 | Some _ => toolCalls
                 | None =>
                     store toolCalls index
                       {| call_id := Js.or_else (tc_id tc)
                                       ("call_" ++ Js.of_Z now ++ "_" ++ Js.of_nat index);
                          fn_name := EmptyString; fn_arguments := EmptyString |}
                 end i = slot toolCalls i).
  { destruct (slot toolCalls index); [reflexivity|]. apply slot_store_other. exact Hne'. }
  destruct (tc_name tc) as [n|]; destruct (tc_arguments tc) as [a|];
    repeat match goal with
           | |- context [if ?b then _ else _] => destruct b
           end;
    rewrite ?slot_amend_other by exact Hne'; exact Hcreated.
Qed.

Lemma merge_deltas_keep_id (now : Z) (tcs : list ToolCallDelta) :
  forall (toolCalls : ToolCalls) (i : nat) (c : ToolCall),
    slot toolCalls i = Some c ->
    exists c', slot (merge_deltas now toolCalls tcs) i = Some c' /\ call_id c' = call_id c.
Proof.
  unfold merge_deltas.
  induction tcs as [|tc tcs IH]; intros toolCalls i c Hc; cbn [fold_left].
  - exists c. split; [exact Hc|reflexivity].
  - destruct (merge_delta_keeps_id now toolCalls tc i c Hc) as (c1 & H1 & Hid1).
    destruct (IH _ i c1 H1) as (c2 & H2 & Hid2).
    exists c2. split; [exact H2|]. rewrite Hid2. exact Hid1.
Qed.

Lemma merge_deltas_elsewhere (now : Z) (tcs : list ToolCallDelta) :
  forall (toolCalls : ToolCalls) (i : nat),
    existsb (at_index i) tcs = false ->
    slot (merge_deltas now toolCalls tcs) i = slot toolCalls i.
Proof.
  unfold merge_deltas.
  induction tcs as [|tc tcs IH]; intros toolCalls i; cbn [fold_left existsb];
    [reflexivity|].
  intros H. apply orb_false_iff in H. destruct H as [Htc Hrest].
  rewrite IH by exact Hrest. apply merge_delta_elsewhere. exact Htc.
Qed.

Lemma stream_keeps_id (chunks : list Chunk) :
  forall (toolCalls : ToolCalls) (i : nat) (c : ToolCall),
    slot toolCalls i = Some c ->
    exists c',
      slot (fold_left (fun tcs chunk => take_tool_calls chunk tcs) chunks toolCalls) i
      = Some c'
      /\ call_id c' = call_id c.
Proof.
  induction chunks as [|chunk rest IH]; intros toolCalls i c Hc; cbn [fold_left].
  - exists c. split; [exact Hc|reflexivity].
  - rewrite take_tool_calls_merge.
    destruct (merge_deltas_keep_id (c_now chunk) (chunk_deltas chunk) toolCalls i c Hc)
      as (c1 & H1 & Hid1).
    destruct (IH _ i c1 H1) as (c2 & H2 & Hid2).
    exists c2. split; [exact H2|]. rewrite Hid2. exact Hid1.
Qed.

Lemma stream_elsewhere (chunks : list Chunk) :
  forall (toolCalls : ToolCalls) (i : nat),
    existsb (at_index i) (stream_deltas chunks) = false ->
    slot (fold_left (fun tcs chunk => take_tool_calls chunk tcs) chunks toolCalls) i
    = slot toolCalls i.
Proof.
  induction chunks as [|chunk rest IH]; intros toolCalls i;
    cbn [fold_left stream_deltas flat_map]; [reflexivity|].
  rewrite existsb_app. intros H. apply orb_false_iff in H. destruct H as [Hchunk Hrest].
  rewrite IH by exact Hrest. rewrite take_tool_calls_merge.
  apply merge_deltas_elsewhere. exact Hchunk.
Qed.

(** X10.  The id of an accumulated call is settled by the first delta
    that names its index: it is the id that delta carries or, when it
    carries none (or an empty one), the synthetic id made of the clock
    reading of that chunk and the index.  No later delta changes it,
    whatever id it carries. *)
Theorem call_id_is_settled_by_first_delta
    (before : list Chunk) (chunk : Chunk) (after : list Chunk)
    (pre : list ToolCallDelta) (tc : ToolCallDelta) (post : list ToolCallDelta)
    (i : nat) :
  existsb (at_index i) (stream_deltas before) = false ->
  chunk_deltas chunk = (pre ++ tc :: post)%list ->
  existsb (at_index i) pre = false ->
  tc_index tc = Some i ->
  exists c,
    slot (stream_tool_calls (before ++ chunk :: after)%list) i = Some c
    /\ call_id c
       = Js.or_else (tc_id tc)
           ("call_" ++ Js.of_Z (c_now chunk) ++ "_" ++ Js.of_nat i).
Proof.
  intros Hbefore Hchunk Hpre Hindex.
  unfold stream_tool_calls. rewrite fold_left_app. cbn [fold_left].
  rewrite take_tool_calls_merge, Hchunk.
  unfold merge_deltas at 1. rewrite fold_left_app. cbn [fold_left].
  fold (merge_deltas (c_now chunk)
          (fold_left (fun tcs chunk0 => take_tool_calls chunk0 tcs) before []) pre).
  assert (Hnone : slot (merge_deltas (c_now chunk)
                          (fold_left (fun tcs chunk0 => take_tool_calls chunk0 tcs) before [])
                          pre) i = None).
  { rewrite merge_deltas_elsewhere by exact Hpre.
    rewrite stream_elsewhere by exact Hbefore. apply slot_nil. }
  destruct (merge_delta_names_call (c_now chunk) _ tc i Hnone Hindex) as (c1 & H1 & Hid1).
  fold (merge_deltas (c_now chunk)
          (merge_delta (c_now chunk)
             (merge_deltas (c_now chunk)
                (fold_left (fun tcs chunk0 => take_tool_calls chunk0 tcs) before []) pre)
             tc) post).
  destruct (merge_deltas_keep_id (c_now chunk) post _ i c1 H1) as (c2 & H2 & Hid2).
  destruct (stream_keeps_id after _ i c2 H2) as (c3 & H3 & Hid3).
  exists c3. split; [exact H3|]. rewrite Hid3, Hid2. exact Hid1.
Qed.

(* ================================================================== *)
(** * Further properties: the stream loop and the rounds of a turn *)
(* ================================================================== *)

Section MoreLoopFacts.
Context {RT : JsRuntime}.
Variable w : World.
Variable env : Turning.

Lemma requests_app (a b : list Event) :
  requests (a ++ b)%list = (requests a ++ requests b)%list.
Proof. unfold requests. apply flat_map_app. Qed.

Lemma inner_events_no_request (t : list Event) :
  forallb inner_event t = true -> requests t = [].
Proof.
  induction t as [|e t IH]; [reflexivity|].
  cbn [forallb]. intros H. apply andb_true_iff in H. destruct H as [He Ht].
  unfold requests in *. cbn [flat_map]. rewrite (IH Ht), app_nil_r.
  destruct e as [| | |[|]| | |]; try discriminate; reflexivity.
Qed.

(** X11.  While a stream is read, a preview is published only when more
    than a second has passed since the last update: a stream whose
    chunks all arrive within 1000 ms of the last update publishes
    nothing, leaves the time of the last update as it was, and still
    accumulates all of its content and tool calls. *)
Theorem no_preview_within_a_second
    (chunks : list Chunk) (accumulatedText currentContent : string)
    (toolCalls : ToolCalls) (lastUpdate : Z) :
  forallb (fun chunk => (c_now chunk - lastUpdate <=? 1000)%Z) chunks = true ->
  consume chunks accumulatedText currentContent toolCalls lastUpdate
  = ([], Returned (currentContent ++ stream_content chunks,
                   fold_left (fun tcs chunk => take_tool_calls chunk tcs) chunks toolCalls,
                   lastUpdate)).
Proof.
  revert currentContent toolCalls.
  induction chunks as [|chunk rest IH]; intros currentContent toolCalls;
    cbn [consume forallb fold_left].
  - intros _. unfold stream_content. cbn. rewrite append_empty_r. reflexivity.
  - intros H. apply andb_true_iff in H. destruct H as [Hchunk Hrest].
    apply Z.leb_le in Hchunk.
    assert (Htake : take_content chunk accumulatedText currentContent lastUpdate
                    = ([], Returned (currentContent ++ fragment (c_content chunk),
                                     lastUpdate))).
    { unfold take_content. destruct (c_content chunk) as [piece|]; cbn [fragment].
      - destruct (Js.truthy piece) eqn:T.
        + destruct (Z.gtb_spec (c_now chunk - lastUpdate) 1000); [lia|reflexivity].
        + rewrite (not_truthy_empty _ T), append_empty_r. reflexivity.
      - rewrite append_empty_r. reflexivity. }
    rewrite Htake. cbn [bind fst snd]. rewrite (IH _ _ Hrest).
    unfold stream_content. cbn [map Js.concat fold_right app].
    rewrite append_assoc. reflexivity.
Qed.

(** X12.  Every preview shows the text accumulated before the round
    followed by a first part of the content of the round's stream:
    nothing is previewed that the stream did not deliver, and nothing
    out of order. *)
Theorem previews_show_a_prefix
    (chunks : list Chunk) (accumulatedText currentContent : string)
    (toolCalls : ToolCalls) (lastUpdate : Z) :
  Forall (fun e =>
            exists shown rest,
              e = PartialUpdateMessage Preview (accumulatedText ++ currentContent ++ shown)
              /\ stream_content chunks = shown ++ rest)
    (trace (consume chunks accumulatedText currentContent toolCalls lastUpdate)).
Proof.
  revert currentContent toolCalls lastUpdate.
  induction chunks as [|chunk rest IH]; intros currentContent toolCalls lastUpdate;
    cbn [consume].
  - constructor.
  - rewrite trace_bind. apply Forall_app. split.
    + unfold take_content. destruct (c_content chunk) as [piece|] eqn:Hpiece; [|constructor].
      destruct (Js.truthy piece); [|constructor].
      destruct (c_now chunk - lastUpdate >? 1000); [|constructor].
      cbn. constructor; [|constructor].
      exists piece, (stream_content rest). split; [reflexivity|].
      unfold stream_content. cbn [map Js.concat fold_right]. rewrite Hpiece. reflexivity.
    + assert (Htake : exists lu',
                 outcome (take_content chunk accumulatedText currentContent lastUpdate)
                 = Returned (currentContent ++ fragment (c_content chunk), lu')).
      { unfold take_content. destruct (c_content chunk) as [piece|]; cbn [fragment].
        - destruct (Js.truthy piece) eqn:T.
          + destruct (c_now chunk - lastUpdate >? 1000); cbn; eexists; reflexivity.
          + rewrite (not_truthy_empty _ T), append_empty_r. cbn. eexists. reflexivity.
        - rewrite append_empty_r. cbn. eexists. reflexivity. }
      destruct Htake as (lu' & ->). cbn [fst snd].
      eapply Forall_impl; [|apply IH].
      intros e (shown & rest' & -> & Hrest).
      exists (fragment (c_content chunk) ++ shown), rest'. split.
      * rewrite !append_assoc. reflexivity.
      * unfold stream_content in *. cbn [map Js.concat fold_right].
        fold (Js.concat (map (fun chunk0 => fragment (c_content chunk0)) rest)).
        rewrite Hrest, append_assoc. reflexivity.
Qed.


Lemma rounds_first_request (fuel : nat) (conversationMessages : list ChatMessage)
    (accumulatedText : string) (lastUpdate : Z) :
  exists later,
    requests (trace (rounds w env (S fuel) conversationMessages accumulatedText lastUpdate))
    = conversationMessages :: later.
Proof.
  cbn [rounds]. cbv zeta. rewrite trace_bind, requests_app.
  cbn [emit trace outcome fst snd]. eexists. reflexivity.
Qed.

(** A call that cannot be read ends the round with an exception. *)
Lemma dispatch_unreadable (toolCalls : ToolCalls) :
  forall toolResults,
    existsb unreadable toolCalls = true ->
    exists err, outcome (dispatch w env toolCalls toolResults) = Thrown err.
Proof.
  induction toolCalls as [|toolCall rest IH]; intros toolResults; cbn [existsb dispatch];
    [discriminate|].
  rewrite outcome_bind.
  destruct (unreadable toolCall) eqn:Hcall; cbn [orb].
  - intros _. unfold unreadable in Hcall. unfold dispatch_call.
    destruct toolCall as [call|]; [|cbn; eexists; reflexivity].
    destruct (JSON_parse (fn_arguments call)); [discriminate|].
    cbn. eexists. reflexivity.
  - intros Hrest.
    destruct (dispatch_call_effect w env toolCall toolResults) as (_ & Hfuel & _).
    destruct (outcome (dispatch_call w env toolCall toolResults)) as [results'|err|].
    + apply IH. exact Hrest.
    + eexists. reflexivity.
    + contradiction.
Qed.

Lemma rounds_unreadable (fuel : nat) (conversationMessages : list ChatMessage)
    (accumulatedText : string) (lastUpdate : Z) (chunks : list Chunk) :
  completions_create w conversationMessages = Streams chunks true ->
  existsb unreadable (stream_tool_calls chunks) = true ->
  (exists err,
      outcome (rounds w env (S fuel) conversationMessages accumulatedText lastUpdate)
      = Thrown err)
  /\ requests (trace (rounds w env (S fuel) conversationMessages accumulatedText lastUpdate))
     = [conversationMessages].
Proof.
  intros Hreply Hbad. cbn [rounds]. cbv zeta.
  rewrite trace_bind, outcome_bind, requests_app. cbn [emit trace outcome fst snd].
  rewrite Hreply. rewrite trace_bind, outcome_bind, requests_app.
  destruct (consume_effect chunks accumulatedText EmptyString [] lastUpdate)
    as (lastUpdate' & -> & Hinner & _).
  rewrite (inner_events_no_request _ Hinner). cbn [app negb].
  fold (stream_tool_calls chunks).
  destruct (stream_tool_calls chunks) as [|toolCall rest] eqn:Hcalls; [discriminate|].
  rewrite <- Hcalls in *. rewrite trace_bind, outcome_bind, requests_app.
  destruct (dispatch_effect w env (stream_tool_calls chunks) []) as (Hin & _).
  rewrite (inner_events_no_request _ Hin). cbn [app].
  destruct (dispatch_unreadable (stream_tool_calls chunks) [] Hbad) as (err & ->).
  split; [exists err; reflexivity|reflexivity].
Qed.

End MoreLoopFacts.

Section MoreTurnFacts.
Context {RT : JsRuntime}.
Variable w : World.

(** A turn, with the locals of the loop spelled out. *)
Lemma turn_answer (fuel : nat) (userMessage : string) (la lo : option number) :
  exists place prompt conversationHistory,
    let env := {| message := userMessage; lat := la; long := lo;
                  locationName := place |} in
    trace (turn w fuel userMessage la lo)
    = ([SendMessage EmptyString; IndicatorUpdate "AI_STATE_THINKING"]
       ++ trace (answer w env fuel prompt conversationHistory))%list
    /\ outcome (turn w fuel userMessage la lo)
       = outcome (answer w env fuel prompt conversationHistory).
Proof.
  unfold turn. cbv zeta. do 3 eexists.
  rewrite !trace_bind, !outcome_bind. cbn [emit trace outcome fst snd app].
  split; reflexivity.
Qed.

(** The requests of a turn are those of its loop. *)
Lemma answer_requests (env : Turning) (fuel : nat) (prompt : string)
    (conversationHistory : list Turn) :
  requests (trace (answer w env fuel prompt conversationHistory))
  = requests (trace (rounds w env fuel (first_request env prompt conversationHistory)
                       EmptyString (clock_start w))).
Proof.
  destruct (answer_effect w env fuel prompt conversationHistory) as (-> & _).
  rewrite requests_app.
  destruct (outcome (rounds w env fuel (first_request env prompt conversationHistory)
                       EmptyString (clock_start w))); cbn; rewrite app_nil_r; reflexivity.
Qed.


(** X14.  A tool call that cannot be read (a hole that the indices of
    the deltas left in the array, or arguments that are no JSON text)
    ends the turn on the error path: with a provider that answers with a
    stream holding such a call, the turn makes its one request, signals
    the error state, publishes the fixed fallback answer and returns. *)
Theorem unreadable_tool_call_ends_in_fallback
    (fuel : nat) (userMessage : string) (la lo : option number) (chunks : list Chunk) :
  (forall messages, completions_create w messages = Streams chunks true) ->
  existsb unreadable (stream_tool_calls chunks) = true ->
  outcome (turn w (S fuel) userMessage la lo) = Returned tt
  /\ error_path (trace (turn w (S fuel) userMessage la lo))
  /\ List.length (requests (trace (turn w (S fuel) userMessage la lo))) = 1%nat.
Proof.
  intros Hreply Hbad.
  destruct (turn_answer (S fuel) userMessage la lo) as (place & prompt & h & Ht & Ho).
  cbv zeta in Ht, Ho.
  set (env := {| message := userMessage; lat := la; long := lo;
                 locationName := place |}) in *.
  destruct (answer_effect w env (S fuel) prompt h) as (Hat & Hao).
  cbv zeta in Hat, Hao.
  destruct (rounds_unreadable w env fuel (first_request env prompt h) EmptyString
              (clock_start w) chunks (Hreply _) Hbad) as ((err & Hthrown) & Hreq).
  destruct (rounds_effect w env (S fuel) (first_request env prompt h) EmptyString
              (clock_start w)) as (Hloop & _).
  cbv zeta in Hloop.
  destruct (loop_events_quiet _ Hloop) as (_ & _ & Hclear).
  rewrite Hthrown in Hat, Hao.
  refine (conj _ (conj _ _)).
  - rewrite Ho. exact Hao.
  - rewrite Ht, Hat. unfold error_path.
    exists ([SendMessage EmptyString; IndicatorUpdate "AI_STATE_THINKING"]
            ++ trace (rounds w env (S fuel) (first_request env prompt h) EmptyString
                        (clock_start w)))%list.
    split; [rewrite <- app_assoc; reflexivity|].
    rewrite !existsb_app, Hclear. reflexivity.
  - rewrite Ht, requests_app. cbn [requests flat_map app].
    fold (requests (trace (answer w env (S fuel) prompt h))).
    rewrite answer_requests, Hreq. reflexivity.
Qed.

(** X15.  No exception escapes the handler: whatever the provider, the
    tools and the payloads of the tool calls do, a handled event ends by
    returning (the model's only other ending is that the loop has not
    ended within the fuel given). *)
Theorem failures_do_not_escape (fuel : nat) (e : InboundEvent) (m : M unit) :
  handleMessage w fuel e = Some m ->
  outcome m = Returned tt \/ outcome m = OutOfFuel.
Proof.
  intros Hm. destruct (handleMessage_cases w fuel e m Hm) as [->|(userMessage & la & lo & ->)].
  - left. reflexivity.
  - destruct (turn_unfolded w fuel userMessage la lo) as (env & prompt & h & _ & ->).
    destruct (answer_effect w env fuel prompt h) as (_ & ->).
    destruct (outcome (rounds w env fuel (first_request env prompt h) EmptyString
                         (clock_start w))); [left|left|right]; reflexivity.
Qed.

End MoreTurnFacts.

(* ================================================================== *)
(** * Further properties: the decoder of the client *)
(* ================================================================== *)

Lemma replace2_other (a b : ascii) (rep : string) (c : ascii) (s : string) :
  Ascii.eqb c a = false ->
  Client.replace2 a b rep (String c s) = String c (Client.replace2 a b rep s).
Proof.
  intros H. destruct s as [|d s]; cbn [Client.replace2]; [reflexivity|].
  rewrite H. reflexivity.
Qed.

Lemma replace2_hit (a b : ascii) (rep : string) (s : string) :
  Client.replace2 a b rep (String a (String b s)) = rep ++ Client.replace2 a b rep s.
Proof. cbn [Client.replace2]. rewrite !Ascii.eqb_refl. reflexivity. Qed.

Lemma replace2_miss (a b : ascii) (rep : string) (d : ascii) (s : string) :
  Ascii.eqb d b = false ->
  Ascii.eqb d a = false ->
  Client.replace2 a b rep (String a (String d s))
  = String a (String d (Client.replace2 a b rep s)).
Proof.
  intros Hb Ha. cbn [Client.replace2]. rewrite Hb, andb_false_r.
  f_equal. apply replace2_other. exact Ha.
Qed.

(** The shape of what one character is escaped to: the character
    itself, which is then neither a quote nor a backslash, or a backslash
    with a character that is no line terminator and after it nothing
    that holds a quote or a backslash. *)
Lemma hex_digit_literal (n : nat) :
  Ascii.eqb (Client.hex_digit n) Js.dquote = false
  /\ Ascii.eqb (Client.hex_digit n) Js.backslash = false.
Proof.
  unfold Client.hex_digit.
  do 16 (destruct n as [|n]; [split; reflexivity|]). destruct n; split; reflexivity.
Qed.

Lemma escape_char_shape (c : ascii) :
  (Client.escape_char c = String c EmptyString
   /\ Ascii.eqb c Js.dquote = false /\ Ascii.eqb c Js.backslash = false)
  \/ (exists d tail,
        Client.escape_char c = String Js.backslash (String d tail)
        /\ Client.is_line_terminator d = false
        /\ Client.literal tail = true).
Proof.
  unfold Client.escape_char.
  destruct (Ascii.eqb c Js.dquote) eqn:Hq;
    [right; exists Js.dquote, EmptyString; repeat split|].
  destruct (Ascii.eqb c Js.backslash) eqn:Hb;
    [right; exists Js.backslash, EmptyString; repeat split|].
  destruct (Ascii.eqb c Js.newline);
    [right; exists "n"%char, EmptyString; repeat split|].
  destruct (Ascii.eqb c Js.tab);
    [right; exists "t"%char, EmptyString; repeat split|].
  destruct (Ascii.eqb c (ascii_of_nat 13));
    [right; exists "r"%char, EmptyString; repeat split|].
  destruct (Ascii.eqb c (ascii_of_nat 8));
    [right; exists "b"%char, EmptyString; repeat split|].
  destruct (Ascii.eqb c (ascii_of_nat 12));
    [right; exists "f"%char, EmptyString; repeat split|].
  destruct (nat_of_ascii c <? 32)%nat; [|left; repeat split].
  right. eexists "u"%char, _. split; [reflexivity|]. split; [reflexivity|].
  cbn [Client.literal].
  destruct (hex_digit_literal (nat_of_ascii c / 16)) as [-> ->].
  destruct (hex_digit_literal (nat_of_ascii c mod 16)) as [-> ->].
  reflexivity.
Qed.

Lemma text_group_literal (t s : string) :
  Client.literal t = true ->
  Client.text_group (t ++ s) = option_map (String.append t) (Client.text_group s).
Proof.
  induction t as [|c t IH]; cbn [String.append Client.literal].
  - intros _. destruct (Client.text_group s); reflexivity.
  - intros H. apply andb_true_iff in H. destruct H as [H Ht].
    apply andb_true_iff in H. destruct H as [Hq Hb].
    apply negb_true_iff in Hq, Hb.
    rewrite text_group_cons, Hq, Hb, (IH Ht).
    destruct (Client.text_group s); reflexivity.
Qed.

Lemma open_body_literal (t s : string) :
  Client.literal t = true -> Client.open_body (t ++ s) = Client.open_body s.
Proof.
  induction t as [|c t IH]; cbn [String.append Client.literal]; [reflexivity|].
  intros H. apply andb_true_iff in H. destruct H as [H Ht].
  apply andb_true_iff in H. destruct H as [Hq Hb].
  apply negb_true_iff in Hq, Hb.
  rewrite open_body_cons, Hq, Hb. exact (IH Ht).
Qed.

Lemma text_group_escape_char (c : ascii) (s : string) :
  Client.text_group (Client.escape_char c ++ s)
  = option_map (String.append (Client.escape_char c)) (Client.text_group s).
Proof.
  destruct (escape_char_shape c) as [(-> & Hq & Hb)|(d & tail & -> & Hd & Htail)];
    cbn [String.append].
  - rewrite text_group_cons, Hq, Hb. destruct (Client.text_group s); reflexivity.
  - rewrite text_group_cons.
    change (Ascii.eqb Js.backslash Js.dquote) with false.
    rewrite Ascii.eqb_refl, Hd. cbv iota.
    rewrite (text_group_literal tail s Htail).
    destruct (Client.text_group s); reflexivity.
Qed.

Lemma open_body_escape_char (c : ascii) (s : string) :
  Client.open_body (Client.escape_char c ++ s) = Client.open_body s.
Proof.
  destruct (escape_char_shape c) as [(-> & Hq & Hb)|(d & tail & -> & Hd & Htail)];
    cbn [String.append].
  - rewrite open_body_cons, Hq, Hb. reflexivity.
  - rewrite open_body_cons.
    change (Ascii.eqb Js.backslash Js.dquote) with false.
    rewrite Ascii.eqb_refl, Hd. cbn [negb andb].
    apply open_body_literal. exact Htail.
Qed.

Lemma prefix_empty (s : string) : String.prefix s EmptyString = true -> s = EmptyString.
Proof. destruct s; [reflexivity|discriminate]. Qed.

Lemma literal_prefix (a t : string) :
  String.prefix a t = true -> Client.literal t = true -> Client.literal a = true.
Proof.
  revert t. induction a as [|c a IH]; intros [|d t]; cbn [String.prefix Client.literal];
    try reflexivity; try discriminate.
  destruct (ascii_dec c d) as [->|]; [|discriminate].
  intros Hp H. apply andb_true_iff in H. destruct H as [H Ht].
  rewrite H. exact (IH t Hp Ht).
Qed.

Lemma literal_open (t : string) : Client.literal t = true -> Client.open_body t = true.
Proof.
  intros H. rewrite <- (append_empty_r t). rewrite open_body_literal by exact H.
  reflexivity.
Qed.

Lemma prefix_app_cases (a b body : string) :
  String.prefix body (a ++ b) = true ->
  String.prefix body a = true
  \/ exists body', body = a ++ body' /\ String.prefix body' b = true.
Proof.
  revert body. induction a as [|c a IH]; intros body; cbn [String.append].
  - intros H. right. exists body. split; [reflexivity|exact H].
  - destruct body as [|d body]; [left; reflexivity|]. cbn [String.prefix].
    destruct (ascii_dec d c) as [->|]; [|discriminate].
    intros H. destruct (IH body H) as [Hleft|(body' & -> & Hright)].
    + left. exact Hleft.
    + right. exists body'. split; [reflexivity|exact Hright].
Qed.

Lemma escape_char_prefix_open (c : ascii) (body : string) :
  String.prefix body (Client.escape_char c) = true -> Client.open_body body = true.
Proof.
  destruct (escape_char_shape c) as [(-> & Hq & Hb)|(d & tail & -> & Hd & Htail)].
  - destruct body as [|b1 body]; [reflexivity|]. cbn [String.prefix].
    destruct (ascii_dec b1 c) as [->|]; [|discriminate].
    intros H. apply prefix_empty in H. subst body.
    rewrite open_body_cons, Hq, Hb. reflexivity.
  - destruct body as [|b1 body]; [reflexivity|]. cbn [String.prefix].
    destruct (ascii_dec b1 Js.backslash) as [->|]; [|discriminate].
    destruct body as [|b2 body]; [reflexivity|]. cbn [String.prefix].
    destruct (ascii_dec b2 d) as [->|]; [|discriminate].
    intros H. rewrite open_body_cons.
    change (Ascii.eqb Js.backslash Js.dquote) with false.
    rewrite Ascii.eqb_refl, Hd. cbn [negb andb].
    apply literal_open. exact (literal_prefix body tail H Htail).
Qed.

(** Every cut of the literal of a text is an open body: the fragments
    that the amended C7 and X21 speak of include every envelope cut
    inside its text, whatever the text holds. *)
Lemma escape_prefix_open (trueText : string) :
  forall body, String.prefix body (Client.escape trueText) = true ->
               Client.open_body body = true.
Proof.
  induction trueText as [|c t IH]; intros body; cbn [Client.escape].
  - intros H. apply prefix_empty in H. subst body. reflexivity.
  - intros H. destruct (prefix_app_cases _ _ _ H) as [Hunit|(body' & -> & Hrest)].
    + exact (escape_char_prefix_open c body Hunit).
    + rewrite open_body_escape_char. exact (IH body' Hrest).
Qed.

(** The four replacements on the literal of one character that is
    restorable: the character comes back. *)
Lemma restorable_char_cases (c : ascii) :
  Client.restorable_char c = true ->
  Ascii.eqb c Js.backslash = false
  /\ (c = Js.newline \/ c = Js.tab
      \/ (Client.escape_char c
          = (if Ascii.eqb c Js.dquote then String Js.backslash Js.q
             else String c EmptyString))).
Proof.
  unfold Client.restorable_char, Client.escape_char.
  destruct (Ascii.eqb c Js.backslash) eqn:Hb; [discriminate|]. cbn [negb andb].
  intros H. split; [reflexivity|].
  destruct (Ascii.eqb_spec c Js.newline) as [->|Hn]; [left; reflexivity|].
  destruct (Ascii.eqb_spec c Js.tab) as [->|Ht]; [right; left; reflexivity|].
  right. right. rewrite !orb_false_r in H.
  destruct (Ascii.eqb c Js.dquote); [reflexivity|].
  destruct (Ascii.eqb_spec c (ascii_of_nat 13)) as [->|]; [discriminate|].
  destruct (Ascii.eqb_spec c (ascii_of_nat 8)) as [->|]; [discriminate|].
  destruct (Ascii.eqb_spec c (ascii_of_nat 12)) as [->|]; [discriminate|].
  destruct (Nat.ltb_spec (nat_of_ascii c) 32) as [Hlt|]; [|reflexivity].
  apply Nat.leb_le in H. lia.
Qed.

Lemma unescape_escape_char (c : ascii) (s : string) :
  Client.restorable_char c = true ->
  Client.unescape (Client.escape_char c ++ s) = String c (Client.unescape s).
Proof.
  intros H. destruct (restorable_char_cases c H) as (Hb & [->|[->|Hplain]]).
  - unfold Client.unescape. change (Client.escape_char Js.newline) with (String Js.backslash "n").
    cbn [String.append].
    rewrite (replace2_hit Js.backslash "n"%char). unfold Js.nl. cbn [String.append].
    rewrite !replace2_other by reflexivity. reflexivity.
  - unfold Client.unescape. change (Client.escape_char Js.tab) with (String Js.backslash "t").
    cbn [String.append].
    rewrite (replace2_miss Js.backslash "n"%char) by reflexivity.
    rewrite (replace2_hit Js.backslash "t"%char). cbn [String.append].
    rewrite !replace2_other by reflexivity. reflexivity.
  - rewrite Hplain. unfold Client.unescape.
    destruct (Ascii.eqb_spec c Js.dquote) as [->|Hq].
    + unfold Js.q. cbn [String.append].
      rewrite (replace2_miss Js.backslash "n"%char) by reflexivity.
      rewrite (replace2_miss Js.backslash "t"%char) by reflexivity.
      rewrite (replace2_hit Js.backslash Js.dquote). cbn [String.append].
      rewrite replace2_other by reflexivity. reflexivity.
    + cbn [String.append]. rewrite !replace2_other by exact Hb. reflexivity.
Qed.

(** X16.  The four replacements of the decoder turn the literal that
    [JSON.stringify] writes for a text back into the text, for every
    text that holds no backslash and no control character other than the
    line feed and the tab: escaped quotes, line feeds and tabs come back
    as they were.  (A backslash, and the escapes of the other control
    characters, are not turned back.) *)
Theorem unescape_undoes_escape (trueText : string) :
  Client.restorable trueText = true ->
  Client.unescape (Client.escape trueText) = trueText.
Proof.
  induction trueText as [|c rest IH]; [reflexivity|].
  cbn [Client.restorable Client.escape]. intros H.
  apply andb_true_iff in H. destruct H as [Hc Hrest].
  rewrite (unescape_escape_char c _ Hc), (IH Hrest). reflexivity.
Qed.

Lemma field_match_here (key : string) (group : string -> option string)
    (s g : string) :
  Client.field_at key group s = Some g -> Client.field_match key group s = Some g.
Proof. intros H. destruct s; cbn [Client.field_match]; rewrite H; reflexivity. Qed.

Lemma lang_group_closed (lang rest : string) :
  Client.quote_free lang = true ->
  Client.lang_group (lang ++ String Js.dquote rest) = Some lang.
Proof.
  induction lang as [|c lang IH]; cbn [String.append Client.quote_free Client.lang_group].
  - intros _. rewrite Ascii.eqb_refl. reflexivity.
  - intros H. apply andb_true_iff in H. destruct H as [Hc Hlang].
    apply negb_true_iff in Hc. rewrite Hc, (IH Hlang). reflexivity.
Qed.

Lemma text_group_closed (trueText rest : string) :
  Client.text_group (Client.escape trueText ++ String Js.dquote rest)
  = Some (Client.escape trueText).
Proof.
  induction trueText as [|c more IH]; cbn [Client.escape String.append].
  - rewrite text_group_cons, Ascii.eqb_refl. reflexivity.
  - rewrite append_assoc, text_group_escape_char, IH. reflexivity.
Qed.

Lemma textMatch_closed (lang trueText rest : string) :
  Client.quote_free lang = true ->
  Client.textMatch
    (Client.fragment_of lang (Client.escape trueText ++ String Js.dquote rest))
  = Some (Client.escape trueText).
Proof.
  intros Hlang.
  unfold Client.textMatch, Client.fragment_of, Js.q. cbn [String.append].
  repeat (rewrite field_match_step by reflexivity).
  rewrite field_match_step by (apply lang_value_not_text; exact Hlang).
  rewrite field_match_quote_free by exact Hlang.
  repeat (rewrite field_match_step by reflexivity).
  apply field_match_here.
  unfold Client.field_at, Js.q. cbn.
  apply text_group_closed.
Qed.

Lemma langMatch_fragment (lang body : string) :
  Client.quote_free lang = true ->
  Client.langMatch (Client.fragment_of lang body) = Some lang.
Proof.
  intros Hlang.
  unfold Client.langMatch, Client.fragment_of, Js.q. cbn [String.append].
  rewrite field_match_step by reflexivity.
  apply field_match_here.
  unfold Client.field_at, Js.q. cbn.
  apply lang_group_closed. exact Hlang.
Qed.

Section MoreDecoderFacts.
Context {RT : JsRuntime}.

(** X17.  Once the closing quote of the text has arrived and the
    envelope is not yet valid JSON, the decoder returns the text field
    with the four replacements applied and the language the envelope
    names, and reports the message as not complete.  For a text that
    holds no backslash and no control character other than the line
    feed and the tab, written as [JSON.stringify] writes it, what it
    returns is the text itself. *)
Theorem closed_text_is_decoded (lang trueText rest : string) :
  Client.quote_free lang = true ->
  JSON_parse (Client.fragment_of lang (Client.escape trueText ++ String Js.dquote rest))
  = None ->
  Client.extractTextFromStreamingJSON
    (Client.fragment_of lang (Client.escape trueText ++ String Js.dquote rest))
  = {| Client.text := JStr (Client.unescape (Client.escape trueText));
       Client.lang := JStr lang;
       Client.isComplete := false |}
  /\ (Client.restorable trueText = true ->
      Client.extractTextFromStreamingJSON
        (Client.fragment_of lang (Client.escape trueText ++ String Js.dquote rest))
      = {| Client.text := JStr trueText; Client.lang := JStr lang;
           Client.isComplete := false |}).
Proof.
  intros Hlang Hparse.
  assert (Hresult :
            Client.extractTextFromStreamingJSON
              (Client.fragment_of lang (Client.escape trueText ++ String Js.dquote rest))
            = {| Client.text := JStr (Client.unescape (Client.escape trueText));
                 Client.lang := JStr lang;
                 Client.isComplete := false |}).
  { unfold Client.extractTextFromStreamingJSON, Client.parsed_result.
    rewrite Hparse, textMatch_closed, langMatch_fragment by assumption.
    reflexivity. }
  split; [exact Hresult|].
  intros Hrestorable. rewrite Hresult. do 2 f_equal.
  clear Hresult Hparse.
  induction trueText as [|c more IH]; [reflexivity|].
  cbn [Client.restorable Client.escape] in *.
  apply andb_true_iff in Hrestorable. destruct Hrestorable as [Hc Hmore].
  rewrite (unescape_escape_char c _ Hc), (IH Hmore). reflexivity.
Qed.

(** X18.  A reply that is no envelope at all (it does not parse, holds
    no quote, and does not start with a brace) is shown as it is and
    counts as complete. *)
Theorem plain_text_is_shown_verbatim (rawText : string) :
  Js.truthy rawText = true ->
  Client.quote_free rawText = true ->
  JSON_parse rawText = None ->
  Js.startsWith (Js.trim rawText) "{" = false ->
  Client.extractTextFromStreamingJSON rawText
  = {| Client.text := JStr rawText; Client.lang := JNull; Client.isComplete := true |}.
Proof.
  intros Htruthy Hquote Hparse Hbrace.
  unfold Client.extractTextFromStreamingJSON, Client.parsed_result, Client.textMatch.
  rewrite Htruthy, Hparse, Hbrace. cbn [negb].
  rewrite <- (append_empty_r rawText) at 1.
  rewrite field_match_quote_free by exact Hquote.
  rewrite field_match_empty. reflexivity.
Qed.

End MoreDecoderFacts.

(* ================================================================== *)
(** * Further properties: the language and the voice of a message *)
(* ================================================================== *)

Lemma len_remove_marks (s : string) : Js.len (Speech.remove_marks s) <= Js.len s.
Proof.
  induction s as [|c s IH]; cbn [Speech.remove_marks]; [lia|].
  destruct (Speech.is_mark c); rewrite ?len_cons; lia.
Qed.

Lemma len_collapse_newlines (in_run : bool) (s : string) :
  Js.len (Speech.collapse_newlines in_run s) <= Js.len s.
Proof.
  revert in_run. induction s as [|c s IH]; intros in_run;
    cbn [Speech.collapse_newlines]; [lia|].
  destruct (Ascii.eqb c Js.newline); [destruct in_run|]; rewrite ?len_cons;
    match goal with
    | |- context [Speech.collapse_newlines ?b s] => specialize (IH b)
    end; lia.
Qed.

Lemma len_clean (text : string) : Js.len (Speech.clean text) <= Js.len text.
Proof.
  unfold Speech.clean.
  pose proof (len_trim (Speech.collapse_newlines false (Speech.remove_marks text))).
  pose proof (len_collapse_newlines false (Speech.remove_marks text)).
  pose proof (len_remove_marks text). lia.
Qed.

Lemma own_in (key tag : string) (entries : list (string * string)) :
  Speech.own key entries = Some tag -> In tag (map snd entries).
Proof.
  induction entries as [|[k t] entries IH]; cbn [Speech.own map snd]; [discriminate|].
  destruct (String.eqb k key).
  - intros H. injection H as ->. left. reflexivity.
  - intros H. right. exact (IH H).
Qed.

(** What [LANGUAGE_MAP[key] || fallback] can be. *)
Lemma mapped_or_cases (key fallback : string) :
  match Speech.mapped_or key fallback with
  | Speech.Tag code => code = fallback \/ In code (map snd Speech.LANGUAGE_MAP)
  | Speech.NotAString => In key Speech.OBJECT_PROTOTYPE
  end.
Proof.
  unfold Speech.mapped_or, Speech.lookup.
  destruct (Speech.own key Speech.LANGUAGE_MAP) as [tag|] eqn:E.
  - destruct (Js.truthy tag); [right; exact (own_in _ _ _ E)|left; reflexivity].
  - destruct (existsb (String.eqb key) Speech.OBJECT_PROTOTYPE) eqn:X;
      [|left; reflexivity].
    apply existsb_exists in X. destruct X as (k & Hin & Heq).
    apply String.eqb_eq in Heq. subst k. exact Hin.
Qed.

Section SpeechFacts.
Context {RT : JsRuntime}.
Variable franc : string -> option string.

(** X19.  A text of fewer than ten characters is never handed to the
    language detector: its language is [en-US], whatever the detector
    would say. *)
Theorem short_text_defaults_to_english (text : string) :
  Js.len text < 10 ->
  Speech.detectLanguageFallback franc text = Speech.Tag "en-US".
Proof.
  intros Hshort. unfold Speech.detectLanguageFallback. cbv zeta.
  pose proof (len_clean text) as Hclean.
  destruct (Z.ltb_spec (Js.len (Speech.clean text)) 10); [reflexivity|lia].
Qed.

(** X20.  The fallback detection only ever answers with [en-US] or with
    a tag of the language map, whether the detector throws, does not
    know, or names a code the map does not hold.  The one exception is a
    detector that answers with the name of a property every object
    inherits: the map then yields that property, which is no string. *)
Theorem fallback_language_is_supported (text : string) :
  match Speech.detectLanguageFallback franc text with
  | Speech.Tag code => In code Speech.SUPPORTED
  | Speech.NotAString =>
      exists key, franc (Speech.clean text) = Some key /\ In key Speech.OBJECT_PROTOTYPE
  end.
Proof.
  unfold Speech.detectLanguageFallback. cbv zeta.
  destruct (Js.len (Speech.clean text) <? 10)%Z; [left; reflexivity|].
  destruct (franc (Speech.clean text)) as [detectedCode|]; [|left; reflexivity].
  destruct (String.eqb detectedCode "und"); [left; reflexivity|].
  pose proof (mapped_or_cases detectedCode "en-US") as H.
  destruct (Speech.mapped_or detectedCode "en-US") as [code|].
  - destruct H as [->|H]; [left; reflexivity|right; exact H].
  - exists detectedCode. split; [reflexivity|exact H].
Qed.

(** X21.  While the text of an envelope is still being streamed (its
    closing quote has not arrived), the message content is the empty
    text, not complete, and its language is [en-US], whatever language
    the envelope has already named. *)
Theorem streaming_text_has_default_language
    (lang body : string) (message_text : option string) :
  Client.quote_free lang = true ->
  Client.open_body body = true ->
  JSON_parse (Client.fragment_of lang body) = None ->
  Speech.messageContent franc (Some (Client.fragment_of lang body)) message_text
  = Returned {| Speech.displayText := JStr EmptyString;
                Speech.language := Speech.Tag "en-US";
                Speech.isComplete := false |}.
Proof.
  intros Hlang Hbody Hparse.
  assert (Hresult : Client.extractTextFromStreamingJSON (Client.fragment_of lang body)
                    = {| Client.text := JStr EmptyString; Client.lang := JNull;
                         Client.isComplete := false |}).
  { apply no_text_in_object.
    - unfold Client.parsed_result. rewrite Hparse. reflexivity.
    - apply textMatch_fragment; assumption.
    - apply trim_keeps_brace. }
  unfold Speech.messageContent. cbv zeta.
  change (Js.or_else (Js.or_opt (Some (Client.fragment_of lang body)) message_text)
            EmptyString)
    with (Client.fragment_of lang body).
  change (Js.truthy (Client.fragment_of lang body)) with true. cbn [negb].
  rewrite Hresult. reflexivity.
Qed.

End SpeechFacts.

Lemma lower_before_dash_prefix (language : string) :
  String.prefix (Js.toLowerCase (Speech.before_dash language)) (Js.toLowerCase language)
  = true.
Proof.
  induction language as [|c rest IH]; [reflexivity|].
  cbn [Speech.before_dash]. destruct (Ascii.eqb c "-"); [reflexivity|].
  cbn [Js.toLowerCase String.prefix].
  destruct (ascii_dec (Js.lower c) (Js.lower c)) as [_|Hne]; [exact IH|contradiction].
Qed.

Lemma or_find_some (a b : option Speech.Voice) (v : Speech.Voice) :
  Speech.or_find a b = Some v -> a = Some v \/ b = Some v.
Proof. destruct a; cbn; intros H; [left|right]; exact H. Qed.

Lemma or_find_none (a b : option Speech.Voice) :
  Speech.or_find a b = None -> b = None.
Proof. destruct a; cbn; [discriminate|intros H; exact H]. Qed.

(** X22.  The voice chosen for a language is one of the installed
    voices and its language tag contains the primary subtag of the
    language asked for; no voice is chosen only when no installed voice
    has such a tag.  (The preferences among vendors and the exact match
    only order the candidates.) *)
Theorem voice_matches_language (voices : list Speech.Voice) (language : string) :
  let langPrefix := Js.toLowerCase (Speech.before_dash language) in
  match Speech.getVoiceForLanguage voices language with
  | Some v =>
      In v voices
      /\ Js.includes (Js.toLowerCase (Speech.voice_lang v)) langPrefix = true
  | None =>
      existsb (fun v => Js.includes (Js.toLowerCase (Speech.voice_lang v)) langPrefix)
        voices = false
  end.
Proof.
  cbv zeta. unfold Speech.getVoiceForLanguage.
  destruct voices as [|v0 rest] eqn:Hv; [reflexivity|]. rewrite <- Hv. clear Hv v0 rest.
  cbv zeta.
  match goal with
  | |- match ?chosen with Some _ => _ | None => _ end =>
      destruct chosen as [v|] eqn:E
  end.
  - assert (Hstarts : forall f,
               find (fun u => Js.startsWith (Js.toLowerCase (Speech.voice_lang u))
                                (Js.toLowerCase (Speech.before_dash language)) && f u)
                 voices = Some v ->
               In v voices
               /\ Js.includes (Js.toLowerCase (Speech.voice_lang v))
                    (Js.toLowerCase (Speech.before_dash language)) = true).
    { intros f H. apply find_some in H. destruct H as [Hin H].
      apply andb_true_iff in H. destruct H as [H _].
      split; [exact Hin|]. apply includes_at_start. exact H. }
    apply or_find_some in E. destruct E as [E|E].
    + destruct (existsb (String.eqb (Js.toLowerCase (Speech.before_dash language)))
                  Speech.INDIAN); [|discriminate].
      apply or_find_some in E. destruct E as [E|E]; [exact (Hstarts _ E)|].
      apply or_find_some in E. destruct E as [E|E]; exact (Hstarts _ E).
    + apply or_find_some in E. destruct E as [E|E].
      * apply find_some in E. destruct E as [Hin H]. split; [exact Hin|].
        apply String.eqb_eq in H. rewrite H.
        apply includes_at_start, lower_before_dash_prefix.
      * apply or_find_some in E. destruct E as [E|E].
        -- apply find_some in E. destruct E as [Hin H]. split; [exact Hin|].
           apply includes_at_start. exact H.
        -- apply find_some in E. exact E.
  - do 3 apply or_find_none in E.
    destruct (existsb _ voices) eqn:X; [|reflexivity].
    apply existsb_exists in X. destruct X as (u & Hin & Hu).
    rewrite (find_none _ _ E u Hin) in Hu. discriminate.
Qed.

(* ================================================================== *)
(** * Further properties on concrete inputs *)
(* ================================================================== *)

Section MoreExamples.
Local Existing Instance Scenario.Integers.

(** X2 on a store answer of three matches: the second does not fit, and
    the third, short as it is, is not used. *)
Lemma retrieval_stops_at_first_overflow_witness :
  Retrieval.low_relevance Scenario.long_match = false
  /\ Js.truthy (Retrieval.content_of Scenario.long_match) = true
  /\ Retrieval.tokens_of (Retrieval.retained [Scenario.zero_scored] 0)
     + estimateTokens (Retrieval.snippet_of Scenario.long_match)
     > PINECONE_TOKEN_LIMIT
  /\ Retrieval.retrieveFromPinecone (fun _ => FetchNotOk)
       (fun _ => Retrieval.QueryOk
                   (Some ([Scenario.zero_scored]
                          ++ Scenario.long_match :: [Scenario.short_match])%list))
       "how many tablets"
     = Retrieval.retrieveFromPinecone (fun _ => FetchNotOk)
         (fun _ => Retrieval.QueryOk (Some [Scenario.zero_scored])) "how many tablets".
Proof.
  assert (H1 : Retrieval.low_relevance Scenario.long_match = false) by reflexivity.
  assert (H2 : Js.truthy (Retrieval.content_of Scenario.long_match) = true)
    by (vm_compute; reflexivity).
  assert (H3 : Retrieval.tokens_of (Retrieval.retained [Scenario.zero_scored] 0)
               + estimateTokens (Retrieval.snippet_of Scenario.long_match)
               > PINECONE_TOKEN_LIMIT) by (vm_compute; reflexivity).
  refine (conj H1 (conj H2 (conj H3 _))).
  exact (retrieval_stops_at_first_overflow (fun _ => FetchNotOk) "how many tablets"
           [Scenario.zero_scored] Scenario.long_match [Scenario.short_match] H1 H2 H3).
Defined.

Lemma channel_messages_well_typed : well_typed Scenario.channel_messages.
Proof. intros msg [<-|[<-|[<-|[<-|[<-|[]]]]]]; vm_compute; discriminate. Defined.

(** X6 on the channel of five messages, for the allowances of 3 and of
    100 tokens. *)
Lemma larger_allowance_keeps_more_witness :
  well_typed Scenario.channel_messages
  /\ 3 <= 100
  /\ exists older,
       getConversationHistory (ChannelOk (Some Scenario.channel_messages)) 100
       = (older ++ getConversationHistory (ChannelOk (Some Scenario.channel_messages)) 3)%list.
Proof.
  refine (conj channel_messages_well_typed (conj _ _)); [lia|].
  apply (larger_allowance_keeps_more Scenario.channel_messages 3 100
           channel_messages_well_typed). lia.
Defined.

(** X8 on the channel of five messages. *)
Lemma flat_history_is_newest_first_witness :
  well_typed Scenario.channel_messages
  /\ exists dropped,
       rev (decodable Scenario.channel_messages)
       = (GroqAgent.getConversationHistory (ChannelOk (Some Scenario.channel_messages))
          ++ dropped)%list
       /\ (forall t rest, dropped = t :: rest ->
             GroqAgent.MAX_CONTEXT_LENGTH
             < GroqAgent.content_length
                 (GroqAgent.getConversationHistory
                    (ChannelOk (Some Scenario.channel_messages)))
               + Js.len (content t)).
Proof.
  split; [exact channel_messages_well_typed|].
  exact (flat_history_is_newest_first Scenario.channel_messages channel_messages_well_typed).
Defined.

(** X10 on a stream of three chunks: the call at the index 0 keeps the
    id of the delta that named it first. *)
Lemma call_id_is_settled_by_first_delta_witness :
  existsb (at_index 0) (stream_deltas [Scenario.first_chunk]) = false
  /\ chunk_deltas Scenario.second_chunk
     = ([Scenario.delta 1 None (Some "{}")]
        ++ Scenario.with_id 0 "call_a" :: [Scenario.with_id 0 "call_b"])%list
  /\ existsb (at_index 0) [Scenario.delta 1 None (Some "{}")] = false
  /\ tc_index (Scenario.with_id 0 "call_a") = Some 0%nat
  /\ exists c,
       slot (stream_tool_calls
               ([Scenario.first_chunk]
                ++ Scenario.second_chunk :: [Scenario.third_chunk])%list) 0
       = Some c
       /\ call_id c
          = Js.or_else (tc_id (Scenario.with_id 0 "call_a"))
              ("call_" ++ Js.of_Z (c_now Scenario.second_chunk) ++ "_" ++ Js.of_nat 0).
Proof.
  refine (conj eq_refl (conj eq_refl (conj eq_refl (conj eq_refl _)))).
  exact (call_id_is_settled_by_first_delta [Scenario.first_chunk] Scenario.second_chunk
           [Scenario.third_chunk] [Scenario.delta 1 None (Some "{}")]
           (Scenario.with_id 0 "call_a") [Scenario.with_id 0 "call_b"] 0
           eq_refl eq_refl eq_refl eq_refl).
Defined.

(** X11 on a stream of two pieces that arrive within the first second. *)
Lemma no_preview_within_a_second_witness :
  forallb (fun chunk => (c_now chunk - 0 <=? 1000)%Z)
    [Scenario.says 400 "Rest and "; Scenario.says 900 "drink water."] = true
  /\ consume [Scenario.says 400 "Rest and "; Scenario.says 900 "drink water."]
       EmptyString EmptyString [] 0
     = ([], Returned (EmptyString
                      ++ stream_content [Scenario.says 400 "Rest and ";
                                         Scenario.says 900 "drink water."],
                      fold_left (fun tcs chunk => take_tool_calls chunk tcs)
                        [Scenario.says 400 "Rest and "; Scenario.says 900 "drink water."] [],
                      0)).
Proof.
  split; [reflexivity|].
  apply (no_preview_within_a_second
           [Scenario.says 400 "Rest and "; Scenario.says 900 "drink water."]
           EmptyString EmptyString [] 0).
  reflexivity.
Defined.

(** X14 on a provider whose stream names a call at the index 1 alone:
    the array has a hole at the index 0. *)
Lemma unreadable_tool_call_ends_in_fallback_witness :
  (forall messages,
      completions_create Scenario.always_skipping messages
      = Streams Scenario.skipping_an_index true)
  /\ existsb unreadable (stream_tool_calls Scenario.skipping_an_index) = true
  /\ outcome (turn Scenario.always_skipping 4 "I want to end it" None None) = Returned tt
  /\ error_path (trace (turn Scenario.always_skipping 4 "I want to end it" None None))
  /\ List.length
       (requests (trace (turn Scenario.always_skipping 4 "I want to end it" None None)))
     = 1%nat.
Proof.
  assert (H1 : forall messages,
             completions_create Scenario.always_skipping messages
             = Streams Scenario.skipping_an_index true) by (intros; reflexivity).
  assert (H2 : existsb unreadable (stream_tool_calls Scenario.skipping_an_index) = true)
    by (vm_compute; reflexivity).
  refine (conj H1 (conj H2 _)).
  exact (unreadable_tool_call_ends_in_fallback Scenario.always_skipping 3
           "I want to end it" None None Scenario.skipping_an_index H1 H2).
Defined.

(** X15 on a turn whose provider throws. *)
Lemma failures_do_not_escape_witness :
  handleMessage Scenario.failing 4 Scenario.crisis
  = Some (turn Scenario.failing 4 "I want to end it" None None)
  /\ (outcome (turn Scenario.failing 4 "I want to end it" None None) = Returned tt
      \/ outcome (turn Scenario.failing 4 "I want to end it" None None) = OutOfFuel).
Proof.
  split; [apply crisis_starts_a_turn|].
  exact (failures_do_not_escape Scenario.failing 4 Scenario.crisis _
           (crisis_starts_a_turn Scenario.failing 4)).
Defined.

(** X16 on a text in which someone is quoted. *)
Lemma unescape_undoes_escape_witness :
  Client.restorable Scenario.said = true
  /\ Client.unescape (Client.escape Scenario.said) = Scenario.said.
Proof.
  assert (H : Client.restorable Scenario.said = true) by (vm_compute; reflexivity).
  exact (conj H (unescape_undoes_escape Scenario.said H)).
Defined.

(** X17 on an envelope whose text is closed and whose last brace has not
    arrived. *)
Lemma closed_text_is_decoded_witness :
  Client.quote_free "hi-IN" = true
  /\ JSON_parse (Client.fragment_of "hi-IN"
                   (Client.escape Scenario.said ++ String Js.dquote EmptyString))
     = None
  /\ Client.restorable Scenario.said = true
  /\ Client.extractTextFromStreamingJSON
       (Client.fragment_of "hi-IN"
          (Client.escape Scenario.said ++ String Js.dquote EmptyString))
     = {| Client.text := JStr Scenario.said; Client.lang := JStr "hi-IN";
          Client.isComplete := false |}.
Proof.
  assert (H1 : Client.quote_free "hi-IN" = true) by reflexivity.
  assert (H2 : JSON_parse (Client.fragment_of "hi-IN"
                             (Client.escape Scenario.said ++ String Js.dquote EmptyString))
               = None) by (vm_compute; reflexivity).
  assert (H3 : Client.restorable Scenario.said = true) by (vm_compute; reflexivity).
  exact (conj H1 (conj H2 (conj H3
           (proj2 (closed_text_is_decoded "hi-IN" Scenario.said EmptyString H1 H2) H3)))).
Defined.

(** X18 on a reply in plain words. *)
Lemma plain_text_is_shown_verbatim_witness :
  Js.truthy "Rest and drink water." = true
  /\ Client.quote_free "Rest and drink water." = true
  /\ JSON_parse "Rest and drink water." = None
  /\ Js.startsWith (Js.trim "Rest and drink water.") "{" = false
  /\ Client.extractTextFromStreamingJSON "Rest and drink water."
     = {| Client.text := JStr "Rest and drink water."; Client.lang := JNull;
          Client.isComplete := true |}.
Proof.
  assert (H1 : Js.truthy "Rest and drink water." = true) by reflexivity.
  assert (H2 : Client.quote_free "Rest and drink water." = true) by reflexivity.
  assert (H3 : JSON_parse "Rest and drink water." = None) by (vm_compute; reflexivity).
  assert (H4 : Js.startsWith (Js.trim "Rest and drink water.") "{" = false)
    by (vm_compute; reflexivity).
  exact (conj H1 (conj H2 (conj H3 (conj H4
           (plain_text_is_shown_verbatim "Rest and drink water." H1 H2 H3 H4))))).
Defined.

(** X19 on a short French greeting and a detector that would answer
    French. *)
Lemma short_text_defaults_to_english_witness :
  Js.len "Bonjour" < 10
  /\ Speech.detectLanguageFallback Scenario.always_french "Bonjour" = Speech.Tag "en-US".
Proof.
  assert (H : Js.len "Bonjour" < 10) by reflexivity.
  exact (conj H (short_text_defaults_to_english Scenario.always_french "Bonjour" H)).
Defined.

(** X21 on an envelope that names Hindi, cut inside its text. *)
Lemma streaming_text_has_default_language_witness :
  Client.quote_free "hi-IN" = true
  /\ Client.open_body Scenario.said_cut = true
  /\ JSON_parse (Client.fragment_of "hi-IN" Scenario.said_cut) = None
  /\ Speech.messageContent Scenario.always_french
       (Some (Client.fragment_of "hi-IN" Scenario.said_cut)) None
     = Returned {| Speech.displayText := JStr EmptyString;
                   Speech.language := Speech.Tag "en-US";
                   Speech.isComplete := false |}.
Proof.
  assert (H1 : Client.quote_free "hi-IN" = true) by reflexivity.
  assert (H2 : Client.open_body Scenario.said_cut = true) by (vm_compute; reflexivity).
  assert (H3 : JSON_parse (Client.fragment_of "hi-IN" Scenario.said_cut) = None)
    by (vm_compute; reflexivity).
  exact (conj H1 (conj H2 (conj H3
           (streaming_text_has_default_language Scenario.always_french "hi-IN"
              Scenario.said_cut None H1 H2 H3)))).
Defined.

End MoreExamples.

(* ================================================================== *)
(** * Further properties: tool results and the place of a turn *)
(* ================================================================== *)

Section ToolResultFacts.
Context {RT : JsRuntime}.
Variable w : World.
Variable env : Turning.

Lemma dispatch_call_result (toolCall : option ToolCall)
    (toolResults result : list ChatMessage) :
  outcome (dispatch_call w env toolCall toolResults) = Returned result ->
  exists added,
    result = (toolResults ++ added)%list
    /\ map result_key added = map call_key (filter is_known_call [toolCall]).
Proof.
  unfold dispatch_call. cbn [filter]. unfold is_known_call.
  destruct toolCall as [call|]; [|discriminate].
  destruct (JSON_parse (fn_arguments call)) as [functionArgs|]; [|discriminate].
  destruct (String.eqb (fn_name call) "tool_search") eqn:Hsearch; cbn [orb].
  - destruct (get functionArgs "query") as [searchQuery|err|]; try discriminate.
    rewrite outcome_bind.
    destruct (outcome (forwarded_query env searchQuery)) as [query|err|]; try discriminate.
    rewrite outcome_bind.
    destruct (searchWeb_effect w query) as (searchResults & ->).
    cbn. intros H. injection H as <-. eexists. split; reflexivity.
  - destruct (String.eqb (fn_name call) "tool_alert") eqn:Halert.
    + rewrite outcome_bind.
      destruct (sendEmergencyAlert_effect w (message env)) as (body & to & ->).
      cbn. intros H. injection H as <-. eexists. split; reflexivity.
    + cbn. intros H. injection H as <-. exists []. rewrite app_nil_r. split; reflexivity.
Qed.

Lemma filter_known_cons (toolCall : option ToolCall) (rest : ToolCalls) :
  filter is_known_call (toolCall :: rest)
  = (filter is_known_call [toolCall] ++ filter is_known_call rest)%list.
Proof. cbn [filter]. destruct (is_known_call toolCall); reflexivity. Qed.

(** X23.  A round that dispatches its calls without an exception hands
    the model one tool result for each call of one of the two known
    tools, in the order of the calls, each under the id and the name of
    its call, after the results it started with; calls of other tools
    get none. *)
Theorem tool_results_answer_the_calls
    (toolCalls : ToolCalls) (toolResults result : list ChatMessage) :
  outcome (dispatch w env toolCalls toolResults) = Returned result ->
  exists added,
    result = (toolResults ++ added)%list
    /\ map result_key added = map call_key (filter is_known_call toolCalls).
Proof.
  revert toolResults result.
  induction toolCalls as [|toolCall rest IH]; intros toolResults result; cbn [dispatch].
  - cbn. intros H. injection H as <-. exists []. rewrite app_nil_r. split; reflexivity.
  - rewrite outcome_bind.
    destruct (outcome (dispatch_call w env toolCall toolResults)) as [results'|err|] eqn:E;
      try discriminate.
    intros H.
    destruct (dispatch_call_result _ _ _ E) as (added1 & -> & Hkeys1).
    destruct (IH _ _ H) as (added2 & -> & Hkeys2).
    exists (added1 ++ added2)%list. split; [rewrite app_assoc; reflexivity|].
    rewrite filter_known_cons, !map_app, Hkeys1, Hkeys2. reflexivity.
Qed.

(** X24.  A search call whose arguments hold no query: on a turn with a
    place the round ends with an exception before the search provider is
    called; on a turn without a place the provider is called with an
    undefined query and its answer becomes the tool result. *)
Theorem search_without_query
    (call : ToolCall) (toolResults : list ChatMessage) (functionArgs : value) :
  fn_name call = "tool_search" ->
  JSON_parse (fn_arguments call) = Some functionArgs ->
  get functionArgs "query" = Returned None ->
  match located env with
  | Some _ =>
      exists err, dispatch_call w env (Some call) toolResults = ([], Thrown err)
  | None =>
      exists searchResults,
        dispatch_call w env (Some call) toolResults
        = ([TavilySearch None],
           Returned (toolResults
                     ++ [ToolResult (call_id call) "tool_search" searchResults])%list)
  end.
Proof.
  intros Hname Hparse Hquery. unfold dispatch_call.
  rewrite Hparse, Hname, Hquery. cbn [String.eqb Ascii.eqb Bool.eqb andb].
  unfold forwarded_query.
  destruct (located env) as [[[la lo] name]|].
  - eexists. reflexivity.
  - destruct (searchWeb_effect w None) as (searchResults & Hsearch).
    exists searchResults. cbn [ret bind]. rewrite Hsearch. reflexivity.
Qed.

End ToolResultFacts.

Section PlaceFacts.
Context {RT : JsRuntime}.
Variable w : World.

(** X25.  A coordinate that is zero counts as no coordinate: when the
    latitude or the longitude of the envelope is falsy, the turn is the
    turn of a message without a place (the geocoder is not asked, the
    prompt says that the location is not available, and no search is
    rewritten). *)
Theorem zero_coordinate_is_no_place
    (fuel : nat) (userMessage : string) (la lo : number) :
  number_truthy la && number_truthy lo = false ->
  turn w fuel userMessage (Some la) (Some lo) = turn w fuel userMessage None None.
Proof.
  intros Hfalsy. unfold turn. cbv zeta. rewrite Hfalsy. reflexivity.
Qed.

End PlaceFacts.

Lemma language_map_tags_nonempty :
  Forall (fun code => Js.truthy code = true) Speech.SUPPORTED.
Proof. repeat constructor. Qed.

(** A tag that [LANGUAGE_MAP[key] || fallback] yields is not empty when
    the fallback is not. *)
Lemma mapped_or_nonempty (key fallback : string) :
  Js.truthy fallback = true ->
  match Speech.mapped_or key fallback with
  | Speech.Tag code => Js.truthy code = true
  | Speech.NotAString => True
  end.
Proof.
  intros Hfallback. pose proof (mapped_or_cases key fallback) as H.
  destruct (Speech.mapped_or key fallback) as [code|]; [|exact I].
  destruct H as [->|H]; [exact Hfallback|].
  pose proof language_map_tags_nonempty as Hall.
  rewrite Forall_forall in Hall. apply Hall. right. exact H.
Qed.

Section ContentFacts.
Context {RT : JsRuntime}.
Variable franc : string -> option string.

(** X26.  Whenever the message content has a string for its language,
    that string is not empty: it is the language the envelope names, a
    tag of the language map, or [en-US]. *)
Theorem content_language_is_never_empty (streamedMessageText message_text : option string) :
  match Speech.messageContent franc streamedMessageText message_text with
  | Returned c =>
      match Speech.language c with
      | Speech.Tag code => Js.truthy code = true
      | Speech.NotAString => True
      end
  | _ => True
  end.
Proof.
  unfold Speech.messageContent. cbv zeta.
  destruct (negb (Js.truthy _)); [reflexivity|].
  match goal with
  | |- context [Client.lang ?x] => generalize x
  end.
  intros extracted.
  destruct (js_truthy (Client.lang extracted)) eqn:Hlang.
  - destruct (Client.lang extracted) as [ |b|n|l|items|fields]; try exact I.
    cbn [js_truthy] in Hlang.
    destruct (Js.includes (Js.toLowerCase l) "-"); cbn [Speech.language]; [exact Hlang|].
    apply mapped_or_nonempty. exact Hlang.
  - destruct (js_truthy (Client.text extracted)); [|reflexivity].
    destruct (Client.text extracted) as [ |b|n|t|items|fields]; try exact I.
    cbn [Speech.language]. unfold Speech.detectLanguageFallback. cbv zeta.
    destruct (Js.len (Speech.clean t) <? 10)%Z; [reflexivity|].
    destruct (franc (Speech.clean t)) as [detectedCode|]; [|reflexivity].
    destruct (String.eqb detectedCode "und"); [reflexivity|].
    apply mapped_or_nonempty. reflexivity.
Qed.

End ContentFacts.

Section FurtherExamples.
Local Existing Instance Scenario.Integers.

(** X23 on a round of three calls: an alert, a call of an unknown tool
    and a search. *)
Lemma tool_results_answer_the_calls_witness :
  outcome (dispatch Scenario.answering Scenario.nowhere
             [Some Scenario.alert_call; Some Scenario.unknown_call;
              Some Scenario.search_call] [])
  = Returned [ToolResult "call_300_0" "tool_alert" "Emergency alert sent successfully.";
              ToolResult "call_300_0" "tool_search" "No relevant information found."]
  /\ exists added,
       [ToolResult "call_300_0" "tool_alert" "Emergency alert sent successfully.";
        ToolResult "call_300_0" "tool_search" "No relevant information found."]
       = ([] ++ added)%list
       /\ map result_key added
          = map call_key
              (filter is_known_call
                 [Some Scenario.alert_call; Some Scenario.unknown_call;
                  Some Scenario.search_call]).
Proof.
  assert (H : outcome (dispatch Scenario.answering Scenario.nowhere
                         [Some Scenario.alert_call; Some Scenario.unknown_call;
                          Some Scenario.search_call] [])
              = Returned [ToolResult "call_300_0" "tool_alert"
                            "Emergency alert sent successfully.";
                          ToolResult "call_300_0" "tool_search"
                            "No relevant information found."])
    by (vm_compute; reflexivity).
  split; [exact H|].
  exact (tool_results_answer_the_calls Scenario.answering Scenario.nowhere _ [] _ H).
Defined.

(** X24 on a turn in Bengaluru. *)
Lemma search_without_query_witness :
  fn_name Scenario.bare_search_call = "tool_search"
  /\ JSON_parse (fn_arguments Scenario.bare_search_call) = Some (JObj [])
  /\ get (JObj []) "query" = Returned None
  /\ located Scenario.in_bengaluru = Some (12, 77, "Koramangala, Bengaluru")
  /\ exists err,
       dispatch_call Scenario.searching Scenario.in_bengaluru
         (Some Scenario.bare_search_call) []
       = ([], Thrown err).
Proof.
  assert (H1 : fn_name Scenario.bare_search_call = "tool_search") by reflexivity.
  assert (H2 : JSON_parse (fn_arguments Scenario.bare_search_call) = Some (JObj []))
    by (vm_compute; reflexivity).
  assert (H3 : get (JObj []) "query" = Returned None) by reflexivity.
  assert (H4 : located Scenario.in_bengaluru = Some (12, 77, "Koramangala, Bengaluru"))
    by reflexivity.
  refine (conj H1 (conj H2 (conj H3 (conj H4 _)))).
  pose proof (search_without_query Scenario.searching Scenario.in_bengaluru
                Scenario.bare_search_call [] (JObj []) H1 H2 H3) as H.
  rewrite H4 in H. exact H.
Defined.

(** X25 on a message sent from the equator. *)
Lemma zero_coordinate_is_no_place_witness :
  number_truthy 0 && number_truthy 77 = false
  /\ turn Scenario.answering 4 "hello" (Some 0) (Some 77)
     = turn Scenario.answering 4 "hello" None None.
Proof.
  split; [reflexivity|].
  apply (zero_coordinate_is_no_place Scenario.answering 4 "hello" 0 77). reflexivity.
Defined.

End FurtherExamples.

(* ================================================================== *)
(** * Further properties: what is retrieved, and where an alert goes *)
(* ================================================================== *)

Lemma retained_are_relevant (matches : list Match) :
  forall currentTokens,
    Forall (fun m =>
              In m matches
              /\ Js.truthy (Retrieval.content_of m) = true
              /\ match score m with
                 | None => True
                 | Some x => (x == 0)%Q \/ (7 # 10 <= x)%Q
                 end)
      (Retrieval.retained matches currentTokens).
Proof.
  induction matches as [|m rest IH]; intros currentTokens; cbn [Retrieval.retained];
    [constructor|].
  assert (Hrest : forall tokens,
             Forall (fun m0 =>
                       In m0 (m :: rest)
                       /\ Js.truthy (Retrieval.content_of m0) = true
                       /\ match score m0 with
                          | None => True
                          | Some x => (x == 0)%Q \/ (7 # 10 <= x)%Q
                          end)
               (Retrieval.retained rest tokens)).
  { intros tokens. eapply Forall_impl; [|apply IH].
    intros m0 (Hin & Hrest). split; [right; exact Hin|exact Hrest]. }
  destruct (Retrieval.low_relevance m) eqn:Hrel; [apply Hrest|].
  destruct (Js.truthy (Retrieval.content_of m)) eqn:Hcontent; cbn [negb]; [|apply Hrest].
  cbv zeta.
  destruct (currentTokens + estimateTokens (Retrieval.snippet_of m) >? PINECONE_TOKEN_LIMIT);
    [constructor|].
  constructor; [|apply Hrest].
  split; [left; reflexivity|]. split; [exact Hcontent|].
  unfold Retrieval.low_relevance, Retrieval.score_truthy, Retrieval.below_floor in Hrel.
  destruct (score m) as [x|]; [|exact I].
  destruct (Qeq_bool x 0) eqn:Hzero.
  - left. apply Qeq_bool_iff. exact Hzero.
  - right. cbn [negb andb] in Hrel. apply negb_false_iff in Hrel.
    apply Qle_bool_iff. exact Hrel.
Qed.

(** X27.  The retrieved context is made of matches of the store's
    answer only, each with a non-empty content and with a score that is
    absent, zero, or at least 0.7: a match with any other score, or
    without content, contributes nothing. *)
Theorem retrieved_context_is_relevant
    (hf : string -> Fetched EmbeddingJson) (query : string) (matches : list Match) :
  Retrieval.retrieveFromPinecone hf (fun _ => Retrieval.QueryOk (Some matches)) query
  = Js.trim (Retrieval.render (Retrieval.retained matches 0))
  /\ Forall (fun m =>
               In m matches
               /\ Js.truthy (Retrieval.content_of m) = true
               /\ match score m with
                  | None => True
                  | Some x => (x == 0)%Q \/ (7 # 10 <= x)%Q
                  end)
       (Retrieval.retained matches 0).
Proof.
  split; [|apply retained_are_relevant].
  unfold Retrieval.retrieveFromPinecone.
  destruct matches as [|m rest]; [reflexivity|].
  rewrite collect_retained. reflexivity.
Qed.

Section AlertFacts.
Context {RT : JsRuntime}.
Variable w : World.

(** X28.  An alert is one message to the gateway and never an
    exception: it goes to the configured emergency contact, or to the
    built-in number when none is configured (or an empty one), so the
    destination is never empty; the body quotes the user's message; and
    the adapter returns whether the gateway accepted the message. *)
Theorem alert_goes_to_the_contact (userMessage : string) :
  let to := Js.or_else (EMERGENCY_CONTACT_NUMBER w) "+1234567890" in
  exists body,
    sendEmergencyAlert w userMessage
    = ([TwilioCreate body (TWILIO_PHONE_NUMBER w) to], Returned (twilio_create w body to))
    /\ Js.includes body (Js.q ++ userMessage ++ Js.q) = true
    /\ Js.truthy to = true.
Proof.
  cbv zeta. unfold sendEmergencyAlert. cbv zeta. eexists.
  refine (conj _ (conj _ _)).
  - destruct (twilio_create w _ _) eqn:E; cbn; rewrite E; cbn; reflexivity.
  - apply includes_after.
    match goal with
    | |- Js.includes (Js.q ++ userMessage ++ Js.q ++ ?rest) _ = true =>
        replace (Js.q ++ userMessage ++ Js.q ++ rest)
          with ((Js.q ++ userMessage ++ Js.q) ++ rest)
          by (rewrite !append_assoc; reflexivity)
    end.
    apply includes_at_start, prefix_append.
  - unfold Js.or_else. destruct (EMERGENCY_CONTACT_NUMBER w) as [s|]; [|reflexivity].
    destruct (Js.truthy s) eqn:T; [exact T|reflexivity].
Qed.

End AlertFacts.

(* ================================================================== *)
(** * The rounds of a turn: what ends them, and what the next request
      carries *)
(* ================================================================== *)

Section RoundFacts.
Context {RT : JsRuntime}.
Variable w : World.
Variable env : Turning.

(** A call of a tool that is not declared, with arguments that parse,
    does nothing. *)
Lemma unknown_call_skipped
    (call : ToolCall) (toolResults : list ChatMessage) (functionArgs : value) :
  fn_name call <> "tool_search" ->
  fn_name call <> "tool_alert" ->
  JSON_parse (fn_arguments call) = Some functionArgs ->
  dispatch_call w env (Some call) toolResults = ([], Returned toolResults).
Proof.
  intros Hsearch Halert Hparse. unfold dispatch_call. rewrite Hparse.
  destruct (String.eqb_spec (fn_name call) "tool_search"); [contradiction|].
  destruct (String.eqb_spec (fn_name call) "tool_alert"); [contradiction|].
  reflexivity.
Qed.


(** The results of a round that returns, by their keys. *)
Lemma dispatch_result_keys (toolCalls : ToolCalls) :
  forall toolResults result,
    outcome (dispatch w env toolCalls toolResults) = Returned result ->
    exists added,
      result = (toolResults ++ added)%list
      /\ map result_key added = map call_key (filter is_known_call toolCalls).
Proof.
  induction toolCalls as [|toolCall rest IH]; intros toolResults result; cbn [dispatch].
  - cbn. intros H. injection H as <-. exists []. rewrite app_nil_r. split; reflexivity.
  - rewrite outcome_bind.
    destruct (outcome (dispatch_call w env toolCall toolResults)) as [results'|err|] eqn:E;
      try discriminate.
    intros H.
    destruct (dispatch_call_result w env _ _ _ E) as (added1 & -> & Hkeys1).
    destruct (IH _ _ H) as (added2 & -> & Hkeys2).
    exists (added1 ++ added2)%list. split; [rewrite app_assoc; reflexivity|].
    rewrite filter_known_cons, !map_app, Hkeys1, Hkeys2. reflexivity.
Qed.

(** Results that answer known calls are named after one of the two
    tools. *)
Lemma known_keys_names (results : list ChatMessage) :
  forall calls : ToolCalls,
    (forall c, In c calls -> is_known_call c = true) ->
    map result_key results = map call_key calls ->
    Forall (fun r => match r with
                     | ToolResult _ name _ => name = "tool_search" \/ name = "tool_alert"
                     | _ => False
                     end) results.
Proof.
  induction results as [|r results IH]; intros [|c calls] Hknown Hkeys;
    try discriminate; [constructor|].
  cbn [map] in Hkeys. injection Hkeys as Hkey Hrest.
  constructor.
  - pose proof (Hknown c (or_introl eq_refl)) as Hc.
    destruct c as [call|]; [|discriminate]. cbn [call_key is_known_call] in *.
    destruct r as [role content|content tool_calls|id name content]; try discriminate.
    cbn [result_key] in Hkey. injection Hkey as _ ->.
    apply orb_true_iff in Hc. destruct Hc as [Hc|Hc]; apply String.eqb_eq in Hc;
      [left|right]; exact Hc.
  - apply (IH calls); [|exact Hrest]. intros c' Hin. apply Hknown. right. exact Hin.
Qed.

(** The request after a round of tool calls: the conversation, the
    assistant message with the calls, and the results. *)
Lemma rounds_second_request
    (fuel : nat) (conversationMessages : list ChatMessage) (accumulatedText : string)
    (lastUpdate : Z) (chunks : list Chunk) (toolResults : list ChatMessage) :
  completions_create w conversationMessages = Streams chunks true ->
  stream_tool_calls chunks <> [] ->
  outcome (dispatch w env (stream_tool_calls chunks) []) = Returned toolResults ->
  exists later,
    requests (trace (rounds w env (S (S fuel)) conversationMessages accumulatedText
                       lastUpdate))
    = conversationMessages
      :: (conversationMessages
          ++ [AssistantToolCalls
                (if Js.truthy (stream_content chunks) then Some (stream_content chunks)
                 else None)
                (stream_tool_calls chunks)]
          ++ toolResults)%list
      :: later.
Proof.
  intros Hreply Hcalls Hdispatch.
  change (rounds w env (S (S fuel)) conversationMessages accumulatedText lastUpdate)
    with (emit (CompletionsCreate conversationMessages) ;;;
          match completions_create w conversationMessages with
          | CreateThrows => throw "provider: create"
          | Streams chunks0 completes =>
              st <- consume chunks0 accumulatedText EmptyString [] lastUpdate ;;
              let '(currentContent, toolCalls, lastUpdate') := st in
              if negb completes then throw "provider: stream"
              else
                match toolCalls with
                | [] => ret (accumulatedText ++ currentContent)
                | _ =>
                    toolResults0 <- dispatch w env toolCalls [] ;;
                    rounds w env (S fuel)
                      (conversationMessages
                       ++ [AssistantToolCalls
                             (if Js.truthy currentContent then Some currentContent else None)
                             toolCalls]
                       ++ toolResults0)%list
                      accumulatedText lastUpdate'
                end
          end).
  rewrite Hreply, trace_bind, requests_app. cbn [emit trace outcome fst snd].
  rewrite trace_bind, requests_app.
  destruct (consume_effect chunks accumulatedText EmptyString [] lastUpdate)
    as (lastUpdate' & -> & Hinner & _).
  rewrite (inner_events_no_request _ Hinner). cbn [app negb append].
  fold (stream_tool_calls chunks).
  destruct (stream_tool_calls chunks) as [|toolCall rest] eqn:Hlist; [contradiction|].
  rewrite <- Hlist in *. rewrite trace_bind, requests_app, Hdispatch.
  destruct (dispatch_effect w env (stream_tool_calls chunks) []) as (Hin & _).
  rewrite (inner_events_no_request _ Hin). cbn [app].
  match goal with
  | |- context [rounds w env (S fuel) ?msgs ?acc ?lu] =>
      destruct (rounds_first_request w env fuel msgs acc lu) as (later & ->)
  end.
  exists later. reflexivity.
Qed.

(** C9 (as amended).  A call whose name is neither of the two tools and
    whose arguments parse leaves the round as it found it: no tool
    result is recorded for it, no adapter is called, no exception is
    thrown, and the loop goes on to the next call.  When the round
    dispatches all of its calls, the next request carries the assistant
    message with the calls of the round, this one among them, and after
    it one tool message for each call of one of the two tools and none
    for this call. *)
Theorem unknown_tool_is_passed_over
    (call : ToolCall) (toolResults : list ChatMessage) (functionArgs : value) :
  fn_name call <> "tool_search" ->
  fn_name call <> "tool_alert" ->
  JSON_parse (fn_arguments call) = Some functionArgs ->
  dispatch_call w env (Some call) toolResults = ([], Returned toolResults)
  /\ (forall rest,
        dispatch w env (Some call :: rest) toolResults = dispatch w env rest toolResults)
  /\ (forall (fuel : nat) (conversationMessages : list ChatMessage)
             (accumulatedText : string) (lastUpdate : Z) (chunks : list Chunk)
             (results : list ChatMessage),
        completions_create w conversationMessages = Streams chunks true ->
        In (Some call) (stream_tool_calls chunks) ->
        outcome (dispatch w env (stream_tool_calls chunks) []) = Returned results ->
        (exists later,
            requests (trace (rounds w env (S (S fuel)) conversationMessages
                               accumulatedText lastUpdate))
            = conversationMessages
              :: (conversationMessages
                  ++ [AssistantToolCalls
                        (if Js.truthy (stream_content chunks)
                         then Some (stream_content chunks) else None)
                        (stream_tool_calls chunks)]
                  ++ results)%list
              :: later)
        /\ map result_key results
           = map call_key (filter is_known_call (stream_tool_calls chunks))
        /\ is_known_call (Some call) = false
        /\ Forall (fun r => match r with
                            | ToolResult _ name _ => name <> fn_name call
                            | _ => False
                            end) results).
Proof.
  intros Hsearch Halert Hparse.
  pose proof (unknown_call_skipped call toolResults functionArgs Hsearch Halert Hparse)
    as Hcall.
  refine (conj Hcall (conj _ _)).
  - intros rest. cbn [dispatch]. rewrite Hcall. cbn [bind app].
    destruct (dispatch w env rest toolResults). reflexivity.
  - intros fuel conversationMessages accumulatedText lastUpdate chunks results
           Hreply Hin Hdispatch.
    assert (Hcalls : stream_tool_calls chunks <> [])
      by (intros Hnil; rewrite Hnil in Hin; destruct Hin).
    destruct (dispatch_result_keys _ _ _ Hdispatch) as (added & Hadded & Hkeys).
    cbn [app] in Hadded. subst added.
    refine (conj _ (conj Hkeys (conj _ _))).
    + exact (rounds_second_request fuel conversationMessages accumulatedText lastUpdate
               chunks results Hreply Hcalls Hdispatch).
    + cbn [is_known_call].
      apply orb_false_iff. split; apply String.eqb_neq; assumption.
    + assert (Hknown : forall c,
                 In c (filter is_known_call (stream_tool_calls chunks)) ->
                 is_known_call c = true)
        by (intros c Hc; apply filter_In in Hc; apply Hc).
      eapply Forall_impl; [|exact (known_keys_names results _ Hknown Hkeys)].
      intros [role content|content tool_calls|id name content];
        [exact (fun absurd => absurd)|exact (fun absurd => absurd)|].
      intros [->| ->] Heq; [apply Hsearch|apply Halert]; symmetry; exact Heq.
Qed.



End RoundFacts.

(* ================================================================== *)
(** * The end of a turn and the reply that decides it *)
(* ================================================================== *)

Section EndOfTurn.
Context {RT : JsRuntime}.
Variable w : World.






End EndOfTurn.

(* ================================================================== *)
(** * Turns that end, and turns that do not, run on the worlds *)
(* ================================================================== *)

Section EndExamples.
Local Existing Instance Scenario.Integers.

Lemma asking_again_calls :
  stream_tool_calls Scenario.asking_again = [Some Scenario.unknown_call].
Proof. vm_compute. reflexivity. Qed.

Lemma unknown_call_arguments :
  JSON_parse (fn_arguments Scenario.unknown_call) = Some (JObj [("city", JStr "Bengaluru")]).
Proof. vm_compute. reflexivity. Qed.








(** The amended C9 on a call of a tool that is not declared: the round
    records nothing for it, and the second request of the turn is the
    first one with the assistant message that holds the call, and no
    tool message. *)
Lemma unknown_tool_is_passed_over_witness :
  fn_name Scenario.unknown_call <> "tool_search"
  /\ fn_name Scenario.unknown_call <> "tool_alert"
  /\ JSON_parse (fn_arguments Scenario.unknown_call)
     = Some (JObj [("city", JStr "Bengaluru")])
  /\ dispatch_call Scenario.calling_unknown Scenario.nowhere (Some Scenario.unknown_call) []
     = ([], Returned [])
  /\ completions_create Scenario.calling_unknown Scenario.first_messages
     = Streams Scenario.asking_again true
  /\ In (Some Scenario.unknown_call) (stream_tool_calls Scenario.asking_again)
  /\ outcome (dispatch Scenario.calling_unknown Scenario.nowhere
                (stream_tool_calls Scenario.asking_again) [])
     = Returned []
  /\ exists later,
       requests (trace (rounds Scenario.calling_unknown Scenario.nowhere 2
                          Scenario.first_messages EmptyString 0))
       = Scenario.first_messages
         :: (Scenario.first_messages
             ++ [AssistantToolCalls None [Some Scenario.unknown_call]])%list
         :: later.
Proof.
  pose proof unknown_call_arguments as Hparse.
  assert (Hsearch : fn_name Scenario.unknown_call <> "tool_search") by discriminate.
  assert (Halert : fn_name Scenario.unknown_call <> "tool_alert") by discriminate.
  assert (Hreply : completions_create Scenario.calling_unknown Scenario.first_messages
                   = Streams Scenario.asking_again true) by reflexivity.
  assert (Hin : In (Some Scenario.unknown_call) (stream_tool_calls Scenario.asking_again))
    by (rewrite asking_again_calls; left; reflexivity).
  assert (Hdispatch : outcome (dispatch Scenario.calling_unknown Scenario.nowhere
                                 (stream_tool_calls Scenario.asking_again) [])
                      = Returned []) by (vm_compute; reflexivity).
  destruct (unknown_tool_is_passed_over Scenario.calling_unknown Scenario.nowhere
              Scenario.unknown_call [] _ Hsearch Halert Hparse) as (Hcall & _ & Hnext).
  refine (conj Hsearch (conj Halert (conj Hparse (conj Hcall
            (conj Hreply (conj Hin (conj Hdispatch _))))))).
  destruct (Hnext 0%nat Scenario.first_messages EmptyString 0 Scenario.asking_again []
              Hreply Hin Hdispatch) as ((later & Hreq) & _).
  exists later. rewrite Hreq, asking_again_calls. reflexivity.
Defined.

(** X7 on a channel of three messages, the second of which carries a
    number where the text should be: the newest message is read, the
    next one throws, and the history is empty. *)
Lemma flat_history_within_cap_witness :
  scan_message Scenario.numeric_text = Raised
  /\ scan_message (Scenario.user_says "good morning") <> Raised
  /\ GroqAgent.getConversationHistory
       (ChannelOk (Some [Scenario.user_says "hello there"; Scenario.numeric_text;
                         Scenario.user_says "good morning"]))
     = [].
Proof.
  assert (Hbad : scan_message Scenario.numeric_text = Raised) by (vm_compute; reflexivity).
  assert (Hgood : scan_message (Scenario.user_says "good morning") <> Raised)
    by (vm_compute; discriminate).
  refine (conj Hbad (conj Hgood _)).
  apply (proj2 (proj2 (proj2 (flat_history_within_cap ChannelThrows)))
           [Scenario.user_says "hello there"; Scenario.numeric_text;
            Scenario.user_says "good morning"]
           [Scenario.user_says "good morning"] Scenario.numeric_text
           [Scenario.user_says "hello there"]).
  - reflexivity.
  - exact Hbad.
  - intros msg [<-|[]]. exact Hgood.
  - vm_compute. discriminate.
Defined.

End EndExamples.
